(** * digi_bulletin: the image rotator and the Drive synchroniser

    A shallow embedding of [bulletin.py] (class [DigitalBulletinBoard]) and
    of [image_fetcher.py] (class [GoogleDriveSync]).

    Conventions of the embedding:
    - instance attributes ([self.image_list], [self.last_sync], ...) are the
      fields of a record that every method takes and returns;
    - a method that can let a Python exception escape returns an [outcome];
    - what the methods read from outside the process (the image directory,
      the Drive service, pygame's event queue, the clock) is passed in as an
      explicit argument, one snapshot per call;
    - clock readings and file modification times are given as rationals.
      The synchroniser is embedded with their exact difference; the timer
      of the rotator's main loop and the scaling of an image are embedded
      with the binary64 arithmetic of Python's [float], through the
      specification of IEEE 754 in the standard library ([SpecFloat]);
    - [str] is a byte string, [str.lower] acts on ASCII letters. *)

From Stdlib Require Import ZArith QArith Qpower Qminmax Lia Lqa Ascii String.
From Stdlib Require Import Floats.SpecFloat.
From stdpp Require Import base list strings gmap.

Local Open Scope string_scope.
Local Open Scope Z_scope.

(** ** Python strings *)

Module PyStr.

(** [c.lower()] on one ASCII character. *)
Definition lower_ascii (c : ascii) : ascii :=
  let n := nat_of_ascii c in
  if (65 <=? n)%nat && (n <=? 90)%nat then ascii_of_nat (n + 32) else c.

(** [s.lower()] on ASCII letters; other characters are left as they
    are, so the function is Python's on strings that are ASCII. *)
Fixpoint lower (s : string) : string :=
  match s with
  | EmptyString => EmptyString
  | String c r => String (lower_ascii c) (lower r)
  end.

(** [s.rfind(c)]: position of the last occurrence, [None] for [-1]. *)
Fixpoint rfind (c : ascii) (s : string) : option nat :=
  match s with
  | EmptyString => None
  | String a r =>
      match rfind c r with
      | Some i => Some (S i)
      | None => if Ascii.eqb a c then Some 0%nat else None
      end
  end.

(** [s[i:]] *)
Fixpoint drop (i : nat) (s : string) : string :=
  match i, s with
  | O, _ => s
  | S i', EmptyString => EmptyString
  | S i', String _ r => drop i' r
  end.

(** [s.endswith(suf)] *)
Definition endswith (s suf : string) : bool :=
  String.eqb (drop (String.length s - String.length suf) s) suf.

(** [x in l] for a list of strings. *)
Definition mem (x : string) (l : list string) : bool :=
  existsb (String.eqb x) l.

End PyStr.

(** ** The local image directory

    One entry of [image_directory.iterdir()]. *)

Record File := {
  fname : string;          (* [p.name] *)
  is_file : bool;          (* [p.is_file()] *)
  mtime : Q;               (* [p.stat().st_mtime] *)
  data : string            (* the bytes of the file *)
}.

(** What [Path(config['image_directory'])] denotes when a method looks at
    it: a directory with its entries in [iterdir()] order, or nothing, in
    which case [mkdir_ok] tells whether [mkdir(parents=True)] succeeds. *)
Inductive DirState :=
| Missing (mkdir_ok : bool)
| Present (entries : list File).

Module PyPath.

(** [PurePath.suffix]:
    [i = name.rfind('.')]; [name[i:]] if [0 < i < len(name) - 1], else ['']. *)
Definition suffix (name : string) : string :=
  match PyStr.rfind "." name with
  | Some i =>
      if (0 <? Z.of_nat i) && (Z.of_nat i <? Z.of_nat (String.length name) - 1)
      then PyStr.drop i name
      else ""
  | None => ""
  end.

(** [str(d / name)] for a directory whose [str] is [d]. *)
Definition join (d name : string) : string :=
  if String.eqb d "." then name
  else if String.eqb d "/" then "/" ++ name
  else d ++ "/" ++ name.

End PyPath.

(** ** Outcome of a method call: a value, or an exception that escapes. *)

Inductive Exn := ZeroDivisionError | IndexError.

Inductive outcome (S A : Type) :=
| Ok (a : A) (st : S)
| Raise (e : Exn) (st : S).
Arguments Ok {S A} a st.
Arguments Raise {S A} e st.

(** ** pygame surfaces and the display *)

Module Display.

Definition Color := (Z * Z * Z)%type.

(** A [pygame.Surface]: its size and the colour of each pixel. *)
Record Surface := {
  width : Z;
  height : Z;
  pixel : Z -> Z -> Color
}.

(** A [pygame.Rect]. *)
Record Rect := { left : Z; top : Z; rw : Z; rh : Z }.

Definition get_rect (s : Surface) : Rect :=
  {| left := 0; top := 0; rw := width s; rh := height s |}.

(** [r.center]: [(x + w / 2, y + h / 2)], C integer division. *)
Definition center (r : Rect) : Z * Z :=
  (left r + Z.quot (rw r) 2, top r + Z.quot (rh r) 2).

(** [r.center = (cx, cy)]: [x = cx - w / 2], [y = cy - h / 2]. *)
Definition set_center (r : Rect) (c : Z * Z) : Rect :=
  {| left := fst c - Z.quot (rw r) 2; top := snd c - Z.quot (rh r) 2;
     rw := rw r; rh := rh r |}.

Definition inside (r : Rect) (x y : Z) : bool :=
  (left r <=? x) && (x <? left r + rw r) && (top r <=? y) && (y <? top r + rh r).

(** [dst.fill(c)] *)
Definition fill (c : Color) (dst : Surface) : Surface :=
  {| width := width dst; height := height dst; pixel := fun _ _ => c |}.

(** [dst.blit(src, r)]: [src] is copied with its top left corner at the
    top left corner of [r]. *)
Definition blit (src : Surface) (r : Rect) (dst : Surface) : Surface :=
  {| width := width dst; height := height dst;
     pixel := fun x y =>
       if inside {| left := left r; top := top r;
                    rw := width src; rh := height src |} x y
       then pixel src (x - left r) (y - top r)
       else pixel dst x y |}.

Inductive Call :=
| CFill (c : Color)
| CBlit (src : Surface) (r : Rect)
| CFlip.

(** The display: [screen] is the Surface returned by
    [pygame.display.set_mode] (drawn into, not yet shown), [visible] is
    what the monitor shows, [calls] the drawing calls made so far, the
    oldest first. *)
Record Screen := {
  screen : Surface;
  visible : Z -> Z -> Color;
  calls : list Call
}.

Definition screen_fill (c : Color) (d : Screen) : Screen :=
  {| screen := fill c (screen d); visible := visible d;
     calls := calls d ++ [CFill c] |}.

Definition screen_blit (src : Surface) (r : Rect) (d : Screen) : Screen :=
  {| screen := blit src r (screen d); visible := visible d;
     calls := calls d ++ [CBlit src r] |}.

(** [pygame.display.flip()] *)
Definition flip (d : Screen) : Screen :=
  {| screen := screen d; visible := pixel (screen d);
     calls := calls d ++ [CFlip] |}.

Definition flips (d : Screen) : nat :=
  length (List.filter (fun c => match c with CFlip => true | _ => false end)
                      (calls d)).

End Display.

(** ** Python's [float] and its mixed arithmetic with [int]

    A [float] is a binary64 number: [spec_float] with 53 digits of
    precision and exponents up to 1024. *)

Module PyFloat.

Definition prec : Z := 53.
Definition emax : Z := 1024.

(** [float(n)] for an int: the nearest binary64, ties to even. An int
    beyond the range gives an infinity here, where Python raises
    [OverflowError]. *)
Definition of_int (n : Z) : spec_float := binary_normalize prec emax n 0 false.

(** An int as an operand that has not been rounded. *)
Definition exact (n : Z) : spec_float :=
  match n with
  | Z0 => S754_zero false
  | Zpos p => S754_finite false p 0
  | Zneg p => S754_finite true p 0
  end.

(** [a / b] for two ints: the quotient rounded once to binary64; [None]
    for [ZeroDivisionError] and for the [OverflowError] of a quotient
    beyond the range. *)
Definition truediv (a b : Z) : option spec_float :=
  if b =? 0 then None
  else match SFdiv prec emax (exact a) (exact b) with
       | S754_infinity _ | S754_nan => None
       | q => Some q
       end.

(** [x * y], [x - y] and [x < y] for two floats. *)
Definition mul (x y : spec_float) : spec_float := SFmul prec emax x y.
Definition sub (x y : spec_float) : spec_float := SFsub prec emax x y.
Definition lt (x y : spec_float) : bool := SFltb x y.

(** [min(x, y)]: the first argument unless the second is smaller. *)
Definition min (x y : spec_float) : spec_float := if lt y x then y else x.

(** [int(x)]: truncation towards zero; [None] for the [OverflowError] or
    [ValueError] of an infinity or a NaN. *)
Definition to_int (x : spec_float) : option Z :=
  match x with
  | S754_zero _ => Some 0
  | S754_finite s m e =>
      Some (cond_Zopp s (if 0 <=? e then Zpos m * 2 ^ e else Zpos m / 2 ^ (- e)))
  | S754_infinity _ | S754_nan => None
  end.

(** The number a float stands for ([0] for an infinity or a NaN). *)
Definition value (x : spec_float) : Q :=
  match x with
  | S754_finite s m e => inject_Z (cond_Zopp s (Zpos m)) * (2 ^ e)%Q
  | _ => 0%Q
  end.

(** The float a clock reading given as a rational stands for: the
    binary64 nearest to it, which is the rational itself when that is a
    binary64 number. *)
Definition of_Q (q : Q) : spec_float :=
  SFdiv prec emax (exact (Qnum q)) (exact (Zpos (Qden q))).

(** [x >= n] for a float and a number of the configuration, an int or a
    float given by its value: Python compares the two exactly. *)
Definition ge_number (x : spec_float) (n : Q) : bool :=
  match x with
  | S754_nan => false
  | S754_infinity s => negb s
  | _ => Qle_bool n (value x)
  end.

End PyFloat.

(** ** [bulletin.py]: class [DigitalBulletinBoard] *)

Module Bulletin.

(** The keys of [self.config] that the methods below read. *)
Record Config := {
  image_directory : string;       (* [str(Path(config['image_directory']))] *)
  display_duration : Q;
  supported_formats : list string;
  shuffle_images : bool;
  background_color : Display.Color
}.

(** The generator behind [random.shuffle]: [draws k] is the [k]-th raw
    draw, [pos] the number of draws consumed. *)
Record Rng := { draws : nat -> nat; pos : nat }.

(** [randbelow(n)] *)
Definition randbelow (n : nat) (r : Rng) : nat * Rng :=
  (draws r (pos r) mod n, {| draws := draws r; pos := S (pos r) |})%nat.

Inductive LogMsg :=
| InfoCreatedDir
| ErrorCreateDir
| ErrorNoImages
| InfoFound (n : nat)
| ErrorLoading (path : string)
| DebugDims (w h : Z)
| InfoRescanning
| InfoDisplaying (path : string)
| InfoStarting
| ErrorExiting
| InfoShuttingDown.

Record Board := {
  config : Config;
  screen_width : Z;
  screen_height : Z;
  display : Display.Screen;
  image_list : list string;
  current_image_index : Z;
  last_update_time : Q;
  rng : Rng;
  log : list LogMsg
}.

Definition logging (m : LogMsg) (b : Board) : Board :=
  {| config := config b; screen_width := screen_width b;
     screen_height := screen_height b; display := display b;
     image_list := image_list b;
     current_image_index := current_image_index b;
     last_update_time := last_update_time b; rng := rng b;
     log := log b ++ [m] |}.

Definition set_image_list (l : list string) (b : Board) : Board :=
  {| config := config b; screen_width := screen_width b;
     screen_height := screen_height b; display := display b;
     image_list := l;
     current_image_index := current_image_index b;
     last_update_time := last_update_time b; rng := rng b;
     log := log b |}.

Definition set_current_image_index (i : Z) (b : Board) : Board :=
  {| config := config b; screen_width := screen_width b;
     screen_height := screen_height b; display := display b;
     image_list := image_list b;
     current_image_index := i;
     last_update_time := last_update_time b; rng := rng b;
     log := log b |}.

Definition set_last_update_time (t : Q) (b : Board) : Board :=
  {| config := config b; screen_width := screen_width b;
     screen_height := screen_height b; display := display b;
     image_list := image_list b;
     current_image_index := current_image_index b;
     last_update_time := t; rng := rng b;
     log := log b |}.

Definition set_display (d : Display.Screen) (b : Board) : Board :=
  {| config := config b; screen_width := screen_width b;
     screen_height := screen_height b; display := d;
     image_list := image_list b;
     current_image_index := current_image_index b;
     last_update_time := last_update_time b; rng := rng b;
     log := log b |}.

Definition set_rng (r : Rng) (b : Board) : Board :=
  {| config := config b; screen_width := screen_width b;
     screen_height := screen_height b; display := display b;
     image_list := image_list b;
     current_image_index := current_image_index b;
     last_update_time := last_update_time b; rng := r;
     log := log b |}.

(** [x[i], x[j] = x[j], x[i]] *)
Definition swap {A} (x : list A) (i j : nat) : list A :=
  match x !! i, x !! j with
  | Some a, Some b => <[j := a]> (<[i := b]> x)
  | _, _ => x
  end.

(** [random.shuffle(x)]:
    [for i in reversed(range(1, len(x))): j = randbelow(i + 1); swap].
    [shuffle_from i] runs the iterations [i, i-1, ..., 1]. *)
Fixpoint shuffle_from {A} (i : nat) (r : Rng) (x : list A) : list A * Rng :=
  match i with
  | O => (x, r)
  | S i' =>
      let '(j, r') := randbelow (S i) r in
      shuffle_from i' r' (swap x i j)
  end.

Definition shuffle {A} (r : Rng) (x : list A) : list A * Rng :=
  shuffle_from (length x - 1) r x.

(** [file_path.is_file() and file_path.suffix.lower() in supported_formats] *)
Definition is_supported (formats : list string) (f : File) : bool :=
  is_file f && PyStr.mem (PyStr.lower (PyPath.suffix (fname f))) formats.

(** The loop of [scan_images] over [image_dir.iterdir()]. *)
Definition collect (d : string) (formats : list string) (es : list File)
  : list string :=
  List.map (fun f => PyPath.join d (fname f))
           (List.filter (is_supported formats) es).

(** [scan_images], from the assignment [self.image_list = []] on. *)
Definition scan_entries (es : list File) (b : Board) : bool * Board :=
  let supported := List.map PyStr.lower (supported_formats (config b)) in
  let found := collect (image_directory (config b)) supported es in
  let b := set_image_list found b in
  match found with
  | [] => (false, logging ErrorNoImages b)
  | _ :: _ =>
      let b :=
        if shuffle_images (config b)
        then let '(l, r) := shuffle (rng b) found in
             set_rng r (set_image_list l b)
        else b in
      (true, logging (InfoFound (length (image_list b))) b)
  end.

Definition scan_images (dir : DirState) (b : Board) : bool * Board :=
  match dir with
  | Missing false => (false, logging ErrorCreateDir b)
  | Missing true => scan_entries [] (logging InfoCreatedDir b)
  | Present es => scan_entries es b
  end.

(** [display_image] *)
Definition display_image (image_surface : option Display.Surface) (b : Board)
  : Board :=
  match image_surface with
  | None => b
  | Some s =>
      let d := Display.screen_fill (background_color (config b)) (display b) in
      let image_rect := Display.get_rect s in
      let screen_rect := Display.get_rect (Display.screen d) in
      let image_rect := Display.set_center image_rect (Display.center screen_rect) in
      let d := Display.screen_blit s image_rect d in
      let d := Display.flip d in
      logging (DebugDims (Display.width s) (Display.height s)) (set_display d b)
  end.

(** [l[i]] for a Python list and a Python int. *)
Definition py_index {A} (l : list A) (i : Z) : option A :=
  if 0 <=? i then l !! Z.to_nat i
  else if - Z.of_nat (length l) <=? i then l !! Z.to_nat (Z.of_nat (length l) + i)
  else None.

(** The arithmetic of [load_and_scale_image] between [pil_image.size] and
    [resize]: the size asked of [resize] for an image of [img_width] by
    [img_height], or [None] when a step raises, which the [except] clause
    of the method turns into its own [None]. *)
Definition scaled_size (b : Board) (img_width img_height : Z) : option (Z * Z) :=
  match PyFloat.truediv (screen_width b) img_width with
  | None => None
  | Some scale_x =>
      match PyFloat.truediv (screen_height b) img_height with
      | None => None
      | Some scale_y =>
          let scale := PyFloat.min scale_x scale_y in
          match PyFloat.to_int (PyFloat.mul (PyFloat.of_int img_width) scale) with
          | None => None
          | Some new_width =>
              match PyFloat.to_int (PyFloat.mul (PyFloat.of_int img_height) scale) with
              | None => None
              | Some new_height => Some (new_width, new_height)
              end
          end
      end
  end.

(** The test of the main loop,
    [current_time - self.last_update_time >= self.config['display_duration']]:
    the subtraction is the one of binary64. *)
Definition timer_due (current_time last_update_time display_duration : Q) : bool :=
  PyFloat.ge_number
    (PyFloat.sub (PyFloat.of_Q current_time) (PyFloat.of_Q last_update_time))
    display_duration.

(** The keys and events that [handle_events] tells apart. *)
Inductive Key := K_ESCAPE | K_q | K_SPACE | K_LEFT | K_RIGHT | K_r | K_other.

Inductive Event := QUIT | KEYDOWN (key : Key) | OtherEvent.

Section WithPIL.

(** What the PIL pipeline of [load_and_scale_image] yields for a path
    and a screen size: the resized image as a pygame surface, or
    [None] when any step raises. *)
Variable pil_pipeline : Z -> Z -> string -> option Display.Surface.

Definition load_and_scale_image (image_path : string) (b : Board)
  : option Display.Surface * Board :=
  match pil_pipeline (screen_width b) (screen_height b) image_path with
  | Some s => (Some s, b)
  | None => (None, logging (ErrorLoading image_path) b)
  end.

Definition display_current_image (b : Board) : outcome Board unit :=
  match image_list b with
  | [] => Ok tt b
  | _ :: _ =>
      match py_index (image_list b) (current_image_index b) with
      | None => Raise IndexError b
      | Some current_image_path =>
          let b := logging (InfoDisplaying current_image_path) b in
          let '(image_surface, b) := load_and_scale_image current_image_path b in
          Ok tt (display_image image_surface b)
      end
  end.

(** [advance_image]; [now] is what [time.time()] returns. *)
Definition advance_image (now : Q) (b : Board) : outcome Board unit :=
  match image_list b with
  | [] => Ok tt b
  | _ :: _ =>
      let b := set_current_image_index
                 ((current_image_index b + 1) mod Z.of_nat (length (image_list b))) b in
      match display_current_image b with
      | Ok _ b => Ok tt (set_last_update_time now b)
      | Raise e b => Raise e b
      end
  end.

(** The body of the [for] loop of [handle_events] for one event:
    [Ok (Some r)] stands for [return r], [Ok None] for falling through
    to the next event. *)
Definition handle_event (dir : DirState) (now : Q) (event : Event) (b : Board)
  : outcome Board (option bool) :=
  match event with
  | QUIT => Ok (Some false) b
  | KEYDOWN K_ESCAPE | KEYDOWN K_q => Ok (Some false) b
  | KEYDOWN K_SPACE | KEYDOWN K_RIGHT =>
      match advance_image now b with
      | Ok _ b => Ok None b
      | Raise e b => Raise e b
      end
  | KEYDOWN K_LEFT =>
      match image_list b with
      | [] => Raise ZeroDivisionError b
      | _ :: _ =>
          let b := set_current_image_index
                     ((current_image_index b - 1) mod Z.of_nat (length (image_list b))) b in
          match display_current_image b with
          | Ok _ b => Ok None b
          | Raise e b => Raise e b
          end
      end
  | KEYDOWN K_r =>
      let b := logging InfoRescanning b in
      Ok None (snd (scan_images dir b))
  | KEYDOWN K_other | OtherEvent => Ok None b
  end.

(** [handle_events]; [events] is what [pygame.event.get()] returns. *)
Fixpoint handle_events (dir : DirState) (now : Q) (events : list Event) (b : Board)
  : outcome Board bool :=
  match events with
  | [] => Ok true b
  | event :: rest =>
      match handle_event dir now event b with
      | Ok (Some r) b => Ok r b
      | Ok None b => handle_events dir now rest b
      | Raise e b => Raise e b
      end
  end.

(** [__init__], after [load_config], [setup_logging] and [setup_pygame]. *)
Definition init (c : Config) (w h : Z) (d : Display.Screen) (r : Rng) (now : Q)
  : Board :=
  {| config := c; screen_width := w; screen_height := h; display := d;
     image_list := []; current_image_index := 0; last_update_time := now;
     rng := r; log := [] |}.

(** [run] up to the [while] loop: [None] when [run] returns early. *)
Definition run_start (dir : DirState) (b : Board) : outcome Board (option unit) :=
  let b := logging InfoStarting b in
  match scan_images dir b with
  | (false, b) => Ok None (logging ErrorExiting b)
  | (true, b) =>
      match display_current_image b with
      | Ok _ b => Ok (Some tt) b
      | Raise e b => Raise e b
      end
  end.

(** What one iteration of the [while] loop of [run] reads from outside. *)
Record Tick := {
  tick_events : list Event;   (* [pygame.event.get()] *)
  tick_dir : DirState;        (* the image directory, if a rescan looks *)
  tick_key_time : Q;          (* [time.time()] inside a manual advance *)
  tick_time : Q;              (* [current_time = time.time()] *)
  tick_auto_time : Q          (* [time.time()] inside the timed advance *)
}.

(** One iteration of the loop; the value is the new [running]. *)
Definition loop_body (t : Tick) (b : Board) : outcome Board bool :=
  match handle_events (tick_dir t) (tick_key_time t) (tick_events t) b with
  | Raise e b => Raise e b
  | Ok running b =>
      if timer_due (tick_time t) (last_update_time b) (display_duration (config b))
      then match advance_image (tick_auto_time t) b with
           | Ok _ b => Ok running b
           | Raise e b => Raise e b
           end
      else Ok running b
  end.

(** The [while running] loop over the ticks the process lives through. *)
Fixpoint run_loop (ticks : list Tick) (b : Board) : outcome Board bool :=
  match ticks with
  | [] => Ok true b
  | t :: rest =>
      match loop_body t b with
      | Ok true b => run_loop rest b
      | Ok false b => Ok false (logging InfoShuttingDown b)
      | Raise e b => Raise e b
      end
  end.

End WithPIL.

End Bulletin.

(** ** [time.strptime] and [time.mktime], as [download_file] uses them *)

Module PyTime.

Record struct_time := {
  tm_year : Z; tm_mon : Z; tm_mday : Z;
  tm_hour : Z; tm_min : Z; tm_sec : Z
}.

Definition is_digit (c : ascii) : bool :=
  let n := nat_of_ascii c in (48 <=? n)%nat && (n <=? 57)%nat.

Fixpoint all_digits (s : string) : bool :=
  match s with
  | EmptyString => true
  | String c r => is_digit c && all_digits r
  end.

Fixpoint int_of (acc : Z) (s : string) : Z :=
  match s with
  | EmptyString => acc
  | String c r => int_of (10 * acc + (Z.of_nat (nat_of_ascii c) - 48)) r
  end.

(** The text before the first character satisfying [sep], and the text
    after that character. *)
Fixpoint split_at (sep : ascii -> bool) (s : string) : option (string * string) :=
  match s with
  | EmptyString => None
  | String c r =>
      if sep c then Some (EmptyString, r)
      else match split_at sep r with
           | Some (f, rest) => Some (String c f, rest)
           | None => None
           end
  end.

(** A field of one or two digits whose value lies in [lo..hi]: the shape of
    the groups for [%m] ([1[0-2]|0[1-9]|[1-9]]), [%H] ([2[0-3]|[0-1]\d|\d]),
    [%M] ([[0-5]\d|\d]) and [%S] ([6[0-1]|[0-5]\d|\d]). *)
Definition field (lo hi : Z) (s : string) : option Z :=
  let n := String.length s in
  if ((1 <=? n)%nat && (n <=? 2)%nat && all_digits s
      && (lo <=? int_of 0 s) && (int_of 0 s <=? hi))%bool
  then Some (int_of 0 s) else None.

(** The group for [%d]: [3[0-1]|[1-2]\d|0[1-9]|[1-9]| [1-9]]. *)
Definition field_day (s : string) : option Z :=
  match s with
  | String " " r => if (String.length r =? 1)%nat then field 1 9 r else None
  | _ => field 1 31 s
  end.

(** The group for [%Y]: [\d\d\d\d]. *)
Definition field_year (s : string) : option Z :=
  if ((String.length s =? 4)%nat && all_digits s)%bool then Some (int_of 0 s) else None.

(** The group for [%f]: [[0-9]{1,6}]. *)
Definition field_frac (s : string) : option Z :=
  let n := String.length s in
  if ((1 <=? n)%nat && (n <=? 6)%nat && all_digits s)%bool then Some (int_of 0 s) else None.

Definition is_leap (y : Z) : bool :=
  (y mod 4 =? 0) && (negb (y mod 100 =? 0) || (y mod 400 =? 0)).

Definition days_in_month (y m : Z) : Z :=
  if m =? 2 then (if is_leap y then 29 else 28)
  else if (m =? 4) || (m =? 6) || (m =? 9) || (m =? 11) then 30
  else 31.

Definition days_before_year (y : Z) : Z :=
  let y1 := y - 1 in y1 * 365 + y1 / 4 - y1 / 100 + y1 / 400.

Fixpoint days_before_month_aux (y : Z) (k : nat) : Z :=
  match k with
  | O => 0
  | S k' => days_before_month_aux y k' + days_in_month y (Z.of_nat k)
  end.

(** Days in the year before the first day of month [m]. *)
Definition days_before_month (y m : Z) : Z :=
  days_before_month_aux y (Z.to_nat (m - 1)).

(** [datetime.date(y, m, d).toordinal()] *)
Definition ymd2ord (y m d : Z) : Z :=
  days_before_year y + days_before_month y m + d.

Definition eq_char (a : ascii) (c : ascii) : bool := Ascii.eqb c a.

(** Case-insensitive literal of the format (the pattern is compiled with
    [re.IGNORECASE]). *)
Definition eq_letter (a : ascii) (c : ascii) : bool :=
  Ascii.eqb (PyStr.lower_ascii c) (PyStr.lower_ascii a).

(** [time.strptime(s, '%Y-%m-%dT%H:%M:%S.%fZ')]; [None] stands for
    [ValueError]. Every group is followed by a literal that is neither a
    digit nor a space, so a group matches exactly the text up to that
    literal. The fraction is parsed and dropped, as [struct_time] has no
    field for it; a date that [datetime.date] rejects is a [ValueError]. *)
Definition strptime (s : string) : option struct_time :=
  '(fy, s) ← split_at (eq_char "-") s;
  '(fm, s) ← split_at (eq_char "-") s;
  '(fd, s) ← split_at (eq_letter "T") s;
  '(fH, s) ← split_at (eq_char ":") s;
  '(fM, s) ← split_at (eq_char ":") s;
  '(fS, s) ← split_at (eq_char ".") s;
  '(ff, s) ← split_at (eq_letter "Z") s;
  y ← field_year fy;
  m ← field 1 12 fm;
  d ← field_day fd;
  H ← field 0 23 fH;
  M ← field 0 59 fM;
  S ← field 0 61 fS;
  _ ← field_frac ff;
  if (String.eqb s "" && (1 <=? y) && (d <=? days_in_month y m))%bool
  then Some {| tm_year := y; tm_mon := m; tm_mday := d;
               tm_hour := H; tm_min := M; tm_sec := S |}
  else None.

(** [calendar.timegm]: seconds since the epoch of a UTC broken-down time. *)
Definition timegm (t : struct_time) : Z :=
  (ymd2ord (tm_year t) (tm_mon t) (tm_mday t) - 719163) * 86400
  + tm_hour t * 3600 + tm_min t * 60 + tm_sec t.

(** [time.mktime(t)] on a host whose local time is [utc_offset] seconds
    east of UTC the year round: [t] is read as local time. *)
Definition mktime (utc_offset : Z) (t : struct_time) : Z :=
  timegm t - utc_offset.

End PyTime.

(** ** [image_fetcher.py]: class [GoogleDriveSync] *)

Module Fetcher.

(** One [file_info] dict of a Drive listing. *)
Record DriveFile := {
  id : string;
  name : string;
  modifiedTime : string
}.

(** The Drive folder as one call sees it.  [files_list] is what
    [files().list(...).execute()] answers under the key ['files'], or
    [None] when the request raises; [get_media i] is the content that the
    chunked download of file [i] yields, or [None] when it raises. *)
Record Drive := {
  files_list : option (list DriveFile);
  get_media : string -> option string
}.

(** The host: its offset from UTC in seconds, which entries [unlink()]
    can remove, and the modification time a file written now gets. *)
Record Host := {
  utc_offset : Z;
  can_unlink : string -> bool;
  write_time : Q
}.

Inductive Request := ReqList | ReqGetMedia (file_id : string).

Inductive LogMsg :=
| ErrorNoService
| InfoStartingSync
| InfoFoundImages (n : nat)
| ErrorListing
| WarningNoImages
| InfoDownloaded (filename : string)
| ErrorDownloading (filename : string)
| InfoRemoved (filename : string)
| ErrorRemoving (filename : string)
| InfoSyncCompleted (ok total : nat).

(** The attributes of the object ([service], [supported_formats],
    [sync_interval], [last_sync]) together with what its methods act on:
    the entries of [image_directory], the requests sent to Drive and the
    log records, the oldest first. *)
Record Sync := {
  service : bool;                    (* [self.service] is not [None] *)
  supported_formats : list string;   (* lowercased by [__init__] *)
  sync_interval : Q;                 (* [config['google_drive']['sync_interval']] *)
  last_sync : Q;
  local_files : list File;
  requests : list Request;
  log : list LogMsg
}.

Definition logging (m : LogMsg) (s : Sync) : Sync :=
  {| service := service s; supported_formats := supported_formats s;
     sync_interval := sync_interval s; last_sync := last_sync s;
     local_files := local_files s; requests := requests s;
     log := log s ++ [m] |}.

Definition request (r : Request) (s : Sync) : Sync :=
  {| service := service s; supported_formats := supported_formats s;
     sync_interval := sync_interval s; last_sync := last_sync s;
     local_files := local_files s; requests := requests s ++ [r];
     log := log s |}.

Definition set_local_files (l : list File) (s : Sync) : Sync :=
  {| service := service s; supported_formats := supported_formats s;
     sync_interval := sync_interval s; last_sync := last_sync s;
     local_files := l; requests := requests s;
     log := log s |}.

Definition set_last_sync (t : Q) (s : Sync) : Sync :=
  {| service := service s; supported_formats := supported_formats s;
     sync_interval := sync_interval s; last_sync := t;
     local_files := local_files s; requests := requests s;
     log := log s |}.

(** [__init__]: the directory exists afterwards, [last_sync] is [0]. *)
Definition init (formats : list string) (interval : Q) (authenticated : bool)
    (files : list File) : Sync :=
  {| service := authenticated;
     supported_formats := List.map PyStr.lower formats;
     sync_interval := interval; last_sync := 0%Q;
     local_files := files; requests := []; log := [] |}.

(** [is_supported_image] *)
Definition is_supported_image (s : Sync) (filename : string) : bool :=
  existsb (PyStr.endswith (PyStr.lower filename)) (supported_formats s).

(** [list_folder_files] *)
Definition list_folder_files (drive : Drive) (s : Sync) : list DriveFile * Sync :=
  if service s then
    let s := request ReqList s in
    match files_list drive with
    | Some files =>
        let image_files := List.filter (fun f => is_supported_image s (name f)) files in
        (image_files, logging (InfoFoundImages (length image_files)) s)
    | None => ([], logging ErrorListing s)
    end
  else ([], s).

(** The entry called [filename] in the image directory, if any. *)
Definition lookup_file (filename : string) (l : list File) : option File :=
  List.find (fun f => String.eqb (fname f) filename) l.

(** [open(local_path, 'wb')] followed by [f.write(content)], when
    [local_path] is an entry of the directory itself and the write goes
    through: the entry is replaced in place or added; [None] when the
    name is taken by an entry that is not a regular file. A write that
    fails half way is not part of the embedding. *)
Fixpoint write_file (filename content : string) (t : Q) (l : list File)
  : option (list File) :=
  match l with
  | [] => Some [ {| fname := filename; is_file := true; mtime := t; data := content |} ]
  | f :: r =>
      if String.eqb (fname f) filename
      then if is_file f
           then Some ({| fname := filename; is_file := true; mtime := t;
                         data := content |} :: r)
           else None
      else match write_file filename content t r with
           | Some r' => Some (f :: r')
           | None => None
           end
  end.

(** [drive_mtime], or [None] when [strptime] raises. *)
Definition drive_mtime (host : Host) (file_info : DriveFile) : option Q :=
  match PyTime.strptime (modifiedTime file_info) with
  | Some t => Some (inject_Z (PyTime.mktime (utc_offset host) t))
  | None => None
  end.

(** The part of [download_file] after the skip test. *)
Definition fetch (drive : Drive) (host : Host) (file_info : DriveFile) (s : Sync)
  : bool * Sync :=
  let failed := (false, logging (ErrorDownloading (name file_info)) s) in
  if service s then
    let s := request (ReqGetMedia (id file_info)) s in
    let failed := (false, logging (ErrorDownloading (name file_info)) s) in
    match get_media drive (id file_info) with
    | None => failed
    | Some content =>
        match write_file (name file_info) content (write_time host) (local_files s) with
        | None => failed
        | Some l => (true, logging (InfoDownloaded (name file_info)) (set_local_files l s))
        end
    end
  else failed.

(** [download_file], for a record whose name is one path component, so
    that [self.image_directory / filename] is the entry of that name. *)
Definition download_file (drive : Drive) (host : Host) (file_info : DriveFile)
    (s : Sync) : bool * Sync :=
  match lookup_file (name file_info) (local_files s) with
  | Some f =>
      match drive_mtime host file_info with
      | None => (false, logging (ErrorDownloading (name file_info)) s)
      | Some t =>
          if Qle_bool t (mtime f) then (true, s)
          else fetch drive host file_info s
      end
  | None => fetch drive host file_info s
  end.

(** The loop of [cleanup_local_files] over the entries [iterdir()] gave. *)
Fixpoint cleanup_loop (host : Host) (drive_filenames : gset string)
    (todo : list File) (s : Sync) : Sync :=
  match todo with
  | [] => s
  | local_file :: rest =>
      let s :=
        if is_file local_file
           && is_supported_image s (fname local_file)
           && negb (bool_decide (fname local_file ∈ drive_filenames))
        then
          if can_unlink host (fname local_file)
          then logging (InfoRemoved (fname local_file))
                 (set_local_files
                    (List.filter (fun f => negb (String.eqb (fname f) (fname local_file)))
                                 (local_files s)) s)
          else logging (ErrorRemoving (fname local_file)) s
        else s in
      cleanup_loop host drive_filenames rest s
  end.

(** [cleanup_local_files] *)
Definition cleanup_local_files (host : Host) (drive_files : list DriveFile)
    (s : Sync) : Sync :=
  let drive_filenames : gset string := list_to_set (List.map name drive_files) in
  cleanup_loop host drive_filenames (local_files s) s.

(** The download loop of [sync]: the new [success_count] and state. *)
Fixpoint download_all (drive : Drive) (host : Host) (drive_files : list DriveFile)
    (success_count : nat) (s : Sync) : nat * Sync :=
  match drive_files with
  | [] => (success_count, s)
  | file_info :: rest =>
      let '(ok, s) := download_file drive host file_info s in
      download_all drive host rest (if ok then S success_count else success_count) s
  end.

(** [sync(force)]; [current_time] is what [time.time()] returns. *)
Definition sync (drive : Drive) (host : Host) (current_time : Q) (force : bool)
    (s : Sync) : bool * Sync :=
  if negb (service s) then (false, logging ErrorNoService s)
  else if negb force && negb (Qle_bool (sync_interval s) (current_time - last_sync s))
  then (true, s)
  else
    let s := logging InfoStartingSync s in
    let '(drive_files, s) := list_folder_files drive s in
    match drive_files with
    | [] => (false, logging WarningNoImages s)
    | _ :: _ =>
        let '(success_count, s) := download_all drive host drive_files 0 s in
        let s := cleanup_local_files host drive_files s in
        let s := set_last_sync current_time s in
        let s := logging (InfoSyncCompleted success_count (length drive_files)) s in
        (Nat.ltb 0 success_count, s)
    end.

(** [should_sync] *)
Definition should_sync (current_time : Q) (s : Sync) : bool :=
  service s && Qle_bool (sync_interval s) (current_time - last_sync s).

End Fetcher.

(** ** JSON values and Python dicts, as [json.load] gives them *)

Module Json.

#[warnings="-register-all"] Inductive value :=
| Null
| Bool (b : bool)
| Int (n : Z)
| Float (q : Q)
| Str (s : string)
| Array (l : list value)
| Object (o : list (string * value)).

(** A dict with string keys, in insertion order. *)
Definition dict := list (string * value).

(** [d.get(k)]: [None] when the key is missing. *)
Fixpoint get (k : string) (d : dict) : option value :=
  match d with
  | [] => None
  | (k', v) :: r => if String.eqb k' k then Some v else get k r
  end.

Definition keys (d : dict) : list string := List.map fst d.

(** [{**a, **b}]: the keys of [a] in their order, with the value [b]
    gives when it has the key, then the keys only [b] has. *)
Definition merge (a b : dict) : dict :=
  (List.map (fun kv => (fst kv, match get (fst kv) b with
                                | Some v => v
                                | None => snd kv
                                end)) a
   ++ List.filter (fun kv => negb (PyStr.mem (fst kv) (keys a))) b)%list.

(** [bool(v)] *)
Definition truthy (v : value) : bool :=
  match v with
  | Null => false
  | Bool b => b
  | Int n => negb (n =? 0)
  | Float q => negb (Qeq_bool q 0)
  | Str s => negb (String.eqb s "")
  | Array l => match l with [] => false | _ => true end
  | Object o => match o with [] => false | _ => true end
  end.

End Json.

(** What is at the path of a configuration file: nothing, text that is
    not JSON, or a JSON document. *)
Inductive ConfigFile :=
| Absent
| Invalid
| Content (v : Json.value).

(** ** [load_config] of [bulletin.py] and of [image_fetcher.py] *)

Module LoadConfig.

Definition formats_value : Json.value :=
  Json.Array [Json.Str ".jpg"; Json.Str ".jpeg"; Json.Str ".png";
              Json.Str ".gif"; Json.Str ".bmp"].

(** [default_config] of [DigitalBulletinBoard.load_config];
    [images_dir] is [os.path.join(os.path.dirname(__file__), 'images')]. *)
Definition board_default (images_dir : string) : Json.dict :=
  [("image_directory", Json.Str images_dir);
   ("display_duration", Json.Int 10);
   ("supported_formats", formats_value);
   ("shuffle_images", Json.Bool false);
   ("transition_enabled", Json.Bool true);
   ("background_color", Json.Array [Json.Int 0; Json.Int 0; Json.Int 0]);
   ("log_level", Json.Str "INFO");
   ("fullscreen", Json.Bool true);
   ("screen_width", Json.Int 1920);
   ("screen_height", Json.Int 1080)].

(** How [DigitalBulletinBoard.load_config] ends: with [self.config] set
    and the file as it is left, or with the [TypeError] of unpacking
    something that is not a mapping. *)
Inductive board_loaded :=
| Loaded (config : Json.dict) (file : ConfigFile)
| RaisedTypeError.

(** [DigitalBulletinBoard.load_config]; [save_config] dumps the dict to
    the file. *)
Definition board_load_config (images_dir : string) (file : ConfigFile) : board_loaded :=
  match file with
  | Content (Json.Object user_config) =>
      Loaded (Json.merge (board_default images_dir) user_config) file
  | Content _ => RaisedTypeError
  | Absent =>
      Loaded (board_default images_dir) (Content (Json.Object (board_default images_dir)))
  | Invalid => Loaded (board_default images_dir) Invalid
  end.

(** [default_config] of [load_config] in [image_fetcher.py]. *)
Definition fetcher_default : Json.dict :=
  [("image_directory", Json.Str "./images");
   ("google_drive",
    Json.Object [("enabled", Json.Bool true);
                 ("folder_id", Json.Str "");
                 ("service_account_file", Json.Str "");
                 ("sync_interval", Json.Int 300)]);
   ("supported_formats", formats_value)].

(** How [load_config] of [image_fetcher.py] ends: with a dict, with
    [None], or with the [TypeError] of the unpacking. *)
Inductive fetcher_loaded :=
| Returned (config : option Json.dict)
| FetcherTypeError.

Definition fetcher_load_config (file : ConfigFile) : fetcher_loaded :=
  match file with
  | Content (Json.Object user_config) =>
      Returned (Some (Json.merge fetcher_default user_config))
  | Content _ => FetcherTypeError
  | Absent => Returned None
  | Invalid => Returned None
  end.

(** [config['google_drive'][k]] on a loaded configuration: [None] stands
    for the [KeyError] (or [TypeError]) of a missing step. *)
Definition drive_setting (k : string) (config : Json.dict) : option Json.value :=
  match Json.get "google_drive" config with
  | Some (Json.Object g) => Json.get k g
  | _ => None
  end.

End LoadConfig.

(** ** [run.py]: class [BulletinRunner] and [main]

    The runner is embedded over a small state-and-exception monad. The
    state holds what the methods read and change outside the object (the
    [World]), the two attributes [setup_virtual_environment] assigns, the
    argument vectors given to [subprocess.run] and the lines printed, the
    oldest first. *)

Module Runner.

Inductive Exc :=
| CalledProcessError (returncode : Z)
| FileNotFoundError
| AttributeError
| JSONDecodeError
| TypeError
| OtherError
| KeyboardInterrupt.

(** [isinstance(e, Exception)]: [KeyboardInterrupt] is not one. *)
Definition is_Exception (e : Exc) : bool :=
  match e with KeyboardInterrupt => false | _ => true end.

(** What [str(e)] stands for in a printed line. *)
Definition describe (e : Exc) : string :=
  match e with
  | CalledProcessError _ => "CalledProcessError"
  | FileNotFoundError => "FileNotFoundError"
  | AttributeError => "AttributeError"
  | JSONDecodeError => "JSONDecodeError"
  | TypeError => "TypeError"
  | OtherError => "Exception"
  | KeyboardInterrupt => "KeyboardInterrupt"
  end.

(** How one [subprocess.run] ends: the child exits with a return code
    (and what it wrote to stderr), or the call itself raises. *)
Inductive Ran :=
| Finished (returncode : Z) (stderr : string)
| Broke (e : Exc).

Record World := {
  project_dir : string;             (* [str(Path(__file__).parent)] *)
  platform_system : string;         (* [platform.system()] *)
  cpuinfo : option string;          (* the text of /proc/cpuinfo, if the file exists *)
  venv_dir_exists : bool;
  venv_python_exists : bool;
  venv_create : option Exc;         (* the exception [venv.create] raises, if any *)
  requirements_exists : bool;
  config_json : ConfigFile;
  path_exists : string -> bool;     (* [Path(p).exists()] *)
  fetcher_script_exists : bool;
  bulletin_script_exists : bool;
  subprocess_run : nat -> list string -> Ran
    (* the outcome of the [n]-th call of [subprocess.run], on this argv *)
}.

Inductive Print :=
| Status (message : string)
| Success (message : string)
| Warning (message : string)
| Error (message : string)
| Plain (message : string).

Record State := {
  world : World;
  venv_python : option string;
  venv_pip : option string;
  commands : list (list string);
  output : list Print
}.

(** [BulletinRunner()] *)
Definition init (w : World) : State :=
  {| world := w; venv_python := None; venv_pip := None; commands := []; output := [] |}.

(** The outcome of a method: a value, an exception, or [sys.exit(code)]. *)
Inductive Res (A : Type) :=
| Val (a : A) (st : State)
| Raised (e : Exc) (st : State)
| Exit (code : Z) (st : State).
Arguments Val {A} a st.
Arguments Raised {A} e st.
Arguments Exit {A} code st.

Definition M (A : Type) := State -> Res A.

Definition ret {A} (a : A) : M A := fun st => Val a st.

Definition bind {A B} (m : M A) (k : A -> M B) : M B :=
  fun st => match m st with
            | Val a st' => k a st'
            | Raised e st' => Raised e st'
            | Exit c st' => Exit c st'
            end.

Notation "x <- m ;; k" := (bind m (fun x => k))
  (at level 100, m at next level, right associativity).
Notation "m ;;; k" := (bind m (fun _ => k))
  (at level 100, right associativity).

Definition raise {A} (e : Exc) : M A := fun st => Raised e st.

Definition sys_exit {A} (code : Z) : M A := fun st => Exit code st.

(** [try: m except ...]: [handler e] is the body of the first clause
    that matches [e], or [None] when no clause does. An exception raised
    by that body is not handled again. *)
Definition try_except {A} (m : M A) (handler : Exc -> option (M A)) : M A :=
  fun st => match m st with
            | Raised e st' =>
                match handler e with
                | Some h => h st'
                | None => Raised e st'
                end
            | r => r
            end.

(** The clause [except subprocess.CalledProcessError: h; raise]. *)
Definition on_called_process_error {A} (h : M unit) (e : Exc) : option (M A) :=
  match e with
  | CalledProcessError _ => Some (h ;;; raise e)
  | _ => None
  end.

Definition print (p : Print) : M unit :=
  fun st => Val tt {| world := world st; venv_python := venv_python st;
                      venv_pip := venv_pip st; commands := commands st;
                      output := output st ++ [p] |}.

Definition print_status (m : string) : M unit := print (Status m).
Definition print_success (m : string) : M unit := print (Success m).
Definition print_warning (m : string) : M unit := print (Warning m).
Definition print_error (m : string) : M unit := print (Error m).

Definition ask : M World := fun st => Val (world st) st.

Definition set_world (w : World) : M unit :=
  fun st => Val tt {| world := w; venv_python := venv_python st;
                      venv_pip := venv_pip st; commands := commands st;
                      output := output st |}.

(** Reading an attribute that may not have been assigned yet. *)
Definition attribute (a : State -> option string) : M string :=
  fun st => match a st with
            | Some v => Val v st
            | None => Raised AttributeError st
            end.

(** [sep.join(parts)] *)
Fixpoint join_with (sep : string) (parts : list string) : string :=
  match parts with
  | [] => ""
  | [p] => p
  | p :: rest => p ++ sep ++ join_with sep rest
  end.

(** [sub in s] *)
Fixpoint contains (sub s : string) : bool :=
  String.prefix sub s ||
  match s with
  | EmptyString => false
  | String _ r => contains sub r
  end.

(** [str(d / name)] with the separator of the platform. *)
Definition child (w : World) (d name : string) : string :=
  if String.eqb (platform_system w) "Windows" then d ++ "\" ++ name
  else PyPath.join d name.

Definition venv_dir (w : World) : string := child w (project_dir w) ".venv".
Definition requirements_file (w : World) : string := child w (project_dir w) "requirements.txt".
Definition fetcher_script (w : World) : string := child w (project_dir w) "image_fetcher.py".
Definition bulletin_script (w : World) : string := child w (project_dir w) "bulletin.py".

Definition venv_executable (w : World) (unix windows : string) : string :=
  if String.eqb (platform_system w) "Windows"
  then child w (child w (venv_dir w) "Scripts") windows
  else child w (child w (venv_dir w) "bin") unix.

(** [run_command(command, check)]: the return code of the child. A command
    given as one string is split on blanks by the method, so callers are
    written with the list. *)
Definition run_command (command : list string) (check : bool) : M Z :=
  fun st =>
    let st1 := {| world := world st; venv_python := venv_python st;
                  venv_pip := venv_pip st; commands := commands st ++ [command];
                  output := output st |} in
    match subprocess_run (world st) (length (commands st)) command with
    | Broke e => Raised e st1
    | Finished rc stderr =>
        if check && negb (rc =? 0)
        then (print_error ("Command failed: " ++ join_with " " command) ;;;
              print_error ("Error: " ++ stderr) ;;;
              raise (CalledProcessError rc)) st1
        else Val rc st1
    end.

(** [is_raspberry_pi] *)
Definition is_raspberry_pi (w : World) : bool :=
  match cpuinfo w with
  | Some text => contains "BCM" text || contains "Raspberry Pi" text
  | None => false
  end.

(** [is_first_run] *)
Definition is_first_run : M bool :=
  w <- ask ;; ret (negb (venv_dir_exists w)).

Definition import_check (w : World) : list string :=
  [venv_executable w "python" "python.exe"; "-c"; "import pygame, PIL, googleapiclient"].

(** [check_dependencies_installed]; its bare [except] takes everything. *)
Definition check_dependencies_installed : M bool :=
  w <- ask ;;
  if negb (venv_dir_exists w) then ret false
  else if negb (venv_python_exists w) then ret false
  else try_except
         (rc <- run_command (import_check w) false ;; ret (rc =? 0))
         (fun _ => Some (ret false)).

Definition not_linux (w : World) : bool :=
  negb (is_raspberry_pi w) && negb (String.eqb (platform_system w) "Linux").

(** [update_system] *)
Definition update_system : M unit :=
  w <- ask ;;
  if not_linux w
  then print_warning "System update only supported on Linux/Raspberry Pi"
  else
    print_status "Updating system packages..." ;;;
    try_except
      (run_command ["sudo"; "apt"; "update"] true ;;;
       run_command ["sudo"; "apt"; "upgrade"; "-y"] true ;;;
       print_success "System packages updated")
      (on_called_process_error (print_error "Failed to update system packages")).

Definition packages : list string :=
  ["python3"; "python3-pip"; "python3-venv"; "python3-dev";
   "libsdl2-dev"; "libsdl2-image-dev"; "libsdl2-mixer-dev"; "libsdl2-ttf-dev";
   "libjpeg-dev"; "zlib1g-dev"; "libfreetype6-dev"; "liblcms2-dev";
   "libwebp-dev"; "tcl8.6-dev"; "tk8.6-dev"; "python3-tk"].

(** [install_system_dependencies] *)
Definition install_system_dependencies : M unit :=
  w <- ask ;;
  if not_linux w
  then print_status "Skipping system dependencies (not on Linux)"
  else
    print_status "Installing system dependencies..." ;;;
    try_except
      (run_command ["sudo"; "apt"; "update"] true ;;;
       run_command (["sudo"; "apt"; "install"; "-y"] ++ packages)%list true ;;;
       print_success "System dependencies installed")
      (on_called_process_error (print_error "Failed to install system dependencies")).

(** [venv.create(self.venv_dir, with_pip=True)] *)
Definition create_venv : M unit :=
  fun st =>
    let w := world st in
    match venv_create w with
    | Some e => Raised e st
    | None =>
        set_world {| project_dir := project_dir w;
                     platform_system := platform_system w;
                     cpuinfo := cpuinfo w;
                     venv_dir_exists := true;
                     venv_python_exists := true;
                     venv_create := venv_create w;
                     requirements_exists := requirements_exists w;
                     config_json := config_json w;
                     path_exists := path_exists w;
                     fetcher_script_exists := fetcher_script_exists w;
                     bulletin_script_exists := bulletin_script_exists w;
                     subprocess_run := subprocess_run w |} st
    end.

Definition assign_venv_paths : M unit :=
  fun st =>
    Val tt {| world := world st;
              venv_python := Some (venv_executable (world st) "python" "python.exe");
              venv_pip := Some (venv_executable (world st) "pip" "pip.exe");
              commands := commands st; output := output st |}.

(** [setup_virtual_environment] *)
Definition setup_virtual_environment : M unit :=
  print_status "Setting up Python virtual environment..." ;;;
  w <- ask ;;
  (if negb (venv_dir_exists w)
   then print_status "Creating virtual environment..." ;;;
        create_venv ;;;
        print_success "Virtual environment created"
   else print_status "Virtual environment already exists") ;;;
  assign_venv_paths ;;;
  print_success "Virtual environment ready".

(** [install_python_dependencies(force_reinstall)] *)
Definition install_python_dependencies (force_reinstall : bool) : M unit :=
  print_status "Installing Python dependencies..." ;;;
  w <- ask ;;
  if negb (requirements_exists w)
  then print_error "requirements.txt not found!" ;;; raise FileNotFoundError
  else
    try_except
      (pip <- attribute venv_pip ;;
       run_command [pip; "install"; "--upgrade"; "pip"] true ;;;
       pip <- attribute venv_pip ;;
       run_command ([pip; "install"; "-r"; requirements_file w]
                    ++ if force_reinstall then ["--force-reinstall"] else [])%list true ;;;
       print_success "Python dependencies installed")
      (on_called_process_error (print_error "Failed to install Python dependencies")).

(** [config.get('google_drive', {}).get('enabled', False)], with the
    [AttributeError] of a value that has no [get]. *)
Definition drive_enabled (config : Json.value) : M Json.value :=
  match config with
  | Json.Object d =>
      match Json.get "google_drive" d with
      | None => ret (Json.Bool false)
      | Some (Json.Object g) =>
          ret (match Json.get "enabled" g with Some v => v | None => Json.Bool false end)
      | Some _ => raise AttributeError
      end
  | _ => raise AttributeError
  end.

(** [config['google_drive'].get('service_account_file', '')], once
    [drive_enabled] has gone through. *)
Definition service_account_file (config : Json.value) : Json.value :=
  match config with
  | Json.Object d =>
      match Json.get "google_drive" d with
      | Some (Json.Object g) =>
          match Json.get "service_account_file" g with
          | Some v => v
          | None => Json.Str ""
          end
      | _ => Json.Str ""
      end
  | _ => Json.Str ""
  end.

(** [with open(self.config_file) as f: config = json.load(f)] *)
Definition read_config : M Json.value :=
  w <- ask ;;
  match config_json w with
  | Absent => raise FileNotFoundError
  | Invalid => raise JSONDecodeError
  | Content v => ret v
  end.

(** [check_configuration] *)
Definition check_configuration : M unit :=
  print_status "Checking configuration..." ;;;
  w <- ask ;;
  match config_json w with
  | Absent =>
      print_error "config.json not found!" ;;;
      print_error "Please create config.json with your Google Drive settings" ;;;
      raise FileNotFoundError
  | _ =>
      try_except
        (config <- read_config ;;
         enabled <- drive_enabled config ;;
         (if Json.truthy enabled
          then match service_account_file config with
               | Json.Str file =>
                   if negb (path_exists w file)
                   then print_warning
                          ("Google Drive service account file not found: " ++ file) ;;;
                        print_warning "Google Drive sync will be disabled"
                   else print_success "Google Drive configuration looks good"
               | _ => raise TypeError
               end
          else print_status "Google Drive sync is disabled in config") ;;;
         print_success "Configuration validated")
        (fun e =>
           match e with
           | JSONDecodeError =>
               Some (print_error ("Invalid JSON in config.json: " ++ describe e) ;;;
                     raise e)
           | KeyboardInterrupt => None
           | _ => Some (print_error ("Error reading config.json: " ++ describe e) ;;;
                        raise e)
           end)
  end.

(** [run_image_fetcher] *)
Definition run_image_fetcher : M unit :=
  print_status "Running image fetcher to sync images..." ;;;
  w <- ask ;;
  if negb (fetcher_script_exists w)
  then print_error "image_fetcher.py not found!" ;;; raise FileNotFoundError
  else
    try_except
      (config <- read_config ;;
       enabled <- drive_enabled config ;;
       if Json.truthy enabled
       then python <- attribute venv_python ;;
            rc <- run_command [python; fetcher_script w] false ;;
            if rc =? 0
            then print_success "Image sync completed successfully"
            else print_warning "Image sync failed, but continuing with existing images"
       else print_status "Google Drive sync not configured, skipping image fetch")
      (fun e =>
         if is_Exception e
         then Some (print_warning ("Image fetcher failed: " ++ describe e) ;;;
                    print_warning "Continuing with existing images")
         else None).

(** [run_bulletin_board] *)
Definition run_bulletin_board : M unit :=
  print_status "Starting Digital Bulletin Board..." ;;;
  print_status "Press ESC or Q to quit, SPACE for next image, R to rescan" ;;;
  print_status "Use LEFT/RIGHT arrows to navigate manually" ;;;
  w <- ask ;;
  if negb (bulletin_script_exists w)
  then print_error "bulletin.py not found!" ;;; raise FileNotFoundError
  else
    try_except
      (python <- attribute venv_python ;;
       run_command [python; bulletin_script w] true ;;;
       print_success "Digital Bulletin Board session completed")
      (fun e =>
         match e with
         | CalledProcessError rc =>
             Some (if negb (rc =? 0)
                   then print_error "Bulletin board application failed" ;;; raise e
                   else ret tt)
         | KeyboardInterrupt => Some (print_status "Bulletin board interrupted by user")
         | _ => None
         end).

(** [run(setup, update_system, force_deps)] *)
Definition run (setup update force_deps : bool) : M unit :=
  print_status "Starting Digital Bulletin Board" ;;;
  print_status "==================================================" ;;;
  try_except
    (first_run <- is_first_run ;;
     deps_installed <- check_dependencies_installed ;;
     (if first_run && negb setup
      then print_error "First run detected! Dependencies need to be installed." ;;;
           print_error "Please run: python3 run.py --setup" ;;;
           sys_exit 1
      else ret tt) ;;;
     (if negb deps_installed && negb setup
      then print_error "Python dependencies not found in virtual environment!" ;;;
           print_error "Please run: python3 run.py --setup" ;;;
           sys_exit 1
      else ret tt) ;;;
     (if setup
      then print_status "Setup mode - installing dependencies" ;;;
           (if update then update_system else ret tt) ;;;
           install_system_dependencies ;;;
           install_python_dependencies force_deps
      else ret tt) ;;;
     setup_virtual_environment ;;;
     check_configuration ;;;
     run_image_fetcher ;;;
     run_bulletin_board)
    (fun e =>
       match e with
       | KeyboardInterrupt =>
           Some (print_status "Operation interrupted by user" ;;; sys_exit 1)
       | _ => Some (print_error ("Failed to run bulletin board: " ++ describe e) ;;;
                    sys_exit 1)
       end).

(** The namespace of the three [store_true] flags. *)
Record Args := { setup : bool; update_system_flag : bool; force_deps : bool }.

(** How [parser.parse_args()] ends on the command line: it returns the
    namespace, or it leaves through [sys.exit] inside [argparse]: with
    status 0 after printing the help text ([-h], [--help]) or the version
    line ([--version]), with status 2 after a usage error, whose message
    goes to stderr. Which command line gives which is [argparse]'s
    matter. *)
Inductive Parsed :=
| Namespace (args : Args)
| Help (text : string)
| Version
| UsageError.

(** [main]; [parsed] is what [parser.parse_args()] does, [version] is
    [sys.version_info[:2]]. *)
Definition main (parsed : Parsed) (version : nat * nat) : M unit :=
  match parsed with
  | Help text => print (Plain text) ;;; sys_exit 0
  | Version => print (Plain "Digital Bulletin Board Runner 1.0") ;;; sys_exit 0
  | UsageError => sys_exit 2
  | Namespace args =>
      if (update_system_flag args || force_deps args) && negb (setup args)
      then print (Plain "Error: --update-system and --force-deps require --setup flag") ;;;
           sys_exit 1
      else if (fst version <? 3)%nat || ((fst version =? 3)%nat && (snd version <? 7)%nat)
      then print (Plain "Error: Python 3.7 or higher is required") ;;; sys_exit 1
      else run (setup args) (update_system_flag args) (force_deps args)
  end.

End Runner.

(** * Vocabulary of the statements *)

(** Files only, each with an extension of the configured set (the
    comparison ignores case on both sides). *)
Definition only_supported (c : Bulletin.Config) (es : list File) : Prop :=
  Forall (fun f => is_file f = true /\
                   In (PyStr.lower (PyPath.suffix (fname f)))
                      (List.map PyStr.lower (Bulletin.supported_formats c))) es.

Definition paths_of (c : Bulletin.Config) (es : list File) : list string :=
  List.map (fun f => PyPath.join (Bulletin.image_directory c) (fname f)) es.

(** [RotatorState]'s bound on the index. *)
Definition index_in_range (b : Bulletin.Board) : Prop :=
  0 <= Bulletin.current_image_index b < Z.of_nat (length (Bulletin.image_list b)).

(** [display_current_image] once the entry is known: log, load, draw. *)
Definition render (pil : Z -> Z -> string -> option Display.Surface)
    (path : string) (b : Bulletin.Board) : Bulletin.Board :=
  let r := Bulletin.load_and_scale_image pil path
             (Bulletin.logging (Bulletin.InfoDisplaying path) b) in
  Bulletin.display_image r.1 r.2.

(** The state an outcome carries, whether a value or an exception. *)
Definition state_of {S A} (o : outcome S A) : S :=
  match o with Ok _ st => st | Raise _ st => st end.

(** Where [display_image] puts a surface: its rectangle moved so that its
    centre is the centre of the screen. *)
Definition centered_rect (s scr : Display.Surface) : Display.Rect :=
  Display.set_center (Display.get_rect s) (Display.center (Display.get_rect scr)).

(** The frame that shows [surf] centred over the background [bg]; with no
    surface, the background alone. *)
Definition centered_frame (bg : Display.Color) (surf : option Display.Surface)
    (scr : Display.Surface) (x y : Z) : Display.Color :=
  match surf with
  | None => bg
  | Some s =>
      let r := centered_rect s scr in
      if Display.inside r x y
      then Display.pixel s (x - Display.left r) (y - Display.top r)
      else bg
  end.

(** The drawing calls of one render: clear, draw the surface if there is
    one, then a single flip. *)
Definition render_calls (bg : Display.Color) (surf : option Display.Surface)
    (scr : Display.Surface) : list Display.Call :=
  (Display.CFill bg ::
   match surf with
   | Some s => [Display.CBlit s (centered_rect s scr)]
   | None => []
   end ++ [Display.CFlip])%list.

(** [render(surface|null)] as the specification words it: whatever the
    argument, the frame is cleared, the surface (if any) drawn centred, and
    the result shown by one flip. *)
Definition render_as_specified (surf : option Display.Surface) (b : Bulletin.Board)
  : Prop :=
  let bg := Bulletin.background_color (Bulletin.config b) in
  let scr := Display.screen (Bulletin.display b) in
  let d' := Bulletin.display (Bulletin.display_image surf b) in
  Display.calls d' = (Display.calls (Bulletin.display b) ++ render_calls bg surf scr)%list /\
  Display.flips d' = S (Display.flips (Bulletin.display b)) /\
  forall x y, Display.visible d' x y = centered_frame bg surf scr x y.

(** The rescan key as the specification words it: the index is 0
    afterwards, and within the bounds of a non-empty list. *)
Definition rescan_as_specified (pil : Z -> Z -> string -> option Display.Surface)
    (dir : DirState) (now : Q) (b : Bulletin.Board) : Prop :=
  let b' := state_of (Bulletin.handle_events pil dir now
                        [Bulletin.KEYDOWN Bulletin.K_r] b) in
  Bulletin.current_image_index b' = 0 /\
  (Bulletin.image_list b' <> [] -> index_in_range b').

(** *** Sample data for the concrete checks *)

Definition sample_config (shuffle : bool) : Bulletin.Config :=
  {| Bulletin.image_directory := "images";
     Bulletin.display_duration := 10;
     Bulletin.supported_formats := [".jpg"; ".jpeg"; ".png"; ".gif"; ".bmp"];
     Bulletin.shuffle_images := shuffle;
     Bulletin.background_color := (0, 0, 0) |}.

Definition plain (w h : Z) (c : Display.Color) : Display.Surface :=
  {| Display.width := w; Display.height := h; Display.pixel := fun _ _ => c |}.

(** An 8 by 6 display that shows white and whose surface is white. *)
Definition sample_display : Display.Screen :=
  {| Display.screen := plain 8 6 (255, 255, 255);
     Display.visible := fun _ _ => (255, 255, 255);
     Display.calls := [] |}.

Definition sample_rng : Bulletin.Rng :=
  {| Bulletin.draws := fun k => (7 * k + 3)%nat; Bulletin.pos := 0 |}.

Definition regular (n : string) (t : Q) (content : string) : File :=
  {| fname := n; is_file := true; mtime := t; data := content |}.

Definition sample_board (shuffle : bool) : Bulletin.Board :=
  Bulletin.init (sample_config shuffle) 8 6 sample_display sample_rng 0.

(** A loader that fails on one path and yields a 4 by 2 red surface for
    every other. *)
Definition sample_pil (w h : Z) (path : string) : option Display.Surface :=
  if String.eqb path "images/broken.png" then None
  else Some (plain 4 2 (200, 0, 0)).

Definition three_images : DirState :=
  Present [regular "a.png" 0 "a"; regular "B.JPG" 0 "b"; regular "c.gif" 0 "c"].

Definition one_image : DirState := Present [regular "a.png" 0 "a"].

(** The board once [run] has scanned [three_images] and shown the first. *)
Definition started_board : Bulletin.Board :=
  state_of (Bulletin.run_start sample_pil three_images (sample_board false)).

(** *** The synchroniser *)

(** The entries of a directory have distinct names. *)
Definition distinct_names (l : list File) : Prop := NoDup (List.map fname l).

(** The local entries that [pruneLocal] is to delete: regular files with a
    supported extension whose name no remote record carries. *)
Definition doomed (s : Fetcher.Sync) (drive_files : list Fetcher.DriveFile)
    (f : File) : bool :=
  is_file f && Fetcher.is_supported_image s (fname f)
  && negb (PyStr.mem (fname f) (List.map Fetcher.name drive_files)).

(** The log record of one attempted deletion. *)
Definition removal_record (host : Fetcher.Host) (f : File) : Fetcher.LogMsg :=
  if Fetcher.can_unlink host (fname f)
  then Fetcher.InfoRemoved (fname f)
  else Fetcher.ErrorRemoving (fname f).

(** What [list_folder_files] returns. *)
Definition listing (drive : Fetcher.Drive) (s : Fetcher.Sync) : list Fetcher.DriveFile :=
  (Fetcher.list_folder_files drive s).1.

Definition is_list_request (r : Fetcher.Request) : bool :=
  match r with Fetcher.ReqList => true | _ => false end.

(** The number of listing requests among [l]. *)
Definition count_listings (l : list Fetcher.Request) : nat :=
  length (List.filter is_list_request l).

(** Two unforced calls of [sync] less than the interval apart, as the
    specification words them: one listing at most, and the second call
    returns [True] without touching anything. *)
Definition rate_limit_as_specified (drive : Fetcher.Drive) (host : Fetcher.Host)
    (t1 t2 : Q) (s : Fetcher.Sync) : Prop :=
  let r1 := Fetcher.sync drive host t1 false s in
  let r2 := Fetcher.sync drive host t2 false r1.2 in
  (count_listings (Fetcher.requests r2.2) <= S (count_listings (Fetcher.requests s)))%nat /\
  r2 = (true, r1.2).

Definition default_formats : list string := [".jpg"; ".jpeg"; ".png"; ".gif"; ".bmp"].

(** A host five hours west of UTC, and one on UTC. *)
Definition west_host : Fetcher.Host :=
  {| Fetcher.utc_offset := -18000; Fetcher.can_unlink := fun _ => true;
     Fetcher.write_time := 1709300000 |}.

Definition utc_host : Fetcher.Host :=
  {| Fetcher.utc_offset := 0; Fetcher.can_unlink := fun _ => true;
     Fetcher.write_time := 1709300000 |}.

(** A remote record modified on 1 March 2024 at 12:00:00 UTC, which is
    1709294400 seconds after the epoch, and a local copy written 50
    seconds later. *)
Definition remote_A : Fetcher.DriveFile :=
  {| Fetcher.id := "id-A"; Fetcher.name := "A.png";
     Fetcher.modifiedTime := "2024-03-01T12:00:00.000Z" |}.

Definition local_A : File := regular "A.png" 1709294450 "old bytes".

Definition local_B : File := regular "B.png" 1709294450 "other bytes".

Definition drive_A : Fetcher.Drive :=
  {| Fetcher.files_list := Some [remote_A];
     Fetcher.get_media := fun _ => Some "new bytes" |}.

Definition empty_drive : Fetcher.Drive :=
  {| Fetcher.files_list := Some []; Fetcher.get_media := fun _ => None |}.

Definition sync_A : Fetcher.Sync := Fetcher.init default_formats 300 true [local_A].

Definition sync_AB : Fetcher.Sync :=
  Fetcher.init default_formats 300 true [local_A; local_B].

(** The record of the specification's example, modified 100 seconds after
    the epoch, and a local copy with modification time 150. *)
Definition remote_100 : Fetcher.DriveFile :=
  {| Fetcher.id := "id-A"; Fetcher.name := "A.png";
     Fetcher.modifiedTime := "1970-01-01T00:01:40.000Z" |}.

Definition sync_150 : Fetcher.Sync :=
  Fetcher.init default_formats 300 true [regular "A.png" 150 "old bytes"].

(** The fields of the object that no download, listing or deletion
    assigns. *)
Definition same_settings (s s' : Fetcher.Sync) : Prop :=
  Fetcher.service s' = Fetcher.service s /\
  Fetcher.supported_formats s' = Fetcher.supported_formats s /\
  Fetcher.sync_interval s' = Fetcher.sync_interval s /\
  Fetcher.last_sync s' = Fetcher.last_sync s.

(** *** More vocabulary for the rotator *)

(** The displacement one event asks for: forward for space and right
    arrow, back for left arrow. *)
Definition step_of (e : Bulletin.Event) : Z :=
  match e with
  | Bulletin.KEYDOWN Bulletin.K_SPACE | Bulletin.KEYDOWN Bulletin.K_RIGHT => 1
  | Bulletin.KEYDOWN Bulletin.K_LEFT => -1
  | _ => 0
  end.

Definition net_steps (events : list Bulletin.Event) : Z :=
  fold_right (fun e acc => step_of e + acc) 0 events.

(** The events on which [handle_events] returns [False]. *)
Definition is_quit (e : Bulletin.Event) : bool :=
  match e with
  | Bulletin.QUIT | Bulletin.KEYDOWN Bulletin.K_ESCAPE
  | Bulletin.KEYDOWN Bulletin.K_q => true
  | _ => false
  end.

Definition is_rescan (e : Bulletin.Event) : bool :=
  match e with Bulletin.KEYDOWN Bulletin.K_r => true | _ => false end.

(** Events that neither quit nor rescan. *)
Definition stays (e : Bulletin.Event) : bool := negb (is_quit e) && negb (is_rescan e).

(** Events that [handle_events] has no branch for. *)
Definition is_ignored (e : Bulletin.Event) : bool :=
  match e with
  | Bulletin.OtherEvent | Bulletin.KEYDOWN Bulletin.K_other => true
  | _ => false
  end.

(** The entry that passes the filter of [scan_images]. *)
Definition accepted (c : Bulletin.Config) (f : File) : Prop :=
  is_file f = true /\
  In (PyStr.lower (PyPath.suffix (fname f)))
     (List.map PyStr.lower (Bulletin.supported_formats c)).

(** A board with a loader that fails on every path. *)
Definition no_pil (w h : Z) (path : string) : option Display.Surface := None.

(** The sample board after a rescan of an emptied directory. *)
Definition emptied_board : Bulletin.Board :=
  state_of (Bulletin.handle_events sample_pil (Present []) 1
              [Bulletin.KEYDOWN Bulletin.K_r] started_board).

Definition broken_dir : DirState :=
  Present [regular "a.png" 0 "a"; regular "broken.png" 0 "b"].

(** *** More vocabulary for the synchroniser *)

(** Whether some character of [s] satisfies [p]. *)
Fixpoint has_char (p : ascii -> bool) (s : string) : bool :=
  match s with
  | EmptyString => false
  | String c r => p c || has_char p r
  end.

(** [s.isascii()] *)
Definition isascii (s : string) : bool :=
  negb (has_char (fun c => (127 <? nat_of_ascii c)%nat) s).

(** A name that [image_directory / name] makes an entry of the directory
    itself: one path component, which is not empty, not [.] or [..], and
    holds neither a slash nor a NUL. For these names the entries of the
    embedding are the paths the code acts on; Drive allows others. *)
Definition child_name (n : string) : bool :=
  negb (String.eqb n "") && negb (String.eqb n ".") && negb (String.eqb n "..")
  && negb (has_char (PyTime.eq_char "/") n)
  && negb (has_char (PyTime.eq_char Ascii.zero) n).

(** The names of a remote listing. *)
Definition remote_names (l : list Fetcher.DriveFile) : list string :=
  List.map Fetcher.name l.

(** A record whose timestamp has no fraction, as RFC 3339 allows. *)
Definition remote_plain : Fetcher.DriveFile :=
  {| Fetcher.id := "id-A"; Fetcher.name := "A.png";
     Fetcher.modifiedTime := "2024-03-01T12:00:00Z" |}.

(** A host one hour east of UTC. *)
Definition east_host : Fetcher.Host :=
  {| Fetcher.utc_offset := 3600; Fetcher.can_unlink := fun _ => true;
     Fetcher.write_time := 1709300000 |}.

(** A directory with an image, a text file and a sub-directory. *)
Definition mixed_files : list File :=
  [local_B; regular "notes.txt" 5 "n";
   {| fname := "archive"; is_file := false; mtime := 7; data := "" |}].

Definition sync_mixed : Fetcher.Sync := Fetcher.init default_formats 300 true mixed_files.

(** The three ways [download_file] can end. *)
Inductive download_case (drive : Fetcher.Drive) (host : Fetcher.Host)
    (fi : Fetcher.DriveFile) (s : Fetcher.Sync) : bool -> Fetcher.Sync -> Prop :=
| Skipped f t :
    Fetcher.lookup_file (Fetcher.name fi) (Fetcher.local_files s) = Some f ->
    Fetcher.drive_mtime host fi = Some t ->
    (t <= mtime f)%Q ->
    download_case drive host fi s true s
| Failed s' :
    Fetcher.local_files s' = Fetcher.local_files s ->
    length (Fetcher.log s') = S (length (Fetcher.log s)) ->
    download_case drive host fi s false s'
| Fetched c l s' :
    Fetcher.service s = true ->
    Fetcher.get_media drive (Fetcher.id fi) = Some c ->
    Fetcher.write_file (Fetcher.name fi) c (Fetcher.write_time host)
      (Fetcher.local_files s) = Some l ->
    Fetcher.local_files s' = l ->
    Fetcher.requests s'
    = (Fetcher.requests s ++ [Fetcher.ReqGetMedia (Fetcher.id fi)])%list ->
    (forall f t, Fetcher.lookup_file (Fetcher.name fi) (Fetcher.local_files s) = Some f ->
                 Fetcher.drive_mtime host fi = Some t -> ~ (t <= mtime f)%Q) ->
    download_case drive host fi s true s'.

(** *** Vocabulary for the arithmetic of [float]

    [N / D] lies in [[m, m + 1)], at the place the location says. *)
Definition inbetween (m : Z) (l : location) (N D : Z) : Prop :=
  match l with
  | loc_Exact => N = m * D
  | loc_Inexact Lt => m * D < N /\ 2 * N < (2 * m + 1) * D
  | loc_Inexact Eq => 2 * N = (2 * m + 1) * D
  | loc_Inexact Gt => (2 * m + 1) * D < 2 * N /\ N < (m + 1) * D
  end.

(** The relative error of one rounding, [2 ^ -53]. *)
Definition roundoff : Q := 1 # (2 ^ 53).

(** [v] is [x] rounded once. *)
Definition rounded (v x : Q) : Prop :=
  (x * (1 - roundoff) <= v <= x * (1 + roundoff))%Q.

(** A positive float with a 53-digit mantissa and an exponent between
    [lo] and [hi]. *)
Definition normal (x : spec_float) (lo hi : Z) : Prop :=
  exists (m : positive) (e : Z),
    x = S754_finite false m e /\ 2 ^ 52 <= Zpos m < 2 ^ 53 /\ lo <= e <= hi.

(** The factor [min(screenW / imgW, screenH / imgH)] in exact
    arithmetic. *)
Definition exact_scale (b : Bulletin.Board) (img_width img_height : Z) : Q :=
  Qmin (inject_Z (Bulletin.screen_width b) / inject_Z img_width)
       (inject_Z (Bulletin.screen_height b) / inject_Z img_height).

(** A board on a 1920 by 1080 display. *)
Definition hd_board : Bulletin.Board :=
  Bulletin.init (sample_config false) 1920 1080
    {| Display.screen := plain 1920 1080 (0, 0, 0);
       Display.visible := fun _ _ => (0, 0, 0);
       Display.calls := [] |}
    sample_rng 0.

(** *** Vocabulary for the runner *)

(** The state an outcome of the runner carries. *)
Definition final_state {A} (r : Runner.Res A) : Runner.State :=
  match r with
  | Runner.Val _ st => st
  | Runner.Raised _ st => st
  | Runner.Exit _ st => st
  end.

(** Commands that neither install Python packages nor start one of the
    two scripts: the [apt] calls and the import check. *)
Definition harmless (w : Runner.World) (c : list string) : Prop :=
  hd "" c = "sudo" \/ c = Runner.import_check w.

(** From [st0] to [st] nothing happened but printing and harmless
    commands: the world is the same (no environment was created) and the
    two attributes are as they were. *)
Definition quiet (st0 st : Runner.State) : Prop :=
  Runner.world st = Runner.world st0 /\
  Runner.venv_python st = Runner.venv_python st0 /\
  Runner.venv_pip st = Runner.venv_pip st0 /\
  exists extra,
    Runner.commands st = (Runner.commands st0 ++ extra)%list /\
    Forall (harmless (Runner.world st0)) extra.

(** What a method may do when started in a state that is quiet since
    [st0]: stay quiet, exit with status 1 only, return only if
    [may_return], raise only if [may_raise]. *)
Definition contained {A} (st0 : Runner.State) (may_return may_raise : bool)
    (m : Runner.M A) : Prop :=
  forall st,
    quiet st0 st ->
    match m st with
    | Runner.Val _ st' => may_return = true /\ quiet st0 st'
    | Runner.Raised _ st' => may_raise = true /\ quiet st0 st'
    | Runner.Exit c st' => c = 1 /\ quiet st0 st'
    end.

(** The status with which [main] must leave when it cannot start the
    board: the one [argparse] exits with, or 1. *)
Definition refusal (parsed : Runner.Parsed) : Z :=
  match parsed with
  | Runner.Namespace _ => 1
  | Runner.Help _ | Runner.Version => 0
  | Runner.UsageError => 2
  end.

(** A sample machine: Linux, nothing installed yet. *)
Definition fresh_world : Runner.World :=
  {| Runner.project_dir := "/home/pi/digi_bulletin";
     Runner.platform_system := "Linux";
     Runner.cpuinfo := Some "Hardware : BCM2835";
     Runner.venv_dir_exists := false;
     Runner.venv_python_exists := false;
     Runner.venv_create := None;
     Runner.requirements_exists := true;
     Runner.config_json := Content (Json.Object [("display_duration", Json.Int 5)]);
     Runner.path_exists := fun _ => false;
     Runner.fetcher_script_exists := true;
     Runner.bulletin_script_exists := true;
     Runner.subprocess_run := fun _ _ => Runner.Finished 0 "" |}.

(** The same machine once the environment and the packages are there:
    the import check passes, the board exits with [board_status], any
    other command (the fetcher) exits with status 1, and no credentials
    file exists. *)
Definition ready_world (config : Json.value) (board_status : Z) : Runner.World :=
  {| Runner.project_dir := "/home/pi/digi_bulletin";
     Runner.platform_system := "Linux";
     Runner.cpuinfo := Some "Hardware : BCM2835";
     Runner.venv_dir_exists := true;
     Runner.venv_python_exists := true;
     Runner.venv_create := None;
     Runner.requirements_exists := true;
     Runner.config_json := Content config;
     Runner.path_exists := fun _ => false;
     Runner.fetcher_script_exists := true;
     Runner.bulletin_script_exists := true;
     Runner.subprocess_run :=
       fun n c => match n with
                  | O => Runner.Finished 0 ""
                  | _ => if String.eqb (nth 1 c "") "/home/pi/digi_bulletin/bulletin.py"
                         then Runner.Finished board_status ""
                         else Runner.Finished 1 "no credentials"
                  end |}.

(** A configuration that enables the sync and names a credentials file. *)
Definition sync_enabled_config : Json.value :=
  Json.Object [("google_drive",
                Json.Object [("enabled", Json.Bool true);
                             ("service_account_file", Json.Str "key.json")])].

(** What a step leaves alone or only extends. *)
Definition grows (st st' : Runner.State) (extra : list (list string)) : Prop :=
  Runner.world st' = Runner.world st /\
  Runner.venv_python st' = Runner.venv_python st /\
  Runner.venv_pip st' = Runner.venv_pip st /\
  Runner.commands st' = (Runner.commands st ++ extra)%list.

(** * Properties *)

(** Concrete runs: split the conjunctions and evaluate each equation. *)
Ltac evaluate :=
  intros;
  repeat match goal with |- _ /\ _ => split end;
  try (vm_compute; reflexivity).

(** ** Strings and lists *)

Lemma mem_In x l : PyStr.mem x l = true <-> In x l.
Proof.
  unfold PyStr.mem. rewrite existsb_exists. split.
  - intros [y [Hy He]]. apply String.eqb_eq in He. now subst.
  - intros H. exists x. split; [assumption | apply String.eqb_refl].
Qed.

Lemma filter_all {A} (p : A -> bool) (l : list A) :
  Forall (fun a => p a = true) l -> List.filter p l = l.
Proof.
  induction 1 as [|a l Ha _ IH]; simpl; [reflexivity|].
  now rewrite Ha, IH.
Qed.

(** Exchanging two cells of a list permutes it. *)
Lemma swap_Permutation {A} (x : list A) (i j : nat) :
  Bulletin.swap x i j ≡ₚ x.
Proof.
  unfold Bulletin.swap.
  destruct (x !! i) as [a|] eqn:Hi; [|reflexivity].
  destruct (x !! j) as [b|] eqn:Hj; [|reflexivity].
  destruct (decide (i = j)) as [->|Hne].
  - rewrite list_insert_insert_eq, list_insert_id; [reflexivity|].
    congruence.
  - apply Permutation_inj. split.
    + now rewrite !length_insert.
    + exists (fun n => if decide (n = i) then j else if decide (n = j) then i else n).
      split.
      * intros n m. repeat case_decide; congruence.
      * intros n. repeat case_decide; subst.
        -- rewrite list_lookup_insert_ne by congruence.
           rewrite list_lookup_insert_eq; [congruence|].
           now apply lookup_lt_Some in Hi.
        -- rewrite list_lookup_insert_eq; [congruence|].
           rewrite length_insert. now apply lookup_lt_Some in Hj.
        -- now rewrite !list_lookup_insert_ne by congruence.
Qed.

Lemma shuffle_from_Permutation {A} (i : nat) (r : Bulletin.Rng) (x : list A) :
  (Bulletin.shuffle_from i r x).1 ≡ₚ x.
Proof.
  revert r x. induction i as [|i IH]; intros r x; simpl; [reflexivity|].
  rewrite IH. apply swap_Permutation.
Qed.

Lemma shuffle_Permutation {A} (r : Bulletin.Rng) (x : list A) :
  (Bulletin.shuffle r x).1 ≡ₚ x.
Proof. apply shuffle_from_Permutation. Qed.

(** ** The rotator: scanning *)

(** An extension listed in the configuration as it is spelt passes the
    case-insensitive comparison. *)
Lemma listed_suffix_supported (c : Bulletin.Config) (f : File) :
  In (PyPath.suffix (fname f)) (Bulletin.supported_formats c) ->
  In (PyStr.lower (PyPath.suffix (fname f)))
     (List.map PyStr.lower (Bulletin.supported_formats c)).
Proof. apply in_map. Qed.

Lemma collect_only_supported (c : Bulletin.Config) (es : list File) :
  only_supported c es ->
  Bulletin.collect (Bulletin.image_directory c)
    (List.map PyStr.lower (Bulletin.supported_formats c)) es = paths_of c es.
Proof.
  intros H. unfold Bulletin.collect, paths_of. f_equal.
  apply filter_all. eapply Forall_impl; [exact H|].
  intros f [Hf Hs]. unfold Bulletin.is_supported.
  rewrite Hf. simpl. now apply mem_In.
Qed.

(** What [scan_images] leaves in [image_list] and returns, for a listed
    directory. *)
Lemma scan_entries_spec (es : list File) (b : Bulletin.Board) :
  let found := Bulletin.collect (Bulletin.image_directory (Bulletin.config b))
                 (List.map PyStr.lower (Bulletin.supported_formats (Bulletin.config b))) es in
  let r := Bulletin.scan_entries es b in
  Bulletin.config r.2 = Bulletin.config b /\
  Bulletin.current_image_index r.2 = Bulletin.current_image_index b /\
  Bulletin.last_update_time r.2 = Bulletin.last_update_time b /\
  Bulletin.display r.2 = Bulletin.display b /\
  r.1 = negb (bool_decide (found = [])) /\
  Bulletin.image_list r.2 ≡ₚ found /\
  (Bulletin.shuffle_images (Bulletin.config b) = false -> Bulletin.image_list r.2 = found).
Proof.
  intros found r. subst r. unfold Bulletin.scan_entries. fold found.
  destruct found as [|p ps] eqn:Hf; simpl.
  - repeat split; reflexivity.
  - destruct (Bulletin.shuffle_images (Bulletin.config b)) eqn:Hs; simpl.
    + pose proof (shuffle_Permutation (Bulletin.rng b) (p :: ps)) as HP.
      destruct (Bulletin.shuffle (Bulletin.rng b) (p :: ps)) as [l r'].
      simpl in *. repeat split; try reflexivity; [exact HP | discriminate].
    + repeat split; reflexivity.
Qed.

(** C5. For a non-empty directory that holds only files with a supported
    extension, [scan_images] succeeds and [image_list] holds exactly the
    paths of those files: in directory order when [shuffle_images] is
    off, and as a permutation of that order (nothing lost, nothing
    repeated) when it is on. *)
Theorem scan_images_exact (es : list File) (b : Bulletin.Board) :
  es <> [] ->
  only_supported (Bulletin.config b) es ->
  let r := Bulletin.scan_images (Present es) b in
  r.1 = true /\
  Bulletin.image_list r.2 ≡ₚ paths_of (Bulletin.config b) es /\
  (Bulletin.shuffle_images (Bulletin.config b) = false ->
   Bulletin.image_list r.2 = paths_of (Bulletin.config b) es).
Proof.
  intros Hne Hs r. subst r. simpl.
  destruct (scan_entries_spec es b) as (_ & _ & _ & _ & Hr & HP & He).
  rewrite (collect_only_supported _ _ Hs) in Hr, HP, He.
  split; [|split]; [|exact HP|exact He].
  rewrite Hr. destruct es as [|e es]; [contradiction|].
  reflexivity.
Qed.

(** ** The rotator: index arithmetic and rendering *)

Section Rotator.

Variable pil : Z -> Z -> string -> option Display.Surface.

Lemma render_frame (path : string) (b : Bulletin.Board) :
  Bulletin.config (render pil path b) = Bulletin.config b /\
  Bulletin.image_list (render pil path b) = Bulletin.image_list b /\
  Bulletin.current_image_index (render pil path b) = Bulletin.current_image_index b /\
  Bulletin.last_update_time (render pil path b) = Bulletin.last_update_time b.
Proof.
  unfold render, Bulletin.load_and_scale_image. simpl.
  destruct (pil _ _ path); simpl; repeat split; reflexivity.
Qed.

Lemma py_index_in_range {A} (l : list A) (i : Z) :
  0 <= i < Z.of_nat (length l) ->
  exists a, l !! Z.to_nat i = Some a /\ Bulletin.py_index l i = Some a.
Proof.
  intros [H0 H1]. unfold Bulletin.py_index.
  destruct (lookup_lt_is_Some_2 l (Z.to_nat i)) as [a Ha]; [lia|].
  exists a. split; [exact Ha|].
  destruct (Z.leb_spec 0 i); [exact Ha | lia].
Qed.

(** With the index in range, [display_current_image] raises nothing and
    renders the entry at the index. *)
Lemma display_current_image_in_range (b : Bulletin.Board) :
  index_in_range b ->
  exists path,
    Bulletin.image_list b !! Z.to_nat (Bulletin.current_image_index b) = Some path /\
    Bulletin.display_current_image pil b = Ok tt (render pil path b).
Proof.
  intros H. destruct (py_index_in_range _ _ H) as (path & Hl & Hp).
  exists path. split; [exact Hl|].
  unfold Bulletin.display_current_image, render.
  destruct (Bulletin.image_list b) eqn:El; [discriminate|].
  rewrite Hp.
  destruct (Bulletin.load_and_scale_image pil path _); reflexivity.
Qed.

Lemma mod_length_in_range {A} (l : list A) (i : Z) :
  l <> [] -> 0 <= i mod Z.of_nat (length l) < Z.of_nat (length l).
Proof.
  intros H. apply Z.mod_pos_bound. destruct l; [contradiction | simpl; lia].
Qed.

Lemma advance_image_nonempty (now : Q) (b : Bulletin.Board) :
  Bulletin.image_list b <> [] ->
  Bulletin.advance_image pil now b =
    match Bulletin.display_current_image pil
            (Bulletin.set_current_image_index
               ((Bulletin.current_image_index b + 1)
                  mod Z.of_nat (length (Bulletin.image_list b))) b) with
    | Ok _ b' => Ok tt (Bulletin.set_last_update_time now b')
    | Raise e b' => Raise e b'
    end.
Proof.
  intros Hne. unfold Bulletin.advance_image.
  destruct (Bulletin.image_list b); [contradiction | reflexivity].
Qed.

Lemma left_key_nonempty (dir : DirState) (now : Q) (b : Bulletin.Board) :
  Bulletin.image_list b <> [] ->
  Bulletin.handle_event pil dir now (Bulletin.KEYDOWN Bulletin.K_LEFT) b =
    match Bulletin.display_current_image pil
            (Bulletin.set_current_image_index
               ((Bulletin.current_image_index b - 1)
                  mod Z.of_nat (length (Bulletin.image_list b))) b) with
    | Ok _ b' => Ok None b'
    | Raise e b' => Raise e b'
    end.
Proof.
  intros Hne. unfold Bulletin.handle_event.
  destruct (Bulletin.image_list b); [contradiction | reflexivity].
Qed.

(** [advance_image] on a non-empty list: the index steps forward modulo
    the length, the entry at the new index is rendered, and
    [last_update_time] becomes the clock reading. *)
Lemma advance_image_spec (now : Q) (b : Bulletin.Board) :
  Bulletin.image_list b <> [] ->
  let i' := (Bulletin.current_image_index b + 1)
              mod Z.of_nat (length (Bulletin.image_list b)) in
  exists path,
    Bulletin.image_list b !! Z.to_nat i' = Some path /\
    Bulletin.advance_image pil now b =
      Ok tt (Bulletin.set_last_update_time now
               (render pil path (Bulletin.set_current_image_index i' b))).
Proof.
  intros Hne i'.
  assert (Hr : index_in_range (Bulletin.set_current_image_index i' b))
    by (apply mod_length_in_range; exact Hne).
  destruct (display_current_image_in_range _ Hr) as (path & Hl & Hd).
  exists path. split; [exact Hl|].
  rewrite (advance_image_nonempty now b Hne). fold i'. now rewrite Hd.
Qed.

(** The left-arrow branch of [handle_events] on a non-empty list: the
    index steps back modulo the length and the entry at the new index is
    rendered; nothing else is assigned. *)
Lemma left_key_spec (dir : DirState) (now : Q) (b : Bulletin.Board) :
  Bulletin.image_list b <> [] ->
  let i' := (Bulletin.current_image_index b - 1)
              mod Z.of_nat (length (Bulletin.image_list b)) in
  exists path,
    Bulletin.image_list b !! Z.to_nat i' = Some path /\
    Bulletin.handle_event pil dir now (Bulletin.KEYDOWN Bulletin.K_LEFT) b =
      Ok None (render pil path (Bulletin.set_current_image_index i' b)).
Proof.
  intros Hne i'.
  assert (Hr : index_in_range (Bulletin.set_current_image_index i' b))
    by (apply mod_length_in_range; exact Hne).
  destruct (display_current_image_in_range _ Hr) as (path & Hl & Hd).
  exists path. split; [exact Hl|].
  rewrite (left_key_nonempty dir now b Hne). fold i'. now rewrite Hd.
Qed.

End Rotator.

(** ** The rotator: the claims about the index *)

Lemma scan_images_frame (dir : DirState) (b : Bulletin.Board) :
  Bulletin.current_image_index (Bulletin.scan_images dir b).2
    = Bulletin.current_image_index b /\
  Bulletin.last_update_time (Bulletin.scan_images dir b).2
    = Bulletin.last_update_time b /\
  Bulletin.config (Bulletin.scan_images dir b).2 = Bulletin.config b.
Proof.
  destruct dir as [[|]|es]; simpl.
  - destruct (scan_entries_spec [] (Bulletin.logging Bulletin.InfoCreatedDir b))
      as (Hc & Hi & Ht & _). auto.
  - auto.
  - destruct (scan_entries_spec es b) as (Hc & Hi & Ht & _). auto.
Qed.

(** [scan_images] answers [True] only with a non-empty list. *)
Lemma scan_images_true (dir : DirState) (b : Bulletin.Board) :
  (Bulletin.scan_images dir b).1 = true ->
  Bulletin.image_list (Bulletin.scan_images dir b).2 <> [].
Proof.
  assert (H : forall es b0, (Bulletin.scan_entries es b0).1 = true ->
                            Bulletin.image_list (Bulletin.scan_entries es b0).2 <> []).
  { intros es b0 Ht.
    destruct (scan_entries_spec es b0) as (_ & _ & _ & _ & Hr & HP & _).
    rewrite Hr in Ht. intros Hnil. rewrite Hnil in HP.
    apply Permutation_nil_l in HP. rewrite <- HP in Ht.
    discriminate. }
  destruct dir as [[|]|es]; unfold Bulletin.scan_images; try apply H.
  discriminate.
Qed.

Lemma scan_images_false (dir : DirState) (b : Bulletin.Board) :
  (Bulletin.scan_images dir b).1 = false ->
  dir = Missing false \/ Bulletin.image_list (Bulletin.scan_images dir b).2 = [].
Proof.
  assert (H : forall es b0, (Bulletin.scan_entries es b0).1 = false ->
                            Bulletin.image_list (Bulletin.scan_entries es b0).2 = []).
  { intros es b0 Ht.
    destruct (scan_entries_spec es b0) as (_ & _ & _ & _ & Hr & HP & _).
    rewrite Hr in Ht. apply negb_false_iff, bool_decide_eq_true in Ht.
    rewrite Ht in HP. now apply Permutation_nil_r in HP. }
  destruct dir as [[|]|es]; unfold Bulletin.scan_images; intros Hf; auto.
Qed.

(** C1 (amended). The rescan key re-runs [scan_images] and leaves the
    index as it was: it is not put back to 0.  The list is replaced by the
    matching entries of the directory (permuted when shuffling is on),
    unless the directory is missing and cannot be created, in which case
    the list stays.  The bound [0 <= index < length] holds after the
    initial scan of [run] (with index 0), after [advance_image] and after
    a left-arrow step on a non-empty list; after a rescan it holds exactly
    when the old index is below the new length. *)
Theorem rescan_keeps_index (pil : Z -> Z -> string -> option Display.Surface) :
  (forall dir now b,
     let b' := (Bulletin.scan_images dir (Bulletin.logging Bulletin.InfoRescanning b)).2 in
     Bulletin.handle_event pil dir now (Bulletin.KEYDOWN Bulletin.K_r) b = Ok None b' /\
     Bulletin.current_image_index b' = Bulletin.current_image_index b /\
     match dir with
     | Missing false => Bulletin.image_list b' = Bulletin.image_list b
     | Missing true => Bulletin.image_list b' = []
     | Present es =>
         let found := Bulletin.collect (Bulletin.image_directory (Bulletin.config b))
                        (List.map PyStr.lower
                           (Bulletin.supported_formats (Bulletin.config b))) es in
         Bulletin.image_list b' ≡ₚ found /\
         (Bulletin.shuffle_images (Bulletin.config b) = false ->
          Bulletin.image_list b' = found)
     end /\
     (index_in_range b' <->
      0 <= Bulletin.current_image_index b
        < Z.of_nat (length (Bulletin.image_list b')))) /\
  (forall dir c w h d r now,
     let b0 := Bulletin.init c w h d r now in
     exists b',
       (Bulletin.run_start pil dir b0 = Ok None b' /\
        (dir = Missing false \/ Bulletin.image_list b' = [])) \/
       (Bulletin.run_start pil dir b0 = Ok (Some tt) b' /\
        Bulletin.image_list b' <> [] /\
        Bulletin.current_image_index b' = 0 /\ index_in_range b')) /\
  (forall now b,
     Bulletin.image_list b <> [] ->
     exists b', Bulletin.advance_image pil now b = Ok tt b' /\ index_in_range b') /\
  (forall dir now b,
     Bulletin.image_list b <> [] ->
     exists b',
       Bulletin.handle_event pil dir now (Bulletin.KEYDOWN Bulletin.K_LEFT) b = Ok None b' /\
       index_in_range b').
Proof.
  split; [|split; [|split]].
  - intros dir now b b'.
    destruct (scan_images_frame dir (Bulletin.logging Bulletin.InfoRescanning b))
      as (Hi & _ & _).
    split; [reflexivity|]. split; [exact Hi|]. split.
    + subst b'. destruct dir as [[|]|es]; simpl; try reflexivity.
      destruct (scan_entries_spec es (Bulletin.logging Bulletin.InfoRescanning b))
        as (_ & _ & _ & _ & _ & HP & He).
      split; [exact HP | exact He].
    + subst b'. unfold index_in_range. rewrite Hi. reflexivity.
  - intros dir c w h d r now b0.
    unfold Bulletin.run_start.
    set (b1 := Bulletin.logging Bulletin.InfoStarting b0).
    destruct (scan_images_frame dir b1) as (Hi & _ & _).
    pose proof (scan_images_true dir b1) as Ht.
    pose proof (scan_images_false dir b1) as Hf.
    destruct (Bulletin.scan_images dir b1) as [[|] b2]; simpl in *.
    + assert (Hr : index_in_range b2).
      { unfold index_in_range. rewrite Hi. simpl.
        specialize (Ht eq_refl). destruct (Bulletin.image_list b2); [contradiction|].
        simpl. lia. }
      destruct (display_current_image_in_range pil b2 Hr) as (path & _ & Hd).
      destruct (render_frame pil path b2) as (_ & Hl & Hx & _).
      exists (render pil path b2). right. rewrite Hd.
      split; [reflexivity|]. split; [rewrite Hl; auto|].
      split; [rewrite Hx; exact Hi|].
      unfold index_in_range. rewrite Hl, Hx. exact Hr.
    + exists (Bulletin.logging Bulletin.ErrorExiting b2). left.
      split; [reflexivity|]. destruct (Hf eq_refl); auto.
  - intros now b Hne.
    destruct (advance_image_spec pil now b Hne) as (path & _ & Ha).
    eexists. split; [exact Ha|].
    unfold index_in_range. simpl.
    destruct (render_frame pil path
                (Bulletin.set_current_image_index
                   ((Bulletin.current_image_index b + 1)
                      mod Z.of_nat (length (Bulletin.image_list b))) b))
      as (_ & Hl & Hx & _).
    rewrite Hl, Hx. simpl. now apply mod_length_in_range.
  - intros dir now b Hne.
    destruct (left_key_spec pil dir now b Hne) as (path & _ & Ha).
    eexists. split; [exact Ha|].
    unfold index_in_range.
    destruct (render_frame pil path
                (Bulletin.set_current_image_index
                   ((Bulletin.current_image_index b - 1)
                      mod Z.of_nat (length (Bulletin.image_list b))) b))
      as (_ & Hl & Hx & _).
    rewrite Hl, Hx. simpl. now apply mod_length_in_range.
Qed.

(** C1, as worded, fails: with three images and the third one shown, a
    rescan that finds a single image leaves the index at 2, neither 0 nor
    below the new length 1. *)
Lemma rescan_index_counterexample :
  let b1 := state_of (Bulletin.handle_events sample_pil three_images 1
                        [Bulletin.KEYDOWN Bulletin.K_RIGHT;
                         Bulletin.KEYDOWN Bulletin.K_RIGHT] started_board) in
  let b2 := state_of (Bulletin.handle_events sample_pil one_image 2
                        [Bulletin.KEYDOWN Bulletin.K_r] b1) in
  Bulletin.run_start sample_pil three_images (sample_board false)
    = Ok (Some tt) started_board /\
  Bulletin.handle_events sample_pil three_images 1
    [Bulletin.KEYDOWN Bulletin.K_RIGHT; Bulletin.KEYDOWN Bulletin.K_RIGHT] started_board
    = Ok true b1 /\
  Bulletin.handle_events sample_pil one_image 2 [Bulletin.KEYDOWN Bulletin.K_r] b1
    = Ok true b2 /\
  Bulletin.image_list b1 = ["images/a.png"; "images/B.JPG"; "images/c.gif"] /\
  Bulletin.current_image_index b1 = 2 /\
  Bulletin.image_list b2 = ["images/a.png"] /\
  Bulletin.current_image_index b2 = 2 /\
  ~ index_in_range b2 /\
  ~ rescan_as_specified sample_pil one_image 2 b1.
Proof.
  evaluate.
  - unfold index_in_range. vm_compute. intros [_ H]. discriminate.
  - intros [H _]. vm_compute in H. discriminate.
Qed.

Lemma rescan_keeps_index_witness :
  let b1 := state_of (Bulletin.handle_events sample_pil three_images 1
                        [Bulletin.KEYDOWN Bulletin.K_RIGHT] started_board) in
  Bulletin.image_list b1 <> [] /\
  exists b', Bulletin.advance_image sample_pil 2 b1 = Ok tt b' /\ index_in_range b'.
Proof.
  split; [discriminate|].
  apply (proj1 (proj2 (proj2 (rescan_keeps_index sample_pil)))).
  discriminate.
Defined.

(** ** The rotator: the two manual steps *)

(** The left-arrow branch leaves [last_update_time] alone. *)
Lemma left_key_last_update_time
    (pil : Z -> Z -> string -> option Display.Surface)
    (dir : DirState) (now : Q) (b : Bulletin.Board) :
  Bulletin.image_list b <> [] ->
  Bulletin.last_update_time
    (state_of (Bulletin.handle_event pil dir now (Bulletin.KEYDOWN Bulletin.K_LEFT) b))
  = Bulletin.last_update_time b.
Proof.
  intros Hne. destruct (left_key_spec pil dir now b Hne) as (path & _ & Ha).
  rewrite Ha. simpl.
  now destruct (render_frame pil path
                  (Bulletin.set_current_image_index
                     ((Bulletin.current_image_index b - 1)
                        mod Z.of_nat (length (Bulletin.image_list b))) b))
    as (_ & _ & _ & ->).
Qed.

(** [advance_image] sets it to the clock reading. *)
Lemma advance_image_last_update_time
    (pil : Z -> Z -> string -> option Display.Surface)
    (now : Q) (b : Bulletin.Board) :
  Bulletin.image_list b <> [] ->
  Bulletin.last_update_time (state_of (Bulletin.advance_image pil now b)) = now.
Proof.
  intros Hne. destruct (advance_image_spec pil now b Hne) as (path & _ & Ha).
  now rewrite Ha.
Qed.

(** C2, the step back: from the board showing the first of three images
    at time 0, a left-arrow press at time 5 moves the index to 2 and draws
    that entry, but [last_update_time] is still 0; a right-arrow press at
    the same moment moves to 1 and sets [last_update_time] to 5.  With a
    hold of 10 seconds the timed advance then fires at time 10 after the
    step back, and not after the step forward. *)
Theorem left_key_keeps_timer :
  let left := state_of (Bulletin.handle_events sample_pil three_images 5
                          [Bulletin.KEYDOWN Bulletin.K_LEFT] started_board) in
  let right := state_of (Bulletin.handle_events sample_pil three_images 5
                           [Bulletin.KEYDOWN Bulletin.K_RIGHT] started_board) in
  let idle := {| Bulletin.tick_events := []; Bulletin.tick_dir := three_images;
                 Bulletin.tick_key_time := 10; Bulletin.tick_time := 10;
                 Bulletin.tick_auto_time := 10 |} in
  Bulletin.image_list started_board
    = ["images/a.png"; "images/B.JPG"; "images/c.gif"] /\
  Bulletin.current_image_index started_board = 0 /\
  Bulletin.last_update_time started_board = 0%Q /\
  Bulletin.handle_events sample_pil three_images 5
    [Bulletin.KEYDOWN Bulletin.K_LEFT] started_board = Ok true left /\
  Bulletin.handle_events sample_pil three_images 5
    [Bulletin.KEYDOWN Bulletin.K_RIGHT] started_board = Ok true right /\
  Bulletin.current_image_index left = 2 /\
  Display.flips (Bulletin.display left)
    = S (Display.flips (Bulletin.display started_board)) /\
  Bulletin.last_update_time left = 0%Q /\
  Bulletin.current_image_index right = 1 /\
  Bulletin.last_update_time right = 5%Q /\
  Bulletin.current_image_index (state_of (Bulletin.loop_body sample_pil idle left)) = 0 /\
  Bulletin.current_image_index (state_of (Bulletin.loop_body sample_pil idle right)) = 1.
Proof. evaluate. Qed.

(** C4. On an empty list the left-arrow branch divides by zero and the
    exception leaves [handle_events] and the loop of [run], while
    space and right-arrow, which go through the guard of [advance_image],
    return with the board untouched. *)
Theorem left_key_unguarded
    (pil : Z -> Z -> string -> option Display.Surface)
    (dir : DirState) (now : Q) (b : Bulletin.Board) (t : Bulletin.Tick) :
  Bulletin.image_list b = [] ->
  Bulletin.tick_events t = [Bulletin.KEYDOWN Bulletin.K_LEFT] ->
  Bulletin.handle_events pil dir now [Bulletin.KEYDOWN Bulletin.K_LEFT] b
    = Raise ZeroDivisionError b /\
  Bulletin.loop_body pil t b = Raise ZeroDivisionError b /\
  (forall rest, Bulletin.run_loop pil (t :: rest) b = Raise ZeroDivisionError b) /\
  Bulletin.handle_events pil dir now [Bulletin.KEYDOWN Bulletin.K_SPACE] b = Ok true b /\
  Bulletin.handle_events pil dir now [Bulletin.KEYDOWN Bulletin.K_RIGHT] b = Ok true b.
Proof.
  intros He Ht.
  assert (Hb : Bulletin.loop_body pil t b = Raise ZeroDivisionError b).
  { unfold Bulletin.loop_body. rewrite Ht. simpl. now rewrite He. }
  split; [simpl; now rewrite He|].
  split; [exact Hb|].
  split; [intros rest; simpl; now rewrite Hb|].
  unfold Bulletin.handle_events, Bulletin.handle_event, Bulletin.advance_image.
  rewrite He. split; reflexivity.
Qed.

(** The empty list is reachable while the loop runs: a rescan of a
    directory that has lost its images empties it. *)
Lemma left_key_unguarded_witness :
  let b := state_of (Bulletin.handle_events sample_pil (Present []) 1
                       [Bulletin.KEYDOWN Bulletin.K_r] started_board) in
  let t := {| Bulletin.tick_events := [Bulletin.KEYDOWN Bulletin.K_LEFT];
              Bulletin.tick_dir := Present [];
              Bulletin.tick_key_time := 2; Bulletin.tick_time := 2;
              Bulletin.tick_auto_time := 2 |} in
  Bulletin.image_list b = [] /\
  Bulletin.handle_events sample_pil (Present []) 2 [Bulletin.KEYDOWN Bulletin.K_LEFT] b
    = Raise ZeroDivisionError b /\
  Bulletin.loop_body sample_pil t b = Raise ZeroDivisionError b /\
  (forall rest, Bulletin.run_loop sample_pil (t :: rest) b = Raise ZeroDivisionError b) /\
  Bulletin.handle_events sample_pil (Present []) 2 [Bulletin.KEYDOWN Bulletin.K_SPACE] b
    = Ok true b /\
  Bulletin.handle_events sample_pil (Present []) 2 [Bulletin.KEYDOWN Bulletin.K_RIGHT] b
    = Ok true b.
Proof.
  intros b t. split; [reflexivity|].
  apply (left_key_unguarded sample_pil (Present []) 2 b t); reflexivity.
Defined.

(** ** The rotator: rendering *)

Lemma flips_app (d : Display.Screen) (c : list Display.Call) (l : list Display.Call) :
  Display.calls d = (l ++ c)%list ->
  Display.flips d
  = (length (List.filter (fun c => match c with Display.CFlip => true | _ => false end) l)
     + length (List.filter (fun c => match c with Display.CFlip => true | _ => false end) c))%nat.
Proof.
  intros H. unfold Display.flips. rewrite H, List.filter_app, length_app. reflexivity.
Qed.

(** C3 (amended). Given a surface, [display_image] clears the screen to
    the background colour, draws the surface with its centre on the centre
    of the screen, and shows the result by one flip made after the
    drawing; given [None] it returns at once: nothing is cleared, drawn or
    flipped, and the monitor keeps showing what it showed. *)
Theorem display_image_spec (b : Bulletin.Board) :
  (forall s,
     render_as_specified (Some s) b /\
     Display.center (centered_rect s (Display.screen (Bulletin.display b)))
     = Display.center (Display.get_rect (Display.screen (Bulletin.display b)))) /\
  Bulletin.display_image None b = b.
Proof.
  split; [|reflexivity].
  intros s. split.
  - unfold render_as_specified. split; [|split].
    + simpl. rewrite <- !app_assoc. reflexivity.
    + rewrite (flips_app _ (render_calls (Bulletin.background_color (Bulletin.config b))
                              (Some s) (Display.screen (Bulletin.display b)))
                 (Display.calls (Bulletin.display b))).
      * unfold Display.flips. simpl. lia.
      * simpl. rewrite <- !app_assoc. reflexivity.
    + intros x y. reflexivity.
  - unfold centered_rect, Display.center, Display.set_center, Display.get_rect.
    simpl. f_equal; lia.
Qed.

(** C3, as worded, fails for [None]: on a display that shows white, with
    a black background configured, [display_image None] makes no call at
    all, and the monitor goes on showing white: no background-only frame
    is presented. *)
Lemma display_image_none_counterexample :
  let b := sample_board false in
  ~ render_as_specified None b /\
  Bulletin.background_color (Bulletin.config b) = (0, 0, 0) /\
  Display.calls (Bulletin.display (Bulletin.display_image None b)) = [] /\
  Display.visible (Bulletin.display (Bulletin.display_image None b)) 0 0
  = (255, 255, 255).
Proof.
  repeat split; try reflexivity.
  intros (H & _). vm_compute in H. discriminate.
Qed.

(** ** The synchroniser: frame lemmas *)

Lemma same_settings_refl s : same_settings s s.
Proof. repeat split. Qed.

Lemma same_settings_trans s1 s2 s3 :
  same_settings s1 s2 -> same_settings s2 s3 -> same_settings s1 s3.
Proof.
  intros (A1 & A2 & A3 & A4) (B1 & B2 & B3 & B4).
  repeat split; congruence.
Qed.

Lemma count_listings_app l1 l2 :
  count_listings (l1 ++ l2) = (count_listings l1 + count_listings l2)%nat.
Proof. unfold count_listings. now rewrite List.filter_app, length_app. Qed.

Lemma list_folder_files_spec (drive : Fetcher.Drive) (s : Fetcher.Sync) :
  let r := Fetcher.list_folder_files drive s in
  same_settings s r.2 /\
  Fetcher.local_files r.2 = Fetcher.local_files s /\
  Fetcher.requests r.2
  = (Fetcher.requests s ++ if Fetcher.service s then [Fetcher.ReqList] else [])%list.
Proof.
  unfold Fetcher.list_folder_files.
  destruct (Fetcher.service s) eqn:Hs; simpl.
  - destruct (Fetcher.files_list drive); simpl; repeat split; auto.
  - repeat split. now rewrite app_nil_r.
Qed.

(** The listing does not depend on the log. *)
Lemma listing_logging (drive : Fetcher.Drive) (m : Fetcher.LogMsg) (s : Fetcher.Sync) :
  listing drive (Fetcher.logging m s) = listing drive s.
Proof.
  unfold listing, Fetcher.list_folder_files. simpl.
  destruct (Fetcher.service s); [|reflexivity].
  destruct (Fetcher.files_list drive); reflexivity.
Qed.

Lemma download_file_frame (drive : Fetcher.Drive) (host : Fetcher.Host)
    (f : Fetcher.DriveFile) (s : Fetcher.Sync) :
  let r := Fetcher.download_file drive host f s in
  same_settings s r.2 /\
  count_listings (Fetcher.requests r.2) = count_listings (Fetcher.requests s).
Proof.
  assert (Hf : let r := Fetcher.fetch drive host f s in
               same_settings s r.2 /\
               count_listings (Fetcher.requests r.2) = count_listings (Fetcher.requests s)).
  { unfold Fetcher.fetch.
    destruct (Fetcher.service s) eqn:Hs; simpl; [|repeat split].
    destruct (Fetcher.get_media drive (Fetcher.id f)); simpl.
    - destruct (Fetcher.write_file _ _ _ _); simpl;
        (split; [repeat split; auto | rewrite count_listings_app; unfold count_listings; simpl; lia]).
    - split; [repeat split; auto | rewrite count_listings_app; unfold count_listings; simpl; lia]. }
  unfold Fetcher.download_file.
  destruct (Fetcher.lookup_file _ _); [|exact Hf].
  destruct (Fetcher.drive_mtime host f); simpl; [|repeat split].
  destruct (Qle_bool _ _); [repeat split | exact Hf].
Qed.

Lemma download_all_frame (drive : Fetcher.Drive) (host : Fetcher.Host)
    (fs : list Fetcher.DriveFile) (n : nat) (s : Fetcher.Sync) :
  let r := Fetcher.download_all drive host fs n s in
  same_settings s r.2 /\
  count_listings (Fetcher.requests r.2) = count_listings (Fetcher.requests s).
Proof.
  revert n s. induction fs as [|f fs IH]; intros n s; simpl.
  - split; [apply same_settings_refl | reflexivity].
  - pose proof (download_file_frame drive host f s) as Hd.
    destruct (Fetcher.download_file drive host f s) as [ok s1]. simpl in Hd.
    destruct Hd as [Hs Hc].
    destruct (IH (if ok then S n else n) s1) as [Hs' Hc'].
    split; [eapply same_settings_trans; eauto | congruence].
Qed.

(** ** The synchroniser: pruning *)

Lemma mem_list_to_set (x : string) (l : list string) :
  bool_decide (x ∈ (list_to_set l : gset string)) = PyStr.mem x l.
Proof.
  destruct (PyStr.mem x l) eqn:E.
  - apply bool_decide_eq_true. rewrite elem_of_list_to_set, list_elem_of_In.
    now apply mem_In.
  - apply bool_decide_eq_false. rewrite elem_of_list_to_set, list_elem_of_In.
    intros H. apply mem_In in H. congruence.
Qed.

Lemma filter_other_names (n : string) (l : list File) :
  n ∉ List.map fname l ->
  List.filter (fun g => negb (String.eqb (fname g) n)) l = l.
Proof.
  intros H. apply filter_all. apply Forall_forall. intros g Hg.
  apply negb_true_iff, String.eqb_neq. intros <-.
  apply H, list_elem_of_In, in_map, list_elem_of_In, Hg.
Qed.

(** Deleting by name removes one entry when names are distinct. *)
Lemma unlink_distinct (kept : list File) (f : File) (rest : list File) :
  distinct_names (kept ++ f :: rest) ->
  List.filter (fun g => negb (String.eqb (fname g) (fname f))) (kept ++ f :: rest)
  = (kept ++ rest)%list.
Proof.
  unfold distinct_names. rewrite List.map_app. simpl.
  intros H. apply NoDup_app in H as (_ & Hk & Hr).
  apply NoDup_cons in Hr as (Hf & _).
  rewrite List.filter_app. simpl. rewrite String.eqb_refl. simpl.
  rewrite !filter_other_names; [reflexivity | exact Hf |].
  intros Hin. apply (Hk _ Hin). left.
Qed.

Lemma cleanup_loop_spec (host : Fetcher.Host) (drive_files : list Fetcher.DriveFile)
    (s0 : Fetcher.Sync) (todo : list File) :
  forall (kept : list File) (s : Fetcher.Sync),
    Fetcher.supported_formats s = Fetcher.supported_formats s0 ->
    Fetcher.local_files s = (kept ++ todo)%list ->
    distinct_names (kept ++ todo) ->
    let s' := Fetcher.cleanup_loop host
                (list_to_set (List.map Fetcher.name drive_files)) todo s in
    same_settings s s' /\
    Fetcher.requests s' = Fetcher.requests s /\
    Fetcher.local_files s'
    = (kept ++ List.filter (fun f => negb (doomed s0 drive_files f
                                           && Fetcher.can_unlink host (fname f))) todo)%list /\
    Fetcher.log s'
    = (Fetcher.log s ++ List.map (removal_record host)
                          (List.filter (doomed s0 drive_files) todo))%list.
Proof.
  induction todo as [|f rest IH]; intros kept s Hfm Hl Hd; simpl.
  - repeat split; auto. now rewrite app_nil_r.
  - rewrite mem_list_to_set.
    assert (Hdoom : (is_file f && Fetcher.is_supported_image s (fname f)
                     && negb (PyStr.mem (fname f) (List.map Fetcher.name drive_files)))
                    = doomed s0 drive_files f).
    { unfold doomed, Fetcher.is_supported_image. now rewrite Hfm. }
    rewrite Hdoom. unfold removal_record.
    destruct (doomed s0 drive_files f); simpl.
    + destruct (Fetcher.can_unlink host (fname f)) eqn:Hu; simpl.
      * rewrite Hl, (unlink_distinct kept f rest Hd).
        edestruct (IH kept) as (Hs & Hq & Hk & Hg); [| |
          | split; [|split; [|split]]; [| exact Hq | exact Hk |]].
        -- exact Hfm.
        -- reflexivity.
        -- unfold distinct_names in *. rewrite List.map_app in *. simpl in Hd.
           apply NoDup_app in Hd as (Hd1 & Hd2 & Hd3).
           apply NoDup_cons in Hd3 as (_ & Hd3).
           apply NoDup_app. split; [exact Hd1|]. split; [|exact Hd3].
           intros x Hx Hx'. apply (Hd2 x Hx). now right.
        -- destruct Hs as (A & B & C & D). repeat split; assumption.
        -- rewrite Hg. simpl. now rewrite <- app_assoc.
      * edestruct (IH (kept ++ [f])%list) as (Hs & Hq & Hk & Hg); [| |
          | split; [|split; [|split]]; [| exact Hq | |]].
        -- exact Hfm.
        -- simpl. rewrite Hl, <- app_assoc. reflexivity.
        -- now rewrite <- app_assoc.
        -- destruct Hs as (A & B & C & D). repeat split; assumption.
        -- rewrite Hk, <- app_assoc. reflexivity.
        -- rewrite Hg. simpl. now rewrite <- app_assoc.
    + edestruct (IH (kept ++ [f])%list s) as (Hs & Hq & Hk & Hg); [| |
        | split; [|split; [|split]]; [exact Hs | exact Hq | |]].
      * exact Hfm.
      * rewrite Hl, <- app_assoc. reflexivity.
      * now rewrite <- app_assoc.
      * rewrite Hk, <- app_assoc. reflexivity.
      * exact Hg.
Qed.

(** C8. [cleanup_local_files] removes exactly the regular files with a
    supported extension whose name is in no remote record, whenever
    [unlink] succeeds on them; an entry whose [unlink] raises stays, gets
    an error record, and the entries after it are still processed. *)
Theorem cleanup_local_files_exact (host : Fetcher.Host)
    (drive_files : list Fetcher.DriveFile) (s : Fetcher.Sync) :
  distinct_names (Fetcher.local_files s) ->
  let s' := Fetcher.cleanup_local_files host drive_files s in
  Fetcher.local_files s'
  = List.filter (fun f => negb (doomed s drive_files f
                                && Fetcher.can_unlink host (fname f)))
                (Fetcher.local_files s) /\
  Fetcher.log s'
  = (Fetcher.log s ++ List.map (removal_record host)
                        (List.filter (doomed s drive_files) (Fetcher.local_files s)))%list /\
  ((forall f, In f (Fetcher.local_files s) -> Fetcher.can_unlink host (fname f) = true) ->
   Fetcher.local_files s'
   = List.filter (fun f => negb (doomed s drive_files f)) (Fetcher.local_files s)).
Proof.
  intros Hd s'.
  destruct (cleanup_loop_spec host drive_files s (Fetcher.local_files s) [] s)
    as (_ & _ & Hk & Hg); auto.
  fold (Fetcher.cleanup_local_files host drive_files s) in Hk, Hg. fold s' in Hk, Hg.
  simpl in Hk. split; [exact Hk|]. split; [exact Hg|].
  intros Hall. rewrite Hk. apply List.filter_ext_in.
  intros f Hf. rewrite (Hall f Hf). now rewrite andb_true_r.
Qed.

(** The specification's example: remote [A], local [A] and [B]; [B] goes,
    [A] stays. *)
Lemma cleanup_local_files_exact_witness :
  distinct_names (Fetcher.local_files sync_AB) /\
  Fetcher.local_files (Fetcher.cleanup_local_files utc_host [remote_A] sync_AB) = [local_A] /\
  Fetcher.log (Fetcher.cleanup_local_files utc_host [remote_A] sync_AB)
  = [Fetcher.InfoRemoved "B.png"].
Proof.
  assert (Hd : distinct_names (Fetcher.local_files sync_AB)).
  { unfold distinct_names.
    apply (bool_decide_eq_true_1 (NoDup (List.map fname (Fetcher.local_files sync_AB)))).
    reflexivity. }
  split; [exact Hd|].
  destruct (cleanup_local_files_exact utc_host [remote_A] sync_AB Hd) as (Hk & Hg & _).
  split; [rewrite Hk | rewrite Hg]; reflexivity.
Defined.

(** ** The synchroniser: one pass *)

Lemma cleanup_loop_frame (host : Fetcher.Host) (names : gset string)
    (todo : list File) (s : Fetcher.Sync) :
  same_settings s (Fetcher.cleanup_loop host names todo s) /\
  Fetcher.requests (Fetcher.cleanup_loop host names todo s) = Fetcher.requests s.
Proof.
  revert s. induction todo as [|f rest IH]; intros s; simpl.
  - split; [apply same_settings_refl | reflexivity].
  - match goal with
    | |- context [Fetcher.cleanup_loop host names rest ?s1] =>
        destruct (IH s1) as [Hs Hq];
        assert (H1 : same_settings s s1 /\ Fetcher.requests s1 = Fetcher.requests s)
    end.
    { destruct (_ && _); [|split; [apply same_settings_refl | reflexivity]].
      destruct (Fetcher.can_unlink host (fname f)); repeat split. }
    destruct H1 as [Hs1 Hq1].
    split; [eapply same_settings_trans; eauto | congruence].
Qed.

(** C9. When the listing comes back empty, a forced [sync] returns
    [False]; the image directory and [last_sync] are what they were, and
    the only request sent is the listing itself: nothing is downloaded,
    overwritten or pruned. *)
Theorem sync_empty_listing (drive : Fetcher.Drive) (host : Fetcher.Host)
    (current_time : Q) (s : Fetcher.Sync) :
  listing drive s = [] ->
  let r := Fetcher.sync drive host current_time true s in
  r.1 = false /\
  Fetcher.local_files r.2 = Fetcher.local_files s /\
  Fetcher.last_sync r.2 = Fetcher.last_sync s /\
  Fetcher.requests r.2
  = (Fetcher.requests s ++ if Fetcher.service s then [Fetcher.ReqList] else [])%list.
Proof.
  intros He. unfold Fetcher.sync.
  destruct (Fetcher.service s) eqn:Hs; simpl.
  - pose proof (listing_logging drive Fetcher.InfoStartingSync s) as Hl.
    rewrite He in Hl. unfold listing in Hl.
    destruct (list_folder_files_spec drive (Fetcher.logging Fetcher.InfoStartingSync s))
      as ((_ & _ & _ & Ht) & Hf & Hq).
    destruct (Fetcher.list_folder_files drive
                (Fetcher.logging Fetcher.InfoStartingSync s)) as [fs s1].
    simpl in *. subst fs. simpl. rewrite Hs in Hq. auto.
  - repeat split. now rewrite app_nil_r.
Qed.

Lemma sync_empty_listing_witness :
  listing empty_drive sync_AB = [] /\
  let r := Fetcher.sync empty_drive utc_host 1709300000 true sync_AB in
  r.1 = false /\
  Fetcher.local_files r.2 = [local_A; local_B] /\
  Fetcher.last_sync r.2 = Fetcher.last_sync sync_AB /\
  Fetcher.requests r.2 = [Fetcher.ReqList].
Proof.
  split; [reflexivity|].
  apply (sync_empty_listing empty_drive utc_host 1709300000 sync_AB).
  reflexivity.
Defined.

(** A pass that gets a non-empty listing ends with [last_sync] set to the
    time it started at, and has listed once. *)
Lemma sync_completes (drive : Fetcher.Drive) (host : Fetcher.Host)
    (current_time : Q) (force : bool) (s : Fetcher.Sync) :
  Fetcher.service s = true ->
  (force = true \/ (Fetcher.sync_interval s <= current_time - Fetcher.last_sync s)%Q) ->
  listing drive s <> [] ->
  let r := Fetcher.sync drive host current_time force s in
  Fetcher.service r.2 = true /\
  Fetcher.sync_interval r.2 = Fetcher.sync_interval s /\
  Fetcher.last_sync r.2 = current_time /\
  count_listings (Fetcher.requests r.2) = S (count_listings (Fetcher.requests s)).
Proof.
  intros Hs Hdue Hne. unfold Fetcher.sync. rewrite Hs. simpl.
  assert (Hgo : negb force
                && negb (Qle_bool (Fetcher.sync_interval s)
                           (current_time - Fetcher.last_sync s)) = false).
  { destruct Hdue as [-> | Hq]; [reflexivity|].
    apply Qle_bool_iff in Hq. rewrite Hq. now rewrite andb_false_r. }
  rewrite Hgo.
  pose proof (listing_logging drive Fetcher.InfoStartingSync s) as Hl.
  unfold listing in Hl.
  destruct (list_folder_files_spec drive (Fetcher.logging Fetcher.InfoStartingSync s))
    as ((A1 & _ & A3 & _) & _ & Hq).
  destruct (Fetcher.list_folder_files drive
              (Fetcher.logging Fetcher.InfoStartingSync s)) as [fs s1].
  simpl in *. unfold listing in Hne. rewrite <- Hl in Hne.
  destruct fs as [|f fs]; [contradiction|].
  pose proof (download_all_frame drive host (f :: fs) 0 s1) as Hd.
  destruct (Fetcher.download_all drive host (f :: fs) 0 s1) as [n s2].
  simpl in Hd. destruct Hd as ((B1 & B2 & B3 & _) & Hc).
  destruct (cleanup_loop_frame host (list_to_set (List.map Fetcher.name (f :: fs)))
              (Fetcher.local_files s2) s2) as ((C1 & _ & C3 & _) & Cq).
  unfold Fetcher.cleanup_local_files. simpl in *.
  repeat split; try congruence.
  rewrite Cq, Hc, Hq, Hs, count_listings_app. unfold count_listings. simpl. lia.
Qed.

(** C10 (amended). When an unforced [sync] that is due gets a non-empty
    listing, it records its starting time in [last_sync], and a second
    unforced call less than [sync_interval] after that time sends
    nothing, changes nothing and returns [True]: the two calls list
    exactly once. *)
Theorem sync_rate_limited (drive : Fetcher.Drive) (host : Fetcher.Host)
    (t1 t2 : Q) (s : Fetcher.Sync) :
  Fetcher.service s = true ->
  (Fetcher.sync_interval s <= t1 - Fetcher.last_sync s)%Q ->
  listing drive s <> [] ->
  (t2 - t1 < Fetcher.sync_interval s)%Q ->
  let r1 := Fetcher.sync drive host t1 false s in
  let r2 := Fetcher.sync drive host t2 false r1.2 in
  r2 = (true, r1.2) /\
  count_listings (Fetcher.requests r2.2) = S (count_listings (Fetcher.requests s)).
Proof.
  intros Hs Hdue Hne Hlt r1 r2.
  destruct (sync_completes drive host t1 false s Hs (or_intror Hdue) Hne)
    as (Hs1 & Hi1 & Hl1 & Hc1).
  fold r1 in Hs1, Hi1, Hl1, Hc1.
  assert (Hr2 : r2 = (true, r1.2)).
  { subst r2. unfold Fetcher.sync. rewrite Hs1, Hi1, Hl1. simpl.
    destruct (Qle_bool (Fetcher.sync_interval s) (t2 - t1)) eqn:Hq; [|reflexivity].
    apply Qle_bool_iff in Hq. exfalso. apply (Qlt_not_le _ _ Hlt), Hq. }
  split; [exact Hr2|]. rewrite Hr2. exact Hc1.
Qed.

Lemma sync_rate_limited_witness :
  let r1 := Fetcher.sync drive_A utc_host 1709300000 false sync_AB in
  let r2 := Fetcher.sync drive_A utc_host 1709300299 false r1.2 in
  r2 = (true, r1.2) /\
  count_listings (Fetcher.requests r2.2) = S (count_listings (Fetcher.requests sync_AB)).
Proof.
  apply (sync_rate_limited drive_A utc_host 1709300000 1709300299 sync_AB).
  - reflexivity.
  - vm_compute. discriminate.
  - discriminate.
  - reflexivity.
Defined.

(** C10, as worded, fails: with an empty remote folder the first call
    lists, returns [False] and leaves [last_sync] at 0, so a second call
    one second later lists again and returns [False] too. *)
Lemma sync_rate_limit_counterexample :
  let s := Fetcher.init default_formats 300 true [local_A] in
  let r1 := Fetcher.sync empty_drive utc_host 1709300000 false s in
  let r2 := Fetcher.sync empty_drive utc_host 1709300001 false r1.2 in
  ~ rate_limit_as_specified empty_drive utc_host 1709300000 1709300001 s /\
  Fetcher.requests r2.2 = [Fetcher.ReqList; Fetcher.ReqList] /\
  r2.1 = false.
Proof.
  repeat split; try reflexivity.
  intros (H & _). vm_compute in H. lia.
Qed.

(** ** The synchroniser: the skip test *)

(** The skip path of [download_file]: the entry exists and its
    modification time is not below the value [mktime] gives. *)
Lemma download_file_skips (drive : Fetcher.Drive) (host : Fetcher.Host)
    (file_info : Fetcher.DriveFile) (s : Fetcher.Sync) (f : File) (t : Q) :
  Fetcher.lookup_file (Fetcher.name file_info) (Fetcher.local_files s) = Some f ->
  Fetcher.drive_mtime host file_info = Some t ->
  (t <= mtime f)%Q ->
  Fetcher.download_file drive host file_info s = (true, s).
Proof.
  intros Hl Ht Hle. unfold Fetcher.download_file. rewrite Hl, Ht.
  apply Qle_bool_iff in Hle. now rewrite Hle.
Qed.

(** On a host that keeps UTC, the value [mktime] gives is the remote
    modification time, whole seconds. *)
Lemma drive_mtime_utc (host : Fetcher.Host) (file_info : Fetcher.DriveFile)
    (t : PyTime.struct_time) :
  Fetcher.utc_offset host = 0 ->
  PyTime.strptime (Fetcher.modifiedTime file_info) = Some t ->
  Fetcher.drive_mtime host file_info = Some (inject_Z (PyTime.timegm t)).
Proof.
  intros H0 Hp. unfold Fetcher.drive_mtime, PyTime.mktime.
  rewrite Hp, H0. do 2 f_equal. lia.
Qed.

(** C7, on a host five hours west of UTC.  The remote record was modified
    at 1709294400 and the local copy at 1709294450, later; [mktime] reads
    the UTC timestamp as local time and yields 1709312400, so
    [download_file] requests the content and overwrites the copy.  The
    same holds for the specification's example, remote 100 against local
    150.  On a host that keeps UTC both calls skip. *)
Theorem download_file_utc_as_local :
  (PyTime.timegm <$> PyTime.strptime (Fetcher.modifiedTime remote_A) = Some 1709294400 /\
   Fetcher.lookup_file "A.png" (Fetcher.local_files sync_A) = Some local_A /\
   mtime local_A = 1709294450%Q /\
   Fetcher.drive_mtime west_host remote_A = Some 1709312400%Q /\
   let r := Fetcher.download_file drive_A west_host remote_A sync_A in
   r.1 = true /\
   Fetcher.requests r.2 = [Fetcher.ReqGetMedia "id-A"] /\
   Fetcher.local_files r.2 = [regular "A.png" 1709300000 "new bytes"]) /\
  (PyTime.timegm <$> PyTime.strptime (Fetcher.modifiedTime remote_100) = Some 100 /\
   let r := Fetcher.download_file drive_A west_host remote_100 sync_150 in
   r.1 = true /\
   Fetcher.requests r.2 = [Fetcher.ReqGetMedia "id-A"] /\
   Fetcher.local_files r.2 = [regular "A.png" 1709300000 "new bytes"]) /\
  Fetcher.download_file drive_A utc_host remote_A sync_A = (true, sync_A) /\
  Fetcher.download_file drive_A utc_host remote_100 sync_150 = (true, sync_150).
Proof. repeat split; reflexivity. Qed.

(** ** Concrete checks of the scan *)

Lemma scan_images_exact_witness :
  let es := [regular "a.png" 0 "a"; regular "B.JPG" 0 "b"; regular "c.gif" 0 "c"] in
  let r := Bulletin.scan_images (Present es) (sample_board true) in
  r.1 = true /\
  Bulletin.image_list r.2 ≡ₚ ["images/a.png"; "images/B.JPG"; "images/c.gif"] /\
  (Bulletin.shuffle_images (Bulletin.config (sample_board true)) = false ->
   Bulletin.image_list r.2 = ["images/a.png"; "images/B.JPG"; "images/c.gif"]).
Proof.
  intros es.
  apply (scan_images_exact es (sample_board true)).
  - discriminate.
  - repeat constructor; simpl; tauto.
Defined.

(** * Further properties of the rotator *)

(** ** What a scan keeps *)

Lemma is_supported_accepted (c : Bulletin.Config) (f : File) :
  Bulletin.is_supported (List.map PyStr.lower (Bulletin.supported_formats c)) f = true
  <-> accepted c f.
Proof.
  unfold Bulletin.is_supported, accepted.
  rewrite andb_true_iff, mem_In. reflexivity.
Qed.

Lemma collect_In (c : Bulletin.Config) (es : list File) (p : string) :
  In p (Bulletin.collect (Bulletin.image_directory c)
          (List.map PyStr.lower (Bulletin.supported_formats c)) es)
  <-> exists f, In f es /\ accepted c f /\
                p = PyPath.join (Bulletin.image_directory c) (fname f).
Proof.
  unfold Bulletin.collect. rewrite in_map_iff. split.
  - intros (f & <- & Hf). apply List.filter_In in Hf as [Hin Hs].
    exists f. split; [exact Hin|]. split; [|reflexivity].
    now apply is_supported_accepted.
  - intros (f & Hin & Ha & ->). exists f. split; [reflexivity|].
    apply List.filter_In. split; [exact Hin|]. now apply is_supported_accepted.
Qed.

(** X1. For any directory listing, the paths [scan_images] leaves in
    [image_list] are exactly the paths of the regular files whose
    lowercased suffix is a lowercased configured format, and the scan
    answers [True] exactly when there is such a file. *)
Theorem scan_images_members (es : list File) (b : Bulletin.Board) :
  let c := Bulletin.config b in
  let r := Bulletin.scan_images (Present es) b in
  (forall p, In p (Bulletin.image_list r.2)
             <-> exists f, In f es /\ accepted c f /\
                           p = PyPath.join (Bulletin.image_directory c) (fname f)) /\
  (r.1 = true <-> exists f, In f es /\ accepted c f).
Proof.
  intros c r. subst r. unfold Bulletin.scan_images.
  destruct (scan_entries_spec es b) as (_ & _ & _ & _ & Hr & HP & _).
  fold c in Hr, HP.
  assert (Hin : forall p,
             In p (Bulletin.image_list (Bulletin.scan_entries es b).2)
             <-> In p (Bulletin.collect (Bulletin.image_directory c)
                         (List.map PyStr.lower (Bulletin.supported_formats c)) es)).
  { intros p. split; apply Permutation_in; [exact HP | symmetry; exact HP]. }
  split.
  - intros p. rewrite Hin. apply collect_In.
  - rewrite Hr. split.
    + intros Ht. apply negb_true_iff, bool_decide_eq_false in Ht.
      destruct (Bulletin.collect _ _ es) as [|p ps] eqn:Ec; [contradiction|].
      assert (Hp : In p (Bulletin.collect (Bulletin.image_directory c)
                           (List.map PyStr.lower (Bulletin.supported_formats c)) es))
        by (rewrite Ec; now left).
      apply collect_In in Hp as (f & Hf & Ha & _). eauto.
    + intros (f & Hf & Ha). apply negb_true_iff, bool_decide_eq_false.
      intros Hnil.
      assert (Hp : In (PyPath.join (Bulletin.image_directory c) (fname f))
                      (Bulletin.collect (Bulletin.image_directory c)
                         (List.map PyStr.lower (Bulletin.supported_formats c)) es))
        by (apply collect_In; eauto).
      rewrite Hnil in Hp. destruct Hp.
Qed.

(** ** Steps of the index *)

Section Steps.

Variable pil : Z -> Z -> string -> option Display.Surface.

Lemma advance_image_result (now : Q) (b : Bulletin.Board) :
  Bulletin.image_list b <> [] ->
  exists b',
    Bulletin.advance_image pil now b = Ok tt b' /\
    Bulletin.image_list b' = Bulletin.image_list b /\
    Bulletin.config b' = Bulletin.config b /\
    Bulletin.current_image_index b'
    = (Bulletin.current_image_index b + 1)
        mod Z.of_nat (length (Bulletin.image_list b)) /\
    Bulletin.last_update_time b' = now.
Proof.
  intros Hne. destruct (advance_image_spec pil now b Hne) as (path & _ & Ha).
  eexists. split; [exact Ha|]. simpl.
  destruct (render_frame pil path
              (Bulletin.set_current_image_index
                 ((Bulletin.current_image_index b + 1)
                    mod Z.of_nat (length (Bulletin.image_list b))) b))
    as (Hc & Hl & Hx & _).
  rewrite Hc, Hl, Hx. auto.
Qed.

Lemma left_key_result (dir : DirState) (now : Q) (b : Bulletin.Board) :
  Bulletin.image_list b <> [] ->
  exists b',
    Bulletin.handle_event pil dir now (Bulletin.KEYDOWN Bulletin.K_LEFT) b = Ok None b' /\
    Bulletin.image_list b' = Bulletin.image_list b /\
    Bulletin.config b' = Bulletin.config b /\
    Bulletin.current_image_index b'
    = (Bulletin.current_image_index b - 1)
        mod Z.of_nat (length (Bulletin.image_list b)) /\
    Bulletin.last_update_time b' = Bulletin.last_update_time b.
Proof.
  intros Hne. destruct (left_key_spec pil dir now b Hne) as (path & _ & Ha).
  eexists. split; [exact Ha|].
  destruct (render_frame pil path
              (Bulletin.set_current_image_index
                 ((Bulletin.current_image_index b - 1)
                    mod Z.of_nat (length (Bulletin.image_list b))) b))
    as (Hc & Hl & Hx & Ht).
  rewrite Hc, Hl, Hx, Ht. auto.
Qed.

(** One event that neither quits nor rescans, on a non-empty list. *)
Lemma handle_event_stays (dir : DirState) (now : Q) (e : Bulletin.Event)
    (b : Bulletin.Board) :
  Bulletin.image_list b <> [] ->
  stays e = true ->
  exists b',
    Bulletin.handle_event pil dir now e b = Ok None b' /\
    Bulletin.image_list b' = Bulletin.image_list b /\
    Bulletin.config b' = Bulletin.config b /\
    (step_of e = 0 -> b' = b) /\
    (step_of e <> 0 ->
     Bulletin.current_image_index b'
     = (Bulletin.current_image_index b + step_of e)
         mod Z.of_nat (length (Bulletin.image_list b))).
Proof.
  intros Hne Hs.
  destruct e as [|k|]; [discriminate| |exists b; repeat split; auto; intros H; now destruct H].
  destruct k; try discriminate.
  - destruct (advance_image_result now b Hne) as (b' & Ha & Hl & Hc & Hi & _).
    exists b'. simpl. rewrite Ha. repeat split; auto. discriminate.
  - destruct (left_key_result dir now b Hne) as (b' & Ha & Hl & Hc & Hi & _).
    exists b'. repeat split; auto. discriminate.
  - destruct (advance_image_result now b Hne) as (b' & Ha & Hl & Hc & Hi & _).
    exists b'. simpl. rewrite Ha. repeat split; auto. discriminate.
  - exists b. repeat split; auto. intros H; now destruct H.
Qed.

Lemma index_in_range_nonempty (b : Bulletin.Board) :
  index_in_range b -> Bulletin.image_list b <> [].
Proof.
  unfold index_in_range. intros H Hnil. rewrite Hnil in H. simpl in H. lia.
Qed.

(** A run of such events moves the index by their net displacement. *)
Lemma arrows_index (dir : DirState) (now : Q) (events : list Bulletin.Event) :
  forall b,
    index_in_range b ->
    forallb stays events = true ->
    exists b',
      Bulletin.handle_events pil dir now events b = Ok true b' /\
      Bulletin.image_list b' = Bulletin.image_list b /\
      Bulletin.config b' = Bulletin.config b /\
      Bulletin.current_image_index b'
      = (Bulletin.current_image_index b + net_steps events)
          mod Z.of_nat (length (Bulletin.image_list b)).
Proof.
  induction events as [|e rest IH]; intros b Hr Hs.
  - exists b. simpl. repeat split; auto.
    rewrite Z.add_0_r, Z.mod_small; [reflexivity | exact Hr].
  - simpl in Hs. apply andb_true_iff in Hs as [He Hrest].
    pose proof (index_in_range_nonempty b Hr) as Hne.
    destruct (handle_event_stays dir now e b Hne He) as (b1 & H1 & Hl1 & Hc1 & Hz & Hnz).
    assert (Hi1 : Bulletin.current_image_index b1
                  = (Bulletin.current_image_index b + step_of e)
                      mod Z.of_nat (length (Bulletin.image_list b))).
    { destruct (Z.eq_dec (step_of e) 0) as [E|E].
      - rewrite (Hz E), E, Z.add_0_r, Z.mod_small; [reflexivity | exact Hr].
      - exact (Hnz E). }
    assert (Hr1 : index_in_range b1).
    { unfold index_in_range. rewrite Hi1, Hl1. now apply mod_length_in_range. }
    destruct (IH b1 Hr1 Hrest) as (b' & H' & Hl' & Hc' & Hi').
    exists b'. split; [|split; [congruence|split; [congruence|]]].
    + change (Bulletin.handle_events pil dir now (e :: rest) b)
        with (match Bulletin.handle_event pil dir now e b with
              | Ok (Some r) b0 => Ok r b0
              | Ok None b0 => Bulletin.handle_events pil dir now rest b0
              | Raise e0 b0 => Raise e0 b0
              end).
      rewrite H1. exact H'.
    + rewrite Hi', Hi1, Hl1. simpl.
      rewrite Zplus_mod_idemp_l. f_equal. lia.
Qed.

End Steps.

(** X2. On a board whose index is in range, any run of events without a
    quit or a rescan is handled without exception, leaves the list alone
    and moves the index by the number of forward steps (space, right
    arrow) minus the number of backward steps (left arrow), modulo the
    length. *)
Theorem arrow_keys_displacement
    (pil : Z -> Z -> string -> option Display.Surface)
    (dir : DirState) (now : Q) (events : list Bulletin.Event) (b : Bulletin.Board) :
  index_in_range b ->
  forallb stays events = true ->
  exists b',
    Bulletin.handle_events pil dir now events b = Ok true b' /\
    Bulletin.image_list b' = Bulletin.image_list b /\
    Bulletin.current_image_index b'
    = (Bulletin.current_image_index b + net_steps events)
        mod Z.of_nat (length (Bulletin.image_list b)).
Proof.
  intros Hr Hs. destruct (arrows_index pil dir now events b Hr Hs)
    as (b' & H & Hl & _ & Hi).
  exists b'. auto.
Qed.

Lemma arrow_keys_displacement_witness :
  exists b',
    Bulletin.handle_events sample_pil three_images 1
      [Bulletin.KEYDOWN Bulletin.K_LEFT; Bulletin.OtherEvent;
       Bulletin.KEYDOWN Bulletin.K_SPACE; Bulletin.KEYDOWN Bulletin.K_LEFT] started_board
    = Ok true b' /\
    Bulletin.image_list b' = Bulletin.image_list started_board /\
    Bulletin.current_image_index b' = 2.
Proof.
  apply (arrow_keys_displacement sample_pil three_images 1
           [Bulletin.KEYDOWN Bulletin.K_LEFT; Bulletin.OtherEvent;
            Bulletin.KEYDOWN Bulletin.K_SPACE; Bulletin.KEYDOWN Bulletin.K_LEFT]
           started_board).
  - unfold index_in_range. vm_compute. split; [discriminate | reflexivity].
  - reflexivity.
Defined.

Lemma net_steps_replicate (k : nat) (e : Bulletin.Event) :
  net_steps (replicate k e) = Z.of_nat k * step_of e.
Proof.
  induction k as [|k IH]; [reflexivity|].
  change (net_steps (replicate (S k) e)) with (step_of e + net_steps (replicate k e)).
  rewrite IH. lia.
Qed.

Lemma stays_replicate (k : nat) (e : Bulletin.Event) :
  stays e = true -> forallb stays (replicate k e) = true.
Proof. intros H. induction k; simpl; [reflexivity | now rewrite H]. Qed.

(** X3. As many presses of one key (space, right or left arrow) as there
    are images bring the index back to where it was. *)
Theorem full_cycle
    (pil : Z -> Z -> string -> option Display.Surface)
    (dir : DirState) (now : Q) (e : Bulletin.Event) (b : Bulletin.Board) :
  index_in_range b ->
  stays e = true ->
  exists b',
    Bulletin.handle_events pil dir now
      (replicate (length (Bulletin.image_list b)) e) b = Ok true b' /\
    Bulletin.image_list b' = Bulletin.image_list b /\
    Bulletin.current_image_index b' = Bulletin.current_image_index b.
Proof.
  intros Hr Hs.
  destruct (arrows_index pil dir now _ b Hr
              (stays_replicate (length (Bulletin.image_list b)) e Hs))
    as (b' & H & Hl & _ & Hi).
  exists b'. split; [exact H|]. split; [exact Hl|].
  rewrite Hi, net_steps_replicate, Z.mul_comm, Z.mod_add.
  - apply Z.mod_small, Hr.
  - apply index_in_range_nonempty in Hr.
    destruct (Bulletin.image_list b); [contradiction | simpl; lia].
Qed.

Lemma full_cycle_witness :
  exists b',
    Bulletin.handle_events sample_pil three_images 1
      (replicate (length (Bulletin.image_list started_board))
         (Bulletin.KEYDOWN Bulletin.K_LEFT)) started_board = Ok true b' /\
    Bulletin.image_list b' = Bulletin.image_list started_board /\
    Bulletin.current_image_index b' = Bulletin.current_image_index started_board.
Proof.
  apply (full_cycle sample_pil three_images 1 (Bulletin.KEYDOWN Bulletin.K_LEFT)
           started_board).
  - unfold index_in_range. vm_compute. split; [discriminate | reflexivity].
  - reflexivity.
Defined.

(** ** Quitting, exceptions and the loop *)

Lemma handle_events_cons
    (pil : Z -> Z -> string -> option Display.Surface)
    (dir : DirState) (now : Q) (e : Bulletin.Event) (rest : list Bulletin.Event)
    (b : Bulletin.Board) :
  Bulletin.handle_events pil dir now (e :: rest) b
  = match Bulletin.handle_event pil dir now e b with
    | Ok (Some r) b0 => Ok r b0
    | Ok None b0 => Bulletin.handle_events pil dir now rest b0
    | Raise e0 b0 => Raise e0 b0
    end.
Proof. reflexivity. Qed.

Lemma handle_event_quit
    (pil : Z -> Z -> string -> option Display.Surface)
    (dir : DirState) (now : Q) (q : Bulletin.Event) (b : Bulletin.Board) :
  is_quit q = true ->
  Bulletin.handle_event pil dir now q b = Ok (Some false) b.
Proof.
  destruct q as [|k|]; [reflexivity| |discriminate].
  destruct k; (discriminate || reflexivity).
Qed.

(** X4. A quit event (window close, escape, q) ends [handle_events] with
    [False] on the spot: the events queued behind it in the same batch are
    dropped unhandled, whatever they are. *)
Theorem quit_drops_the_rest
    (pil : Z -> Z -> string -> option Display.Surface)
    (dir : DirState) (now : Q) (pre : list Bulletin.Event) (q : Bulletin.Event)
    (rest : list Bulletin.Event) (b : Bulletin.Board) :
  is_quit q = true ->
  Bulletin.handle_events pil dir now (q :: rest) b = Ok false b /\
  Bulletin.handle_events pil dir now (pre ++ q :: rest) b
  = Bulletin.handle_events pil dir now (pre ++ [q]) b.
Proof.
  intros Hq. split.
  - rewrite handle_events_cons, (handle_event_quit pil dir now q b Hq). reflexivity.
  - revert b. induction pre as [|e pre IH]; intros b.
    + change (Bulletin.handle_events pil dir now (q :: rest) b
              = Bulletin.handle_events pil dir now [q] b).
      rewrite !handle_events_cons, (handle_event_quit pil dir now q b Hq). reflexivity.
    + change (Bulletin.handle_events pil dir now (e :: (pre ++ q :: rest)) b
              = Bulletin.handle_events pil dir now (e :: (pre ++ [q])) b).
      rewrite !handle_events_cons.
      destruct (Bulletin.handle_event pil dir now e b) as [[r|] b0|e0 b0];
        [reflexivity | apply IH | reflexivity].
Qed.

Lemma quit_drops_the_rest_witness :
  Bulletin.handle_events sample_pil three_images 1
    [Bulletin.KEYDOWN Bulletin.K_q; Bulletin.KEYDOWN Bulletin.K_RIGHT] started_board
  = Ok false started_board /\
  Bulletin.handle_events sample_pil three_images 1
    ([Bulletin.KEYDOWN Bulletin.K_LEFT]
     ++ Bulletin.KEYDOWN Bulletin.K_q :: [Bulletin.KEYDOWN Bulletin.K_RIGHT]) started_board
  = Bulletin.handle_events sample_pil three_images 1
      ([Bulletin.KEYDOWN Bulletin.K_LEFT] ++ [Bulletin.KEYDOWN Bulletin.K_q]) started_board.
Proof.
  apply (quit_drops_the_rest sample_pil three_images 1
           [Bulletin.KEYDOWN Bulletin.K_LEFT] (Bulletin.KEYDOWN Bulletin.K_q)
           [Bulletin.KEYDOWN Bulletin.K_RIGHT] started_board).
  reflexivity.
Defined.

Section Loop.

Variable pil : Z -> Z -> string -> option Display.Surface.

(** [advance_image] lets no exception out. *)
Lemma advance_image_total (now : Q) (b : Bulletin.Board) :
  exists b',
    Bulletin.advance_image pil now b = Ok tt b' /\
    Bulletin.image_list b' = Bulletin.image_list b /\
    Bulletin.config b' = Bulletin.config b /\
    (index_in_range b -> index_in_range b').
Proof.
  destruct (decide (Bulletin.image_list b = [])) as [El|Hne].
  - exists b. unfold Bulletin.advance_image. rewrite El. auto.
  - destruct (advance_image_result pil now b Hne) as (b' & Ha & Hl & Hc & Hi & _).
    exists b'. split; [exact Ha|]. split; [exact Hl|]. split; [exact Hc|].
    intros _. unfold index_in_range. rewrite Hi, Hl. now apply mod_length_in_range.
Qed.

(** One event: either it is handled, or it is a left arrow on an empty
    list. *)
Lemma handle_event_outcome (dir : DirState) (now : Q) (e : Bulletin.Event)
    (b : Bulletin.Board) :
  (exists r b', Bulletin.handle_event pil dir now e b = Ok r b') \/
  (Bulletin.handle_event pil dir now e b = Raise ZeroDivisionError b /\
   Bulletin.image_list b = []).
Proof.
  destruct e as [|k|]; [left; eauto| |left; eauto].
  destruct k; try (left; simpl; eauto; fail).
  - destruct (advance_image_total now b) as (b' & Ha & _).
    left. simpl. rewrite Ha. eauto.
  - destruct (decide (Bulletin.image_list b = [])) as [El|Hne].
    + right. simpl. rewrite El. auto.
    + destruct (left_key_result pil dir now b Hne) as (b' & Ha & _).
      left. eauto.
  - destruct (advance_image_total now b) as (b' & Ha & _).
    left. simpl. rewrite Ha. eauto.
Qed.

Lemma handle_events_raise (dir : DirState) (now : Q) (events : list Bulletin.Event) :
  forall b e b',
    Bulletin.handle_events pil dir now events b = Raise e b' ->
    e = ZeroDivisionError /\ Bulletin.image_list b' = [].
Proof.
  induction events as [|ev rest IH]; intros b e b' H; [discriminate|].
  rewrite handle_events_cons in H.
  destruct (handle_event_outcome dir now ev b) as [(r & b1 & H1) | (H1 & Hn)];
    rewrite H1 in H.
  - destruct r; [discriminate | eapply IH; exact H].
  - inversion H; subst. auto.
Qed.

(** A non-empty list and no rescan: one batch of events. *)
Lemma handle_events_without_rescan (dir : DirState) (now : Q)
    (events : list Bulletin.Event) :
  forall b,
    Bulletin.image_list b <> [] ->
    forallb (fun e => negb (is_rescan e)) events = true ->
    exists r b',
      Bulletin.handle_events pil dir now events b = Ok r b' /\
      Bulletin.image_list b' = Bulletin.image_list b /\
      Bulletin.config b' = Bulletin.config b /\
      (index_in_range b -> index_in_range b').
Proof.
  induction events as [|ev rest IH]; intros b Hne Hs.
  - exists true, b. simpl. auto.
  - simpl in Hs. apply andb_true_iff in Hs as [Hev Hrest].
    rewrite handle_events_cons.
    destruct (is_quit ev) eqn:Hq.
    + rewrite (handle_event_quit pil dir now ev b Hq). exists false, b. auto.
    + assert (Hst : stays ev = true) by (unfold stays; now rewrite Hq, Hev).
      destruct (handle_event_stays pil dir now ev b Hne Hst)
        as (b1 & H1 & Hl1 & Hc1 & Hz & Hnz).
      rewrite H1.
      destruct (IH b1) as (r & b' & H' & Hl' & Hc' & Hr'); [congruence | exact Hrest |].
      exists r, b'. split; [exact H'|]. split; [congruence|]. split; [congruence|].
      intros Hr. apply Hr'.
      destruct (Z.eq_dec (step_of ev) 0) as [E|E].
      * now rewrite (Hz E).
      * unfold index_in_range. rewrite (Hnz E), Hl1. now apply mod_length_in_range.
Qed.

End Loop.

(** X5. The only exception the loop of [run] can let out is the
    [ZeroDivisionError] of a left-arrow press on an empty list: whatever
    the events, clock readings and directory contents, [run_loop] raises
    nothing else (in particular no [IndexError] from a stale index), and
    when it raises the list is empty. *)
Theorem run_loop_raises_only_on_empty_list
    (pil : Z -> Z -> string -> option Display.Surface)
    (ticks : list Bulletin.Tick) (b : Bulletin.Board) (e : Exn) (b' : Bulletin.Board) :
  Bulletin.run_loop pil ticks b = Raise e b' ->
  e = ZeroDivisionError /\ Bulletin.image_list b' = [].
Proof.
  revert b. induction ticks as [|t rest IH]; intros b H; [discriminate|].
  simpl in H. unfold Bulletin.loop_body in H.
  destruct (Bulletin.handle_events pil (Bulletin.tick_dir t) (Bulletin.tick_key_time t)
              (Bulletin.tick_events t) b) as [running b1|e1 b1] eqn:He.
  - destruct (advance_image_total pil (Bulletin.tick_auto_time t) b1) as (b2 & Ha & _).
    rewrite Ha in H.
    destruct (Bulletin.timer_due _ _ _); destruct running; try discriminate;
      eapply IH; exact H.
  - inversion H; subst. eapply handle_events_raise. exact He.
Qed.

Lemma run_loop_raises_only_on_empty_list_witness :
  let t := {| Bulletin.tick_events := [Bulletin.KEYDOWN Bulletin.K_LEFT];
              Bulletin.tick_dir := Present [];
              Bulletin.tick_key_time := 2; Bulletin.tick_time := 2;
              Bulletin.tick_auto_time := 2 |} in
  Bulletin.run_loop sample_pil [t] emptied_board = Raise ZeroDivisionError emptied_board /\
  ZeroDivisionError = ZeroDivisionError /\ Bulletin.image_list emptied_board = [].
Proof.
  intros t.
  assert (H : Bulletin.run_loop sample_pil [t] emptied_board
              = Raise ZeroDivisionError emptied_board) by (vm_compute; reflexivity).
  split; [exact H|].
  apply (run_loop_raises_only_on_empty_list sample_pil [t] emptied_board
           ZeroDivisionError emptied_board H).
Defined.

(** X6. As long as no rescan key arrives, a non-empty list stays what it
    is through any number of loop iterations, no exception escapes, and
    an index within bounds stays within bounds. *)
Theorem run_loop_without_rescan
    (pil : Z -> Z -> string -> option Display.Surface)
    (ticks : list Bulletin.Tick) (b : Bulletin.Board) :
  Bulletin.image_list b <> [] ->
  Forall (fun t => forallb (fun e => negb (is_rescan e)) (Bulletin.tick_events t) = true)
         ticks ->
  exists r b',
    Bulletin.run_loop pil ticks b = Ok r b' /\
    Bulletin.image_list b' = Bulletin.image_list b /\
    (index_in_range b -> index_in_range b').
Proof.
  intros Hne Hall. revert b Hne.
  induction Hall as [|t rest Ht _ IH]; intros b Hne.
  - exists true, b. simpl. auto.
  - destruct (handle_events_without_rescan pil (Bulletin.tick_dir t)
                (Bulletin.tick_key_time t) (Bulletin.tick_events t) b Hne Ht)
      as (running & b1 & H1 & Hl1 & _ & Hr1).
    destruct (advance_image_total pil (Bulletin.tick_auto_time t) b1)
      as (b2 & H2 & Hl2 & _ & Hr2).
    assert (Hbody : exists b3,
               Bulletin.loop_body pil t b = Ok running b3 /\
               Bulletin.image_list b3 = Bulletin.image_list b /\
               (index_in_range b -> index_in_range b3)).
    { unfold Bulletin.loop_body. rewrite H1.
      destruct (Bulletin.timer_due _ _ _).
      - rewrite H2. exists b2. split; [reflexivity|]. split; [congruence | auto].
      - exists b1. auto. }
    destruct Hbody as (b3 & H3 & Hl3 & Hr3).
    simpl. rewrite H3. destruct running.
    + destruct (IH b3) as (r & b' & H' & Hl' & Hr'); [congruence|].
      exists r, b'. split; [exact H'|]. split; [congruence | auto].
    + eexists false, _. split; [reflexivity|]. split; [exact Hl3 | exact Hr3].
Qed.

Lemma run_loop_without_rescan_witness :
  let t1 := {| Bulletin.tick_events := [Bulletin.KEYDOWN Bulletin.K_LEFT];
               Bulletin.tick_dir := three_images;
               Bulletin.tick_key_time := 2; Bulletin.tick_time := 2;
               Bulletin.tick_auto_time := 2 |} in
  let t2 := {| Bulletin.tick_events := [Bulletin.QUIT];
               Bulletin.tick_dir := three_images;
               Bulletin.tick_key_time := 12; Bulletin.tick_time := 12;
               Bulletin.tick_auto_time := 12 |} in
  exists r b',
    Bulletin.run_loop sample_pil [t1; t2] started_board = Ok r b' /\
    Bulletin.image_list b' = Bulletin.image_list started_board /\
    (index_in_range started_board -> index_in_range b').
Proof.
  intros t1 t2.
  apply (run_loop_without_rescan sample_pil [t1; t2] started_board).
  - discriminate.
  - repeat constructor.
Defined.

(** ** The timer, unreadable images, centring, start-up *)

(** The subtraction of the test is rounded: with readings 15 and
    5 + 2^-50 and a hold of 10 seconds the test holds, although the exact
    difference is below 10; a quarter of a second earlier it does not. *)
Lemma timer_due_is_rounded :
  (15 - (5 + (1 # 2 ^ 50)) < 10)%Q /\
  Bulletin.timer_due 15 (5 + (1 # 2 ^ 50)) 10 = true /\
  Bulletin.timer_due (59 # 4) (5 + (1 # 2 ^ 50)) 10 = false.
Proof. evaluate. Qed.

(** X7. A right-arrow (or space) press resets the hold timer: the test
    of the same loop iteration is made against the time stamped by the
    key's advance, so as long as that test (the binary64 difference of
    the loop's clock reading and the key's time, compared with
    [display_duration]) is false, the timed advance does not fire on top
    of the key and the index moves by exactly one. *)
Theorem manual_advance_holds_timer
    (pil : Z -> Z -> string -> option Display.Surface)
    (t : Bulletin.Tick) (b : Bulletin.Board) :
  Bulletin.image_list b <> [] ->
  (Bulletin.tick_events t = [Bulletin.KEYDOWN Bulletin.K_RIGHT] \/
   Bulletin.tick_events t = [Bulletin.KEYDOWN Bulletin.K_SPACE]) ->
  Bulletin.timer_due (Bulletin.tick_time t) (Bulletin.tick_key_time t)
    (Bulletin.display_duration (Bulletin.config b)) = false ->
  exists b',
    Bulletin.loop_body pil t b = Ok true b' /\
    Bulletin.current_image_index b'
    = (Bulletin.current_image_index b + 1)
        mod Z.of_nat (length (Bulletin.image_list b)) /\
    Bulletin.last_update_time b' = Bulletin.tick_key_time t.
Proof.
  intros Hne Hev Hdue.
  destruct (advance_image_result pil (Bulletin.tick_key_time t) b Hne)
    as (b' & Ha & Hl & Hc & Hi & Ht).
  exists b'. split; [|auto].
  unfold Bulletin.loop_body.
  assert (He : Bulletin.handle_events pil (Bulletin.tick_dir t)
                 (Bulletin.tick_key_time t) (Bulletin.tick_events t) b = Ok true b').
  { destruct Hev as [-> | ->]; rewrite handle_events_cons; simpl; now rewrite Ha. }
  rewrite He, Hc, Ht, Hdue. reflexivity.
Qed.

Lemma manual_advance_holds_timer_witness :
  let t := {| Bulletin.tick_events := [Bulletin.KEYDOWN Bulletin.K_RIGHT];
              Bulletin.tick_dir := three_images;
              Bulletin.tick_key_time := 12; Bulletin.tick_time := 13;
              Bulletin.tick_auto_time := 13 |} in
  exists b',
    Bulletin.loop_body sample_pil t started_board = Ok true b' /\
    Bulletin.current_image_index b'
    = (Bulletin.current_image_index started_board + 1)
        mod Z.of_nat (length (Bulletin.image_list started_board)) /\
    Bulletin.last_update_time b' = 12%Q.
Proof.
  intros t.
  apply (manual_advance_holds_timer sample_pil t started_board).
  - discriminate.
  - left. reflexivity.
  - reflexivity.
Defined.

(** X8. When the image at the next index cannot be loaded,
    [advance_image] still moves the index and resets the timer, logs the
    error, makes no drawing call and raises nothing: the monitor keeps
    the previous frame. *)
Theorem advance_over_unreadable_image
    (pil : Z -> Z -> string -> option Display.Surface)
    (now : Q) (b : Bulletin.Board) (path : string) :
  let i' := (Bulletin.current_image_index b + 1)
              mod Z.of_nat (length (Bulletin.image_list b)) in
  Bulletin.image_list b !! Z.to_nat i' = Some path ->
  pil (Bulletin.screen_width b) (Bulletin.screen_height b) path = None ->
  exists b',
    Bulletin.advance_image pil now b = Ok tt b' /\
    Bulletin.display b' = Bulletin.display b /\
    Bulletin.current_image_index b' = i' /\
    Bulletin.last_update_time b' = now /\
    Bulletin.log b'
    = (Bulletin.log b ++ [Bulletin.InfoDisplaying path; Bulletin.ErrorLoading path])%list.
Proof.
  intros i' Hp Hn.
  assert (Hne : Bulletin.image_list b <> []).
  { intros Hnil. rewrite Hnil in Hp. discriminate. }
  destruct (advance_image_spec pil now b Hne) as (path' & Hp' & Ha).
  fold i' in Hp', Ha. rewrite Hp in Hp'. inversion Hp'; subst path'.
  eexists. split; [exact Ha|].
  unfold render, Bulletin.load_and_scale_image. simpl. rewrite Hn. simpl.
  repeat split. now rewrite <- app_assoc.
Qed.

Lemma advance_over_unreadable_image_witness :
  let b := state_of (Bulletin.run_start sample_pil broken_dir (sample_board false)) in
  Bulletin.image_list b = ["images/a.png"; "images/broken.png"] /\
  exists b',
    Bulletin.advance_image sample_pil 3 b = Ok tt b' /\
    Bulletin.display b' = Bulletin.display b /\
    Bulletin.current_image_index b' = 1 /\
    Bulletin.last_update_time b' = 3%Q /\
    Bulletin.log b'
    = (Bulletin.log b ++ [Bulletin.InfoDisplaying "images/broken.png";
                          Bulletin.ErrorLoading "images/broken.png"])%list.
Proof.
  intros b. split; [reflexivity|].
  apply (advance_over_unreadable_image sample_pil 3 b "images/broken.png");
    reflexivity.
Defined.

(** X9. A surface no larger than the screen is drawn entirely on the
    screen: [display_image] places it with non-negative margins that
    differ by at most one pixel between left and right and between top
    and bottom, and every pixel of the surface is visible at its place
    after the flip. *)
Theorem display_image_fits (s : Display.Surface) (b : Bulletin.Board) :
  let scr := Display.screen (Bulletin.display b) in
  let r := centered_rect s scr in
  0 <= Display.width s <= Display.width scr ->
  0 <= Display.height s <= Display.height scr ->
  (0 <= Display.left r /\ Display.left r + Display.width s <= Display.width scr /\
   0 <= Display.top r /\ Display.top r + Display.height s <= Display.height scr) /\
  (-1 <= (Display.width scr - (Display.left r + Display.width s)) - Display.left r <= 1 /\
   -1 <= (Display.height scr - (Display.top r + Display.height s)) - Display.top r <= 1) /\
  forall i j,
    0 <= i < Display.width s -> 0 <= j < Display.height s ->
    Display.visible (Bulletin.display (Bulletin.display_image (Some s) b))
      (Display.left r + i) (Display.top r + j)
    = Display.pixel s i j.
Proof.
  intros scr r Hw Hh.
  assert (Hl : Display.left r = Display.width scr / 2 - Display.width s / 2).
  { subst r. unfold centered_rect, Display.set_center, Display.center, Display.get_rect.
    simpl. rewrite !Z.quot_div_nonneg by lia. lia. }
  assert (Ht : Display.top r = Display.height scr / 2 - Display.height s / 2).
  { subst r. unfold centered_rect, Display.set_center, Display.center, Display.get_rect.
    simpl. rewrite !Z.quot_div_nonneg by lia. lia. }
  split; [|split].
  - rewrite Hl, Ht. Z.to_euclidean_division_equations. lia.
  - rewrite Hl, Ht. Z.to_euclidean_division_equations. lia.
  - intros i j Hi Hj.
    change (Display.visible (Bulletin.display (Bulletin.display_image (Some s) b))
              (Display.left r + i) (Display.top r + j))
      with (if Display.inside
                 {| Display.left := Display.left r; Display.top := Display.top r;
                    Display.rw := Display.width s; Display.rh := Display.height s |}
                 (Display.left r + i) (Display.top r + j)
            then Display.pixel s (Display.left r + i - Display.left r)
                   (Display.top r + j - Display.top r)
            else Bulletin.background_color (Bulletin.config b)).
    clear Hl Ht. generalize (Display.left r) (Display.top r). intros x0 y0.
    unfold Display.inside. cbn [Display.left Display.top Display.rw Display.rh].
    replace (x0 <=? x0 + i) with true by (symmetry; apply Z.leb_le; lia).
    replace (x0 + i <? x0 + Display.width s) with true
      by (symmetry; apply Z.ltb_lt; lia).
    replace (y0 <=? y0 + j) with true by (symmetry; apply Z.leb_le; lia).
    replace (y0 + j <? y0 + Display.height s) with true
      by (symmetry; apply Z.ltb_lt; lia).
    cbn [andb]. f_equal; lia.
Qed.

Lemma display_image_fits_witness :
  let s := plain 5 2 (200, 0, 0) in
  let r := centered_rect s (Display.screen (Bulletin.display started_board)) in
  (Display.left r = 2 /\ Display.top r = 2) /\
  (0 <= Display.left r /\ Display.left r + 5 <= 8 /\
   0 <= Display.top r /\ Display.top r + 2 <= 6) /\
  (-1 <= (8 - (Display.left r + 5)) - Display.left r <= 1 /\
   -1 <= (6 - (Display.top r + 2)) - Display.top r <= 1) /\
  forall i j,
    0 <= i < 5 -> 0 <= j < 2 ->
    Display.visible (Bulletin.display (Bulletin.display_image (Some s) started_board))
      (Display.left r + i) (Display.top r + j)
    = (200, 0, 0).
Proof.
  intros s r. split; [split; reflexivity|].
  apply (display_image_fits s started_board); simpl; lia.
Defined.

(** X10. When the directory holds no regular file with a supported
    suffix, [run] logs the error and returns before its loop: the list is
    empty, nothing is drawn and nothing is presented. *)
Theorem run_without_images
    (pil : Z -> Z -> string -> option Display.Surface)
    (es : list File) (b : Bulletin.Board) :
  (forall f, In f es -> ~ accepted (Bulletin.config b) f) ->
  exists b',
    Bulletin.run_start pil (Present es) b = Ok None b' /\
    Bulletin.image_list b' = [] /\
    Bulletin.display b' = Bulletin.display b /\
    Bulletin.log b'
    = (Bulletin.log b ++ [Bulletin.InfoStarting; Bulletin.ErrorNoImages;
                          Bulletin.ErrorExiting])%list.
Proof.
  intros Hnone.
  assert (Hc : Bulletin.collect (Bulletin.image_directory (Bulletin.config b))
                 (List.map PyStr.lower (Bulletin.supported_formats (Bulletin.config b))) es
               = []).
  { destruct (Bulletin.collect _ _ es) as [|p ps] eqn:Ec; [reflexivity|].
    assert (Hp : In p (Bulletin.collect (Bulletin.image_directory (Bulletin.config b))
                         (List.map PyStr.lower
                            (Bulletin.supported_formats (Bulletin.config b))) es))
      by (rewrite Ec; now left).
    apply collect_In in Hp as (f & Hf & Ha & _). destruct (Hnone f Hf Ha). }
  unfold Bulletin.run_start, Bulletin.scan_images, Bulletin.scan_entries.
  simpl. rewrite Hc. simpl. eexists. split; [reflexivity|].
  simpl. repeat split. now rewrite <- !app_assoc.
Qed.

Lemma run_without_images_witness :
  let es := [regular "notes.txt" 0 "n"; regular ".png" 0 "p";
             {| fname := "old.png"; is_file := false; mtime := 0; data := "" |}] in
  exists b',
    Bulletin.run_start sample_pil (Present es) (sample_board false) = Ok None b' /\
    Bulletin.image_list b' = [] /\
    Bulletin.display b' = Bulletin.display (sample_board false) /\
    Bulletin.log b'
    = (Bulletin.log (sample_board false)
       ++ [Bulletin.InfoStarting; Bulletin.ErrorNoImages; Bulletin.ErrorExiting])%list.
Proof.
  intros es.
  apply (run_without_images sample_pil es (sample_board false)).
  intros f Hf [Hfile Hsuf].
  simpl in Hf. destruct Hf as [<-|[<-|[<-|[]]]]; simpl in Hfile, Hsuf;
    try discriminate;
    repeat (destruct Hsuf as [Hsuf|Hsuf]; [discriminate|]); destruct Hsuf.
Defined.

(** * Further properties of the synchroniser *)

(** ** Strings *)

Lemma drop_empty (i : nat) : PyStr.drop i "" = "".
Proof. destruct i; reflexivity. Qed.

Lemma lower_drop (i : nat) (s : string) :
  PyStr.lower (PyStr.drop i s) = PyStr.drop i (PyStr.lower s).
Proof.
  revert s. induction i as [|i IH]; intros s; [reflexivity|].
  destruct s as [|c r]; [reflexivity|]. simpl. apply IH.
Qed.

Lemma lower_length (s : string) : String.length (PyStr.lower s) = String.length s.
Proof. induction s as [|c r IH]; simpl; [reflexivity | now rewrite IH]. Qed.

Lemma drop_length (i : nat) (s : string) :
  String.length (PyStr.drop i s) = (String.length s - i)%nat.
Proof.
  revert s. induction i as [|i IH]; intros s; simpl; [lia|].
  destruct s as [|c r]; simpl; [reflexivity | apply IH].
Qed.

Lemma endswith_drop (i : nat) (s : string) :
  (i <= String.length s)%nat -> PyStr.endswith s (PyStr.drop i s) = true.
Proof.
  intros H. unfold PyStr.endswith. rewrite drop_length.
  replace (String.length s - (String.length s - i))%nat with i by lia.
  apply String.eqb_refl.
Qed.

Lemma drop_all (s : string) : PyStr.drop (String.length s) s = "".
Proof. induction s as [|c r IH]; simpl; [reflexivity | exact IH]. Qed.

Lemma endswith_empty (s : string) : PyStr.endswith s "" = true.
Proof.
  unfold PyStr.endswith. simpl. rewrite Nat.sub_0_r, drop_all. reflexivity.
Qed.

(** A name ends with its own suffix. *)
Lemma endswith_suffix (n : string) :
  PyStr.endswith (PyStr.lower n) (PyStr.lower (PyPath.suffix n)) = true.
Proof.
  unfold PyPath.suffix.
  destruct (PyStr.rfind "." n) as [i|]; [|apply endswith_empty].
  destruct (_ && _) eqn:E; [|apply endswith_empty].
  rewrite lower_drop. apply endswith_drop. rewrite lower_length.
  apply andb_true_iff in E as [_ E]. apply Z.ltb_lt in E. lia.
Qed.

(** X11. Every file with an ASCII name that the rotator's scan accepts
    is an image for the synchroniser as well, when both are given the same
    formats ([lowered] is the list both make of them with [lower]): what
    the board shows is then subject to pruning. For an ASCII name
    [str.lower] is the lowering of the embedding; a name with other
    letters can lowercase differently as a whole than its suffix does. *)
Theorem scanned_files_are_managed (lowered : list string) (s : Fetcher.Sync) (f : File) :
  isascii (fname f) = true ->
  Fetcher.supported_formats s = lowered ->
  Bulletin.is_supported lowered f = true ->
  Fetcher.is_supported_image s (fname f) = true.
Proof.
  intros _ Hf Hs. unfold Bulletin.is_supported in Hs.
  apply andb_true_iff in Hs as [_ Hm]. apply mem_In in Hm.
  unfold Fetcher.is_supported_image. rewrite Hf.
  apply existsb_exists. exists (PyStr.lower (PyPath.suffix (fname f))).
  split; [exact Hm | apply endswith_suffix].
Qed.

Lemma scanned_files_are_managed_witness :
  Fetcher.is_supported_image sync_AB "Photo.JPeG" = true.
Proof.
  apply (scanned_files_are_managed (List.map PyStr.lower default_formats) sync_AB
           (regular "Photo.JPeG" 0 ""));
    reflexivity.
Defined.

(** ** Files: lookup and write *)

Lemma lookup_file_Some (n : string) (l : list File) (f : File) :
  Fetcher.lookup_file n l = Some f -> In f l /\ fname f = n.
Proof.
  unfold Fetcher.lookup_file. intros H. apply List.find_some in H as [Hin He].
  split; [exact Hin | now apply String.eqb_eq].
Qed.

Lemma lookup_file_None (n : string) (l : list File) :
  Fetcher.lookup_file n l = None <-> ~ In n (List.map fname l).
Proof.
  unfold Fetcher.lookup_file. induction l as [|g l IH]; simpl.
  - split; [intros _ [] | reflexivity].
  - destruct (String.eqb (fname g) n) eqn:E.
    + apply String.eqb_eq in E. split; [discriminate | intros H; destruct H; now left].
    + apply String.eqb_neq in E. rewrite IH. tauto.
Qed.

Lemma lookup_file_present (n : string) (l : list File) :
  In n (List.map fname l) -> exists f, Fetcher.lookup_file n l = Some f.
Proof.
  intros H. destruct (Fetcher.lookup_file n l) as [f|] eqn:E; [eauto|].
  apply lookup_file_None in E. contradiction.
Qed.

Lemma write_file_lookup (n c : string) (t : Q) (l l' : list File) :
  Fetcher.write_file n c t l = Some l' ->
  Fetcher.lookup_file n l' = Some (regular n t c) /\
  (forall m, m <> n -> Fetcher.lookup_file m l' = Fetcher.lookup_file m l).
Proof.
  revert l'. induction l as [|g l IH]; intros l' H; simpl in H.
  - inversion H; subst. unfold Fetcher.lookup_file. simpl.
    rewrite String.eqb_refl. split; [reflexivity|].
    intros m Hm. apply String.eqb_neq in Hm. rewrite String.eqb_sym in Hm.
    now rewrite Hm.
  - destruct (String.eqb (fname g) n) eqn:E.
    + destruct (is_file g); [|discriminate]. inversion H; subst.
      apply String.eqb_eq in E.
      unfold Fetcher.lookup_file. simpl. rewrite String.eqb_refl.
      split; [reflexivity|]. intros m Hm.
      assert (E1 : String.eqb n m = false) by (apply String.eqb_neq; congruence).
      assert (E2 : String.eqb (fname g) m = false) by (apply String.eqb_neq; congruence).
      now rewrite E1, E2.
    + destruct (Fetcher.write_file n c t l) as [r|]; [|discriminate].
      inversion H; subst. destruct (IH r eq_refl) as [H1 H2].
      unfold Fetcher.lookup_file in *. simpl. rewrite E. split; [exact H1|].
      intros m Hm. destruct (String.eqb (fname g) m); [reflexivity | now apply H2].
Qed.

Lemma write_file_names (n c : string) (t : Q) (l l' : list File) :
  Fetcher.write_file n c t l = Some l' ->
  List.map fname l'
  = (List.map fname l ++ if PyStr.mem n (List.map fname l) then [] else [n])%list.
Proof.
  revert l'. induction l as [|g l IH]; intros l' H; simpl in H.
  - inversion H; subst. reflexivity.
  - unfold PyStr.mem. simpl. rewrite String.eqb_sym.
    destruct (String.eqb (fname g) n) eqn:E.
    + destruct (is_file g); [|discriminate]. inversion H; subst. simpl.
      apply String.eqb_eq in E. rewrite E, app_nil_r. reflexivity.
    + destruct (Fetcher.write_file n c t l) as [r|]; [|discriminate].
      inversion H; subst. simpl. rewrite (IH r eq_refl). reflexivity.
Qed.

Lemma write_file_distinct (n c : string) (t : Q) (l l' : list File) :
  Fetcher.write_file n c t l = Some l' ->
  distinct_names l -> distinct_names l'.
Proof.
  intros H Hd. unfold distinct_names in *. rewrite (write_file_names _ _ _ _ _ H).
  destruct (PyStr.mem n (List.map fname l)) eqn:E.
  - now rewrite app_nil_r.
  - apply NoDup_app. split; [exact Hd|]. split; [|apply NoDup_singleton].
    intros x Hx Hx'. apply list_elem_of_singleton in Hx'. subst x.
    apply list_elem_of_In, mem_In in Hx. congruence.
Qed.

(** A write leaves alone every entry that is not the regular file of
    that name. *)
Lemma write_file_keeps (n c : string) (t : Q) (l l' : list File) (f : File) :
  Fetcher.write_file n c t l = Some l' ->
  In f l -> is_file f = false \/ fname f <> n -> In f l'.
Proof.
  revert l'. induction l as [|g l IH]; intros l' H Hin Hf; [destruct Hin|].
  simpl in H. destruct (String.eqb (fname g) n) eqn:E.
  - destruct (is_file g) eqn:Eg; [|discriminate]. inversion H; subst.
    destruct Hin as [->|Hin]; [|now right].
    apply String.eqb_eq in E. destruct Hf; congruence.
  - destruct (Fetcher.write_file n c t l) as [r|]; [|discriminate].
    inversion H; subst. destruct Hin as [->|Hin]; [now left | right; eauto].
Qed.

Lemma write_file_absent (n c : string) (t : Q) (l : list File) :
  Fetcher.lookup_file n l = None ->
  exists l', Fetcher.write_file n c t l = Some l'.
Proof.
  unfold Fetcher.lookup_file. induction l as [|g l IH]; simpl; intros H; [eauto|].
  destruct (String.eqb (fname g) n); [discriminate|].
  destruct (IH H) as [l' ->]. eauto.
Qed.

(** ** One download *)

Lemma fetch_cases (drive : Fetcher.Drive) (host : Fetcher.Host)
    (fi : Fetcher.DriveFile) (s : Fetcher.Sync) :
  (forall f t, Fetcher.lookup_file (Fetcher.name fi) (Fetcher.local_files s) = Some f ->
               Fetcher.drive_mtime host fi = Some t -> ~ (t <= mtime f)%Q) ->
  download_case drive host fi s (Fetcher.fetch drive host fi s).1
    (Fetcher.fetch drive host fi s).2.
Proof.
  intros Hold. unfold Fetcher.fetch.
  destruct (Fetcher.service s) eqn:Hs; simpl.
  - destruct (Fetcher.get_media drive (Fetcher.id fi)) as [c|] eqn:Hg; simpl.
    + destruct (Fetcher.write_file _ c _ _) as [l|] eqn:Hw; simpl.
      * eapply Fetched; eauto.
      * apply Failed; simpl; [reflexivity | rewrite length_app; simpl; lia].
    + apply Failed; simpl; [reflexivity | rewrite length_app; simpl; lia].
  - apply Failed; simpl; [reflexivity | rewrite length_app; simpl; lia].
Qed.

Lemma download_file_cases (drive : Fetcher.Drive) (host : Fetcher.Host)
    (fi : Fetcher.DriveFile) (s : Fetcher.Sync) :
  download_case drive host fi s (Fetcher.download_file drive host fi s).1
    (Fetcher.download_file drive host fi s).2.
Proof.
  unfold Fetcher.download_file.
  destruct (Fetcher.lookup_file _ _) as [f|] eqn:Hl.
  - destruct (Fetcher.drive_mtime host fi) as [t|] eqn:Ht.
    + destruct (Qle_bool t (mtime f)) eqn:Hq.
      * apply Qle_bool_iff in Hq. eapply Skipped; eauto.
      * apply fetch_cases. intros f' t' Hf' Ht'.
        rewrite Hl in Hf'. rewrite Ht in Ht'.
        inversion Hf'; inversion Ht'; subst. intros Hle.
        apply Qle_bool_iff in Hle. congruence.
    + apply Failed; simpl; [reflexivity | rewrite length_app; simpl; lia].
  - apply fetch_cases. intros f' t' Hf'. rewrite Hl in Hf'. discriminate.
Qed.



(** X13. Downloading the same record again right after a successful
    download requests nothing and changes nothing, provided the time
    [mktime] derives from the record is not later than the time of the
    write. *)
Theorem download_file_again (drive : Fetcher.Drive) (host : Fetcher.Host)
    (fi : Fetcher.DriveFile) (s s1 : Fetcher.Sync) (t : Q) :
  Fetcher.download_file drive host fi s = (true, s1) ->
  Fetcher.drive_mtime host fi = Some t ->
  (t <= Fetcher.write_time host)%Q ->
  Fetcher.download_file drive host fi s1 = (true, s1).
Proof.
  intros Hd Ht Hle. pose proof (download_file_cases drive host fi s) as H.
  rewrite Hd in H. simpl in H.
  inversion H as [f t0 Hl Ht0 Hle0 | | c l s0 Hs Hg Hw Hloc Hreq Hold]; subst.
  - eapply download_file_skips; eauto.
  - destruct (write_file_lookup _ _ _ _ _ Hw) as [H1 _].
    eapply download_file_skips; [exact H1 | exact Ht | exact Hle].
Qed.

Lemma download_file_again_witness :
  let s := Fetcher.init default_formats 300 true [] in
  let s1 := (Fetcher.download_file drive_A utc_host remote_A s).2 in
  Fetcher.local_files s1 = [regular "A.png" 1709300000 "new bytes"] /\
  Fetcher.download_file drive_A utc_host remote_A s1 = (true, s1).
Proof.
  intros s s1. split; [reflexivity|].
  apply (download_file_again drive_A utc_host remote_A s s1 1709294400).
  - reflexivity.
  - reflexivity.
  - vm_compute. discriminate.
Defined.

(** ** Timestamps *)

Lemma split_at_without (p : ascii -> bool) (s : string) :
  has_char p s = false -> PyTime.split_at p s = None.
Proof.
  induction s as [|c r IH]; simpl; [reflexivity|].
  intros H. apply orb_false_iff in H as [Hc Hr]. rewrite Hc, (IH Hr). reflexivity.
Qed.

Lemma split_at_rest (p q : ascii -> bool) (s f rest : string) :
  PyTime.split_at q s = Some (f, rest) ->
  has_char p s = false -> has_char p rest = false.
Proof.
  revert f rest. induction s as [|c r IH]; intros f rest H Hp; [discriminate|].
  simpl in H, Hp. apply orb_false_iff in Hp as [_ Hr].
  destruct (q c).
  - inversion H; subst. exact Hr.
  - destruct (PyTime.split_at q r) as [[f' rest']|] eqn:E; [|discriminate].
    inversion H; subst. eapply IH; eauto.
Qed.

Lemma strptime_needs_fraction (s : string) :
  has_char (PyTime.eq_char ".") s = false -> PyTime.strptime s = None.
Proof.
  intros H. unfold PyTime.strptime.
  destruct (PyTime.split_at (PyTime.eq_char "-") s) as [[fy s1]|] eqn:E1; [|reflexivity].
  pose proof (split_at_rest _ _ _ _ _ E1 H) as H1. simpl.
  destruct (PyTime.split_at (PyTime.eq_char "-") s1) as [[fm s2]|] eqn:E2; [|reflexivity].
  pose proof (split_at_rest _ _ _ _ _ E2 H1) as H2. simpl.
  destruct (PyTime.split_at (PyTime.eq_letter "T") s2) as [[fd s3]|] eqn:E3; [|reflexivity].
  pose proof (split_at_rest _ _ _ _ _ E3 H2) as H3. simpl.
  destruct (PyTime.split_at (PyTime.eq_char ":") s3) as [[fH s4]|] eqn:E4; [|reflexivity].
  pose proof (split_at_rest _ _ _ _ _ E4 H3) as H4. simpl.
  destruct (PyTime.split_at (PyTime.eq_char ":") s4) as [[fM s5]|] eqn:E5; [|reflexivity].
  pose proof (split_at_rest _ _ _ _ _ E5 H4) as H5. simpl.
  now rewrite (split_at_without _ _ H5).
Qed.

(** X14. A remote timestamp without a fractional part ('.' absent, as in
    2024-03-01T12:00:00Z) does not match the format of [strptime]: for a
    file that exists locally [download_file] then logs an error and
    returns [False] without requesting anything, so the local copy is
    never refreshed. *)
Theorem download_file_plain_timestamp (drive : Fetcher.Drive) (host : Fetcher.Host)
    (fi : Fetcher.DriveFile) (s : Fetcher.Sync) (f : File) :
  has_char (PyTime.eq_char ".") (Fetcher.modifiedTime fi) = false ->
  Fetcher.lookup_file (Fetcher.name fi) (Fetcher.local_files s) = Some f ->
  PyTime.strptime (Fetcher.modifiedTime fi) = None /\
  Fetcher.download_file drive host fi s
  = (false, Fetcher.logging (Fetcher.ErrorDownloading (Fetcher.name fi)) s).
Proof.
  intros Hc Hl. pose proof (strptime_needs_fraction _ Hc) as Hp.
  split; [exact Hp|].
  unfold Fetcher.download_file, Fetcher.drive_mtime. now rewrite Hl, Hp.
Qed.

Lemma download_file_plain_timestamp_witness :
  PyTime.strptime (Fetcher.modifiedTime remote_plain) = None /\
  Fetcher.download_file drive_A utc_host remote_plain sync_A
  = (false, Fetcher.logging (Fetcher.ErrorDownloading "A.png") sync_A).
Proof.
  apply (download_file_plain_timestamp drive_A utc_host remote_plain sync_A local_A);
    reflexivity.
Defined.

(** X15. For a file that exists locally and a timestamp that parses,
    [download_file] skips exactly when the local modification time is at
    least the remote instant minus the host's offset from UTC: east of
    UTC remote changes up to that offset newer than the local copy are
    skipped, west of UTC copies up to that offset newer than the remote
    are fetched again. *)
Theorem skip_test_is_shifted (drive : Fetcher.Drive) (host : Fetcher.Host)
    (fi : Fetcher.DriveFile) (s : Fetcher.Sync) (f : File) (tm : PyTime.struct_time) :
  Fetcher.lookup_file (Fetcher.name fi) (Fetcher.local_files s) = Some f ->
  PyTime.strptime (Fetcher.modifiedTime fi) = Some tm ->
  (Fetcher.download_file drive host fi s = (true, s)
   <-> (inject_Z (PyTime.timegm tm - Fetcher.utc_offset host) <= mtime f)%Q).
Proof.
  intros Hl Hp.
  assert (Ht : Fetcher.drive_mtime host fi
               = Some (inject_Z (PyTime.timegm tm - Fetcher.utc_offset host))).
  { unfold Fetcher.drive_mtime, PyTime.mktime. now rewrite Hp. }
  split.
  - intros Hd. pose proof (download_file_cases drive host fi s) as H.
    rewrite Hd in H. simpl in H.
    inversion H as [f0 t0 Hl0 Ht0 Hle0 | | c l s0 Hs Hg Hw Hloc Hreq Hold]; subst.
    + rewrite Hl in Hl0. rewrite Ht in Ht0. inversion Hl0; inversion Ht0; subst.
      exact Hle0.
    + apply (f_equal (@length _)) in Hreq. rewrite length_app in Hreq.
      simpl in Hreq. lia.
  - intros Hle. eapply download_file_skips; eauto.
Qed.

Lemma skip_test_is_shifted_witness :
  let stale := Fetcher.init default_formats 300 true
                 [regular "A.png" 1709291000 "old bytes"] in
  PyTime.timegm <$> PyTime.strptime (Fetcher.modifiedTime remote_A) = Some 1709294400 /\
  (1709291000 < 1709294400)%Q /\
  Fetcher.download_file drive_A east_host remote_A stale = (true, stale).
Proof.
  intros stale. split; [reflexivity|]. split; [reflexivity|].
  apply (proj2 (skip_test_is_shifted drive_A east_host remote_A stale
                  (regular "A.png" 1709291000 "old bytes")
                  {| PyTime.tm_year := 2024; PyTime.tm_mon := 3; PyTime.tm_mday := 1;
                     PyTime.tm_hour := 12; PyTime.tm_min := 0; PyTime.tm_sec := 0 |}
                  eq_refl eq_refl)).
  vm_compute. discriminate.
Defined.

(** ** A whole pass *)

Lemma download_file_distinct (drive : Fetcher.Drive) (host : Fetcher.Host)
    (fi : Fetcher.DriveFile) (s : Fetcher.Sync) :
  distinct_names (Fetcher.local_files s) ->
  distinct_names (Fetcher.local_files (Fetcher.download_file drive host fi s).2).
Proof.
  intros Hd. pose proof (download_file_cases drive host fi s) as H.
  destruct (Fetcher.download_file drive host fi s) as [ok s']. simpl in *.
  inversion H as [f t Hl Ht Hle | s0 Hloc Hlog | c l s0 Hs Hg Hw Hloc Hreq Hold]; subst.
  - exact Hd.
  - now rewrite Hloc.
  - eapply write_file_distinct; eauto.
Qed.

(** No download removes a name from the directory. *)
Lemma download_file_names (drive : Fetcher.Drive) (host : Fetcher.Host)
    (fi : Fetcher.DriveFile) (s : Fetcher.Sync) (m : string) :
  In m (List.map fname (Fetcher.local_files s)) ->
  In m (List.map fname (Fetcher.local_files (Fetcher.download_file drive host fi s).2)).
Proof.
  intros Hm. pose proof (download_file_cases drive host fi s) as H.
  destruct (Fetcher.download_file drive host fi s) as [ok s']. simpl in *.
  inversion H as [f t Hl Ht Hle | s0 Hloc Hlog | c l s0 Hs Hg Hw Hloc Hreq Hold]; subst.
  - exact Hm.
  - now rewrite Hloc.
  - rewrite (write_file_names _ _ _ _ _ Hw). apply in_or_app. now left.
Qed.

Lemma download_file_keeps (drive : Fetcher.Drive) (host : Fetcher.Host)
    (fi : Fetcher.DriveFile) (s : Fetcher.Sync) (f : File) :
  In f (Fetcher.local_files s) ->
  is_file f = false \/ fname f <> Fetcher.name fi ->
  In f (Fetcher.local_files (Fetcher.download_file drive host fi s).2).
Proof.
  intros Hin Hf. pose proof (download_file_cases drive host fi s) as H.
  destruct (Fetcher.download_file drive host fi s) as [ok s']. simpl in *.
  inversion H as [f0 t Hl Ht Hle | s0 Hloc Hlog | c l s0 Hs Hg Hw Hloc Hreq Hold]; subst.
  - exact Hin.
  - now rewrite Hloc.
  - eapply write_file_keeps; eauto.
Qed.

(** With the service up and content available, the name is there after
    the call, whether it was skipped, fetched or failed on an entry that is
    in the way. *)
Lemma download_file_present (drive : Fetcher.Drive) (host : Fetcher.Host)
    (fi : Fetcher.DriveFile) (s : Fetcher.Sync) :
  Fetcher.service s = true ->
  Fetcher.get_media drive (Fetcher.id fi) <> None ->
  In (Fetcher.name fi)
     (List.map fname (Fetcher.local_files (Fetcher.download_file drive host fi s).2)).
Proof.
  intros Hs Hg.
  destruct (Fetcher.lookup_file (Fetcher.name fi) (Fetcher.local_files s)) as [f|] eqn:Hl.
  - apply download_file_names. apply lookup_file_Some in Hl as [Hin <-].
    now apply in_map.
  - unfold Fetcher.download_file, Fetcher.fetch. rewrite Hl, Hs.
    destruct (Fetcher.get_media drive (Fetcher.id fi)) as [c|]; [|contradiction].
    destruct (write_file_absent (Fetcher.name fi) c (Fetcher.write_time host) _ Hl)
      as [l Hw].
    simpl. rewrite Hw. simpl.
    destruct (write_file_lookup _ _ _ _ _ Hw) as [H1 _].
    apply lookup_file_Some in H1 as [Hin _].
    apply (in_map fname) in Hin. exact Hin.
Qed.

Lemma download_all_fs (drive : Fetcher.Drive) (host : Fetcher.Host)
    (fs : list Fetcher.DriveFile) :
  forall (n : nat) (s : Fetcher.Sync),
    let r := Fetcher.download_all drive host fs n s in
    (distinct_names (Fetcher.local_files s) -> distinct_names (Fetcher.local_files r.2)) /\
    (forall m, In m (List.map fname (Fetcher.local_files s)) ->
               In m (List.map fname (Fetcher.local_files r.2))) /\
    (forall f, In f (Fetcher.local_files s) ->
               is_file f = false \/ ~ In (fname f) (remote_names fs) ->
               In f (Fetcher.local_files r.2)) /\
    (Fetcher.service s = true ->
     (forall fi, In fi fs -> Fetcher.get_media drive (Fetcher.id fi) <> None) ->
     forall fi, In fi fs -> In (Fetcher.name fi) (List.map fname (Fetcher.local_files r.2))).
Proof.
  induction fs as [|fi fs IH]; intros n s; simpl.
  - repeat split; auto. intros _ _ fi [].
  - pose proof (download_file_distinct drive host fi s) as Hd.
    pose proof (download_file_names drive host fi s) as Hn.
    pose proof (download_file_keeps drive host fi s) as Hk.
    pose proof (download_file_present drive host fi s) as Hp.
    pose proof (download_file_frame drive host fi s) as [(Hsv & _) _].
    destruct (Fetcher.download_file drive host fi s) as [ok s1]. simpl in *.
    destruct (IH (if ok then S n else n) s1) as (I1 & I2 & I3 & I4).
    split; [auto|]. split; [auto|]. split.
    + intros f Hin Hf. apply I3; [apply Hk; [exact Hin|] |].
      * destruct Hf as [Hf|Hf]; [now left | right; intros E; apply Hf; now left].
      * destruct Hf as [Hf|Hf]; [now left | right; intros E; apply Hf; now right].
    + intros Hs Hall fj [<-|Hj].
      * apply I2, Hp; [exact Hs | apply Hall; now left].
      * apply I4; [congruence | intros fk Hk'; apply Hall; now right | exact Hj].
Qed.

(** The directory after [sync]: untouched, or downloaded into and then
    pruned. *)
Lemma sync_local_files (drive : Fetcher.Drive) (host : Fetcher.Host)
    (t : Q) (force : bool) (s : Fetcher.Sync) :
  let r := Fetcher.sync drive host t force s in
  (Fetcher.local_files r.2 = Fetcher.local_files s /\
   Fetcher.last_sync r.2 = Fetcher.last_sync s) \/
  (Fetcher.service s = true /\ listing drive s <> [] /\
   (force = true \/ (Fetcher.sync_interval s <= t - Fetcher.last_sync s)%Q) /\
   exists s0,
     Fetcher.local_files s0 = Fetcher.local_files s /\ same_settings s s0 /\
     Fetcher.local_files r.2
     = Fetcher.local_files
         (Fetcher.cleanup_local_files host (listing drive s)
            (Fetcher.download_all drive host (listing drive s) 0 s0).2)).
Proof.
  unfold Fetcher.sync.
  destruct (Fetcher.service s) eqn:Hs; simpl; [|left; auto].
  destruct (negb force && negb (Qle_bool _ _)) eqn:Hgo; [left; auto|].
  pose proof (listing_logging drive Fetcher.InfoStartingSync s) as Hl.
  unfold listing in Hl.
  destruct (list_folder_files_spec drive (Fetcher.logging Fetcher.InfoStartingSync s))
    as (Hset & Hloc & _).
  destruct (Fetcher.list_folder_files drive
              (Fetcher.logging Fetcher.InfoStartingSync s)) as [fs s0].
  simpl in *. subst fs.
  destruct (Fetcher.list_folder_files drive s).1 as [|fi fs] eqn:El.
  - left. simpl. split; [exact Hloc | apply Hset].
  - right. split; [reflexivity|]. split; [unfold listing; rewrite El; discriminate|].
    split.
    { destruct force; [now left | right]. simpl in Hgo.
      apply negb_false_iff, Qle_bool_iff in Hgo. exact Hgo. }
    exists s0. split; [exact Hloc|]. split.
    { destruct Hset as (A & B & C & D). repeat split; assumption. }
    unfold listing. rewrite El.
    destruct (Fetcher.download_all drive host (fi :: fs) 0 s0) as [n s2].
    reflexivity.
Qed.

Lemma sync_pass (drive : Fetcher.Drive) (host : Fetcher.Host)
    (t : Q) (force : bool) (s : Fetcher.Sync) :
  Fetcher.service s = true ->
  (force = true \/ (Fetcher.sync_interval s <= t - Fetcher.last_sync s)%Q) ->
  listing drive s <> [] ->
  exists s0,
    Fetcher.local_files s0 = Fetcher.local_files s /\ same_settings s s0 /\
    Fetcher.local_files (Fetcher.sync drive host t force s).2
    = Fetcher.local_files
        (Fetcher.cleanup_local_files host (listing drive s)
           (Fetcher.download_all drive host (listing drive s) 0 s0).2) /\
    last (Fetcher.log (Fetcher.sync drive host t force s).2)
    = Some (Fetcher.InfoSyncCompleted
              (Fetcher.download_all drive host (listing drive s) 0 s0).1
              (length (listing drive s))).
Proof.
  intros Hs Hdue Hne. unfold Fetcher.sync. rewrite Hs. simpl.
  assert (Hgo : negb force
                && negb (Qle_bool (Fetcher.sync_interval s) (t - Fetcher.last_sync s))
                = false).
  { destruct Hdue as [-> | Hq]; [reflexivity|].
    apply Qle_bool_iff in Hq. rewrite Hq. now rewrite andb_false_r. }
  rewrite Hgo.
  pose proof (listing_logging drive Fetcher.InfoStartingSync s) as Hl.
  unfold listing in Hl, Hne |- *.
  destruct (list_folder_files_spec drive (Fetcher.logging Fetcher.InfoStartingSync s))
    as (Hset & Hloc & _).
  destruct (Fetcher.list_folder_files drive
              (Fetcher.logging Fetcher.InfoStartingSync s)) as [fs s0].
  simpl in *. subst fs.
  destruct (Fetcher.list_folder_files drive s).1 as [|fi fs] eqn:El; [contradiction|].
  exists s0. split; [exact Hloc|]. split.
  { destruct Hset as (A & B & C & D). repeat split; assumption. }
  destruct (Fetcher.download_all drive host (fi :: fs) 0 s0) as [n s2].
  split; [reflexivity|]. cbn [snd fst Fetcher.logging Fetcher.log]. apply last_snoc.
Qed.

Lemma listing_supported (drive : Fetcher.Drive) (s : Fetcher.Sync) (fi : Fetcher.DriveFile) :
  In fi (listing drive s) -> Fetcher.is_supported_image s (Fetcher.name fi) = true.
Proof.
  unfold listing, Fetcher.list_folder_files.
  destruct (Fetcher.service s); [|intros []].
  destruct (Fetcher.files_list drive); simpl; [|intros []].
  intros H. apply List.filter_In in H as [_ H]. exact H.
Qed.

Lemma is_supported_image_settings (s s' : Fetcher.Sync) (n : string) :
  same_settings s s' -> Fetcher.is_supported_image s' n = Fetcher.is_supported_image s n.
Proof. intros (_ & H & _). unfold Fetcher.is_supported_image. now rewrite H. Qed.

Lemma filter_distinct (p : File -> bool) (l : list File) :
  distinct_names l -> distinct_names (List.filter p l).
Proof.
  unfold distinct_names. induction l as [|g l IH]; simpl; intros H; [exact H|].
  apply NoDup_cons in H as [Hg Hl].
  destruct (p g); simpl; [|now apply IH].
  apply NoDup_cons. split; [|now apply IH].
  intros Hin. apply Hg. apply list_elem_of_In in Hin. apply list_elem_of_In.
  apply in_map_iff in Hin as (x & Hx & Hf). apply List.filter_In in Hf as [Hf _].
  apply in_map_iff. eauto.
Qed.

(** The directory after the pruning step of a pass. *)
Lemma pruned_files (host : Fetcher.Host) (fs : list Fetcher.DriveFile)
    (s s2 : Fetcher.Sync) :
  same_settings s s2 ->
  distinct_names (Fetcher.local_files s2) ->
  Fetcher.local_files (Fetcher.cleanup_local_files host fs s2)
  = List.filter (fun f => negb (doomed s fs f && Fetcher.can_unlink host (fname f)))
                (Fetcher.local_files s2).
Proof.
  intros Hset Hd.
  destruct (cleanup_loop_spec host fs s2 (Fetcher.local_files s2) [] s2)
    as (_ & _ & Hk & _); auto.
  simpl in Hk. unfold Fetcher.cleanup_local_files. rewrite Hk.
  apply List.filter_ext. intros f. unfold doomed.
  now rewrite (is_supported_image_settings s s2 _ Hset).
Qed.

(** A download that reports success leaves an entry of that name. *)
Lemma download_file_true_present (drive : Fetcher.Drive) (host : Fetcher.Host)
    (fi : Fetcher.DriveFile) (s : Fetcher.Sync) :
  (Fetcher.download_file drive host fi s).1 = true ->
  In (Fetcher.name fi)
     (List.map fname (Fetcher.local_files (Fetcher.download_file drive host fi s).2)).
Proof.
  intros Hok. pose proof (download_file_cases drive host fi s) as H.
  destruct (Fetcher.download_file drive host fi s) as [ok s']. simpl in *. subst ok.
  inversion H as [f t Hl Ht Hle | | c l s0 Hs Hg Hw Hloc Hreq Hold]; subst.
  - apply lookup_file_Some in Hl as [Hin <-]. now apply in_map.
  - destruct (write_file_lookup _ _ _ _ _ Hw) as [H1 _].
    apply lookup_file_Some in H1 as [Hin Hn]. rewrite <- Hn. now apply in_map.
Qed.

(** The count of the download loop reaches the number of records only
    when every download reported success, and each name is then there. *)
Lemma download_all_count (drive : Fetcher.Drive) (host : Fetcher.Host)
    (fs : list Fetcher.DriveFile) :
  forall (n : nat) (s : Fetcher.Sync),
    let r := Fetcher.download_all drive host fs n s in
    (r.1 <= n + length fs)%nat /\
    (r.1 = (n + length fs)%nat ->
     forall fi, In fi fs ->
                In (Fetcher.name fi) (List.map fname (Fetcher.local_files r.2))).
Proof.
  induction fs as [|fi fs IH]; intros n s; simpl.
  - split; [lia | intros _ fi []].
  - pose proof (download_file_true_present drive host fi s) as Hp.
    destruct (Fetcher.download_file drive host fi s) as [ok s1]. simpl in Hp.
    destruct (IH (if ok then S n else n) s1) as [I1 I2].
    destruct (download_all_fs drive host fs (if ok then S n else n) s1) as (_ & D2 & _).
    destruct ok.
    + split; [lia|]. intros Heq fj [<-|Hj].
      * apply D2, Hp. reflexivity.
      * apply I2; [lia | exact Hj].
    + split; [lia|]. intros Heq. lia.
Qed.

(** X16. After a pass that gets a non-empty listing of names that are
    one path component each, from a directory whose entries have distinct
    names: every regular file with a supported extension that [unlink]
    can remove carries the name of a remote record, and, if the pass
    counts every download as a success (it logs n of n files), every
    listed name has an entry in the directory. *)
Theorem sync_reconciles (drive : Fetcher.Drive) (host : Fetcher.Host)
    (t : Q) (force : bool) (s : Fetcher.Sync) :
  Fetcher.service s = true ->
  (force = true \/ (Fetcher.sync_interval s <= t - Fetcher.last_sync s)%Q) ->
  listing drive s <> [] ->
  Forall (fun fi => child_name (Fetcher.name fi) = true) (listing drive s) ->
  distinct_names (Fetcher.local_files s) ->
  let after := Fetcher.sync drive host t force s in
  (forall f, In f (Fetcher.local_files after.2) ->
             is_file f = true ->
             Fetcher.is_supported_image s (fname f) = true ->
             Fetcher.can_unlink host (fname f) = true ->
             In (fname f) (remote_names (listing drive s))) /\
  (last (Fetcher.log after.2)
   = Some (Fetcher.InfoSyncCompleted (length (listing drive s))
                                      (length (listing drive s))) ->
   forall fi, In fi (listing drive s) ->
              exists f, In f (Fetcher.local_files after.2) /\ fname f = Fetcher.name fi).
Proof.
  intros Hs Hdue Hne _ Hd after. subst after.
  destruct (sync_pass drive host t force s Hs Hdue Hne)
    as (s0 & Hloc & Hset & Hfin & Hlog).
  destruct (download_all_fs drive host (listing drive s) 0 s0) as (D1 & _).
  destruct (download_all_count drive host (listing drive s) 0 s0) as [_ Hcount].
  pose proof (download_all_frame drive host (listing drive s) 0 s0) as [Hset2 _].
  set (s2 := (Fetcher.download_all drive host (listing drive s) 0 s0).2) in *.
  assert (Hd2 : distinct_names (Fetcher.local_files s2)) by (apply D1; now rewrite Hloc).
  assert (Hss : same_settings s s2) by (eapply same_settings_trans; eauto).
  rewrite Hfin, (pruned_files host _ s s2 Hss Hd2).
  split.
  - intros f Hin Hf Hsup Hun. apply List.filter_In in Hin as [_ Hk].
    unfold doomed in Hk. rewrite Hf, Hsup, Hun in Hk. simpl in Hk.
    rewrite andb_true_r in Hk. apply negb_true_iff, negb_false_iff in Hk.
    now apply mem_In.
  - intros Hall fi Hfi. rewrite Hlog in Hall. injection Hall as Hall.
    assert (Hin : In (Fetcher.name fi) (List.map fname (Fetcher.local_files s2))).
    { apply Hcount; [exact Hall | exact Hfi]. }
    apply in_map_iff in Hin as (g & Hg & Hgin).
    exists g. split; [|exact Hg].
    apply List.filter_In. split; [exact Hgin|].
    unfold doomed. rewrite Hg.
    assert (Hm : PyStr.mem (Fetcher.name fi) (List.map Fetcher.name (listing drive s)) = true).
    { apply mem_In. now apply in_map. }
    rewrite Hm. simpl. now rewrite andb_false_r.
Qed.

Lemma sync_reconciles_witness :
  let after := Fetcher.sync drive_A utc_host 1709300000 true sync_mixed in
  List.map fname (Fetcher.local_files after.2) = ["notes.txt"; "archive"; "A.png"] /\
  last (Fetcher.log after.2) = Some (Fetcher.InfoSyncCompleted 1 1) /\
  (forall f, In f (Fetcher.local_files after.2) ->
             is_file f = true ->
             Fetcher.is_supported_image sync_mixed (fname f) = true ->
             Fetcher.can_unlink utc_host (fname f) = true ->
             In (fname f) (remote_names (listing drive_A sync_mixed))) /\
  (last (Fetcher.log after.2)
   = Some (Fetcher.InfoSyncCompleted (length (listing drive_A sync_mixed))
                                      (length (listing drive_A sync_mixed))) ->
   forall fi, In fi (listing drive_A sync_mixed) ->
              exists f, In f (Fetcher.local_files after.2) /\ fname f = Fetcher.name fi).
Proof.
  intros after. split; [reflexivity|]. split; [reflexivity|].
  apply (sync_reconciles drive_A utc_host 1709300000 true sync_mixed).
  - reflexivity.
  - left. reflexivity.
  - discriminate.
  - repeat constructor.
  - apply (bool_decide_eq_true_1
             (NoDup (List.map fname (Fetcher.local_files sync_mixed)))).
    reflexivity.
Defined.

(** X17. [sync] keeps the names of the directory distinct, on every
    path. *)
Theorem sync_keeps_names_distinct (drive : Fetcher.Drive) (host : Fetcher.Host)
    (t : Q) (force : bool) (s : Fetcher.Sync) :
  distinct_names (Fetcher.local_files s) ->
  distinct_names (Fetcher.local_files (Fetcher.sync drive host t force s).2).
Proof.
  intros Hd.
  destruct (sync_local_files drive host t force s)
    as [[Hl _] | (Hs & Hne & Hdue & s0 & Hloc & Hset & Hfin)].
  - now rewrite Hl.
  - destruct (download_all_fs drive host (listing drive s) 0 s0) as (D1 & _).
    pose proof (download_all_frame drive host (listing drive s) 0 s0) as [Hset2 _].
    set (s2 := (Fetcher.download_all drive host (listing drive s) 0 s0).2) in *.
    assert (Hd2 : distinct_names (Fetcher.local_files s2)) by (apply D1; now rewrite Hloc).
    assert (Hss : same_settings s s2) by (eapply same_settings_trans; eauto).
    rewrite Hfin, (pruned_files host _ s s2 Hss Hd2). now apply filter_distinct.
Qed.

Lemma sync_keeps_names_distinct_witness :
  distinct_names
    (Fetcher.local_files (Fetcher.sync drive_A utc_host 1709300000 true sync_mixed).2).
Proof.
  apply (sync_keeps_names_distinct drive_A utc_host 1709300000 true sync_mixed).
  apply (bool_decide_eq_true_1
           (NoDup (List.map fname (Fetcher.local_files sync_mixed)))).
  reflexivity.
Defined.



Lemma sync_due_empty (drive : Fetcher.Drive) (host : Fetcher.Host)
    (t : Q) (force : bool) (s : Fetcher.Sync) :
  Fetcher.service s = true ->
  (force = true \/ (Fetcher.sync_interval s <= t - Fetcher.last_sync s)%Q) ->
  listing drive s = [] ->
  Fetcher.requests (Fetcher.sync drive host t force s).2
  = (Fetcher.requests s ++ [Fetcher.ReqList])%list.
Proof.
  intros Hs Hdue He. unfold Fetcher.sync. rewrite Hs. simpl.
  assert (Hgo : negb force
                && negb (Qle_bool (Fetcher.sync_interval s) (t - Fetcher.last_sync s))
                = false).
  { destruct Hdue as [-> | Hq]; [reflexivity|].
    apply Qle_bool_iff in Hq. rewrite Hq. now rewrite andb_false_r. }
  rewrite Hgo.
  pose proof (listing_logging drive Fetcher.InfoStartingSync s) as Hl.
  rewrite He in Hl. unfold listing in Hl.
  destruct (list_folder_files_spec drive (Fetcher.logging Fetcher.InfoStartingSync s))
    as (_ & _ & Hq).
  destruct (Fetcher.list_folder_files drive
              (Fetcher.logging Fetcher.InfoStartingSync s)) as [fs s1].
  simpl in *. subst fs. simpl. now rewrite Hs in Hq.
Qed.

(** X19. An unforced [sync] sends a listing request exactly when
    [should_sync] says a sync is due, and then exactly one. *)
Theorem sync_lists_when_due (drive : Fetcher.Drive) (host : Fetcher.Host)
    (t : Q) (s : Fetcher.Sync) :
  count_listings (Fetcher.requests (Fetcher.sync drive host t false s).2)
  = (count_listings (Fetcher.requests s)
     + if Fetcher.should_sync t s then 1 else 0)%nat.
Proof.
  unfold Fetcher.should_sync.
  destruct (Fetcher.service s) eqn:Hs.
  - destruct (Qle_bool (Fetcher.sync_interval s) (t - Fetcher.last_sync s)) eqn:Hq.
    + simpl. apply Qle_bool_iff in Hq.
      destruct (decide (listing drive s = [])) as [He|Hne].
      * rewrite (sync_due_empty drive host t false s Hs (or_intror Hq) He).
        rewrite count_listings_app. reflexivity.
      * destruct (sync_completes drive host t false s Hs (or_intror Hq) Hne)
          as (_ & _ & _ & Hc).
        rewrite Hc. lia.
    + unfold Fetcher.sync. rewrite Hs, Hq. simpl. lia.
  - unfold Fetcher.sync. rewrite Hs. simpl. lia.
Qed.

(** * Configuration files *)

Lemma get_app (k : string) (a b : Json.dict) :
  Json.get k (a ++ b)%list
  = match Json.get k a with Some v => Some v | None => Json.get k b end.
Proof.
  induction a as [|[k' v] a IH]; simpl; [reflexivity|].
  destruct (String.eqb k' k); [reflexivity | exact IH].
Qed.

Lemma mem_keys (k : string) (a : Json.dict) :
  PyStr.mem k (Json.keys a) = match Json.get k a with Some _ => true | None => false end.
Proof.
  unfold PyStr.mem, Json.keys. induction a as [|[k' v] a IH]; simpl; [reflexivity|].
  rewrite String.eqb_sym. destruct (String.eqb k' k); [reflexivity | exact IH].
Qed.

Lemma get_overridden (k : string) (a b : Json.dict) :
  Json.get k (List.map (fun kv => (fst kv, match Json.get (fst kv) b with
                                           | Some v => v
                                           | None => snd kv
                                           end)) a)
  = match Json.get k a with
    | Some va => Some (match Json.get k b with Some vb => vb | None => va end)
    | None => None
    end.
Proof.
  induction a as [|[k' v] a IH]; simpl; [reflexivity|].
  destruct (String.eqb k' k) eqn:E; [|exact IH].
  apply String.eqb_eq in E. now subst.
Qed.

Lemma get_only_new (k : string) (a b : Json.dict) :
  Json.get k (List.filter (fun kv => negb (PyStr.mem (fst kv) (Json.keys a))) b)
  = if PyStr.mem k (Json.keys a) then None else Json.get k b.
Proof.
  induction b as [|[k' v] b IH]; simpl; [now destruct (PyStr.mem k (Json.keys a))|].
  destruct (PyStr.mem k' (Json.keys a)) eqn:Ek'; simpl.
  - rewrite IH. destruct (String.eqb k' k) eqn:E; [|reflexivity].
    apply String.eqb_eq in E. subst. now rewrite Ek'.
  - destruct (String.eqb k' k) eqn:E; [|exact IH].
    apply String.eqb_eq in E. subst. now rewrite Ek'.
Qed.

(** A lookup in [{**a, **b}]: [b] wins, [a] is the fallback. *)
Lemma get_merge (k : string) (a b : Json.dict) :
  Json.get k (Json.merge a b)
  = match Json.get k b with Some v => Some v | None => Json.get k a end.
Proof.
  unfold Json.merge. rewrite get_app, get_overridden, get_only_new, mem_keys.
  destruct (Json.get k a), (Json.get k b); reflexivity.
Qed.

(** X20. [DigitalBulletinBoard.load_config] on a file holding a JSON
    object: the file is left as it is, and every key of the resulting
    configuration has the value the file gives it, or else the default;
    so every default key is present. A file holding any other JSON value
    makes the unpacking raise. *)
Theorem board_config_lookup (images_dir : string) (user : Json.dict) (k : string) :
  (exists cfg,
     LoadConfig.board_load_config images_dir (Content (Json.Object user))
     = LoadConfig.Loaded cfg (Content (Json.Object user)) /\
     Json.get k cfg
     = match Json.get k user with
       | Some v => Some v
       | None => Json.get k (LoadConfig.board_default images_dir)
       end /\
     (In k (Json.keys (LoadConfig.board_default images_dir)) -> Json.get k cfg <> None)) /\
  (forall v, (forall o, v <> Json.Object o) ->
             LoadConfig.board_load_config images_dir (Content v)
             = LoadConfig.RaisedTypeError).
Proof.
  split.
  - eexists. split; [reflexivity|]. split; [apply get_merge|].
    intros Hin. rewrite get_merge.
    destruct (Json.get k user); [discriminate|].
    apply mem_In in Hin. rewrite mem_keys in Hin.
    destruct (Json.get k (LoadConfig.board_default images_dir)); [discriminate|].
    discriminate.
  - intros v Hv. destruct v; try reflexivity. now destruct (Hv o).
Qed.

(** X21. Starting the board again never changes the configuration or
    the file a second time: whatever the file was (absent, not JSON, a
    JSON object), the file [load_config] leaves behind loads to the same
    configuration and is left as it is. The file is written only when it
    was absent, and then it holds the defaults that are in use. *)
Theorem board_config_restart (images_dir : string) (file file' : ConfigFile)
    (cfg : Json.dict) :
  LoadConfig.board_load_config images_dir file = LoadConfig.Loaded cfg file' ->
  LoadConfig.board_load_config images_dir file' = LoadConfig.Loaded cfg file' /\
  (file' <> file ->
   file = Absent /\ file' = Content (Json.Object cfg) /\
   cfg = LoadConfig.board_default images_dir).
Proof.
  intros H. destruct file as [| |v].
  - injection H as <- <-. split; [reflexivity|]. now intros _.
  - injection H as <- <-. split; [reflexivity|]. now intros [].
  - assert (file' = Content v) as ->.
    { destruct v; try discriminate H. simpl in H. now injection H as _ <-. }
    split; [exact H | now intros []].
Qed.

Lemma board_config_restart_witness :
  let d := LoadConfig.board_default "/home/pi/digi_bulletin/images" in
  LoadConfig.board_load_config "/home/pi/digi_bulletin/images" (Content (Json.Object d))
  = LoadConfig.Loaded d (Content (Json.Object d)) /\
  (Content (Json.Object d) <> Absent ->
   Absent = Absent /\ Content (Json.Object d) = Content (Json.Object d) /\
   d = LoadConfig.board_default "/home/pi/digi_bulletin/images").
Proof.
  apply (board_config_restart "/home/pi/digi_bulletin/images" Absent). reflexivity.
Defined.

(** X22. [load_config] of [image_fetcher.py] returns [None] for a
    missing file and for a file that is not JSON: no defaults then. For a
    JSON object the merge is one level deep: a [google_drive] object in
    the file replaces the default one whole, so a setting the file leaves
    out of it (such as [sync_interval]) is missing afterwards even though
    the defaults have it. *)
Theorem fetcher_config_shallow (user : Json.dict) (k : string) :
  LoadConfig.fetcher_load_config Absent = LoadConfig.Returned None /\
  LoadConfig.fetcher_load_config Invalid = LoadConfig.Returned None /\
  exists cfg,
    LoadConfig.fetcher_load_config (Content (Json.Object user))
    = LoadConfig.Returned (Some cfg) /\
    LoadConfig.drive_setting k cfg
    = match Json.get "google_drive" user with
      | Some (Json.Object g) => Json.get k g
      | Some _ => None
      | None => LoadConfig.drive_setting k LoadConfig.fetcher_default
      end.
Proof.
  split; [reflexivity|]. split; [reflexivity|].
  eexists. split; [reflexivity|].
  unfold LoadConfig.drive_setting. rewrite get_merge.
  destruct (Json.get "google_drive" user) as [v|]; [|reflexivity].
  reflexivity.
Qed.

(** * The runner *)

(** ** Quiet runs *)

Lemma quiet_refl (st : Runner.State) : quiet st st.
Proof.
  repeat split. exists []. split; [now rewrite app_nil_r | constructor].
Qed.

Section Contained.

Variable st0 : Runner.State.

Lemma contained_ret {A} (a : A) (r : bool) :
  contained st0 true r (Runner.ret a).
Proof. intros st Hq. simpl. auto. Qed.

Lemma contained_raise {A} (e : Runner.Exc) (b : bool) :
  contained st0 b true (@Runner.raise A e).
Proof. intros st Hq. simpl. auto. Qed.

Lemma contained_exit {A} (b r : bool) :
  contained st0 b r (@Runner.sys_exit A 1).
Proof. intros st Hq. simpl. auto. Qed.

Lemma contained_print (p : Runner.Print) (r : bool) :
  contained st0 true r (Runner.print p).
Proof.
  intros st Hq. simpl. split; [reflexivity|].
  destruct Hq as (A1 & A2 & A3 & A4). repeat split; assumption.
Qed.

Lemma contained_ask (r : bool) : contained st0 true r Runner.ask.
Proof. intros st Hq. simpl. auto. Qed.

Lemma contained_weaken {A} (b r b' r' : bool) (m : Runner.M A) :
  contained st0 b r m ->
  (b = true -> b' = true) -> (r = true -> r' = true) ->
  contained st0 b' r' m.
Proof.
  intros H Hb Hr st Hq. specialize (H st Hq).
  destruct (m st); destruct H; auto.
Qed.

Lemma contained_bind {A B} (b r : bool) (m : Runner.M A) (k : A -> Runner.M B) :
  contained st0 true r m ->
  (forall a, contained st0 b r (k a)) ->
  contained st0 b r (Runner.bind m k).
Proof.
  intros Hm Hk st Hq. unfold Runner.bind. specialize (Hm st Hq).
  destruct (m st) as [a st1|e st1|c st1]; destruct Hm as [H1 H2]; auto.
  apply Hk, H2.
Qed.

(** Nothing runs after a step that cannot return. *)
Lemma contained_stop {A B} (r : bool) (m : Runner.M A) (k : A -> Runner.M B) :
  contained st0 false r m ->
  contained st0 false r (Runner.bind m k).
Proof.
  intros Hm st Hq. unfold Runner.bind. specialize (Hm st Hq).
  destruct (m st) as [a st1|e st1|c st1]; destruct Hm as [H1 H2]; auto.
  discriminate.
Qed.

Lemma contained_try {A} (b r : bool) (m : Runner.M A)
    (handler : Runner.Exc -> option (Runner.M A)) :
  contained st0 b true m ->
  (forall e h, handler e = Some h -> contained st0 b r h) ->
  (r = false -> forall e, handler e <> None) ->
  contained st0 b r (Runner.try_except m handler).
Proof.
  intros Hm Hh Hall st Hq. unfold Runner.try_except. specialize (Hm st Hq).
  destruct (m st) as [a st1|e st1|c st1]; destruct Hm as [H1 H2]; auto.
  destruct (handler e) as [h|] eqn:E.
  - apply (Hh e h E), H2.
  - split; [|exact H2]. destruct r; [reflexivity|]. now destruct (Hall eq_refl e).
Qed.

Lemma contained_run_command (c : list string) (check : bool) :
  harmless (Runner.world st0) c ->
  contained st0 true true (Runner.run_command c check).
Proof.
  intros Hc st Hq. unfold Runner.run_command.
  assert (Hq1 : quiet st0
                  {| Runner.world := Runner.world st;
                     Runner.venv_python := Runner.venv_python st;
                     Runner.venv_pip := Runner.venv_pip st;
                     Runner.commands := (Runner.commands st ++ [c])%list;
                     Runner.output := Runner.output st |}).
  { destruct Hq as (A1 & A2 & A3 & extra & A4 & A5). repeat split; auto.
    exists (extra ++ [c])%list. simpl. split.
    - rewrite A4. now rewrite <- app_assoc.
    - apply Forall_app. split; [exact A5 | constructor; [exact Hc | constructor]]. }
  destruct (Runner.subprocess_run _ _ c) as [rc err|e]; [|auto].
  destruct (check && negb (rc =? 0)); [|auto].
  apply (contained_bind true true (Runner.print_error _)
           (fun _ => Runner.bind (Runner.print_error _)
                       (fun _ => Runner.raise (Runner.CalledProcessError rc))));
    [apply contained_print | intros _ | exact Hq1].
  apply contained_bind; [apply contained_print | intros _; apply contained_raise].
Qed.

Lemma contained_on_called_process_error {A} (b : bool) (h : Runner.M unit) :
  contained st0 true true h ->
  forall e h', @Runner.on_called_process_error A h e = Some h' ->
               contained st0 b true h'.
Proof.
  intros Hh e h' He. destruct e; try discriminate. inversion He; subst.
  apply contained_bind; [exact Hh | intros _; apply contained_raise].
Qed.

Lemma contained_is_first_run : contained st0 true true Runner.is_first_run.
Proof.
  apply contained_bind; [apply contained_ask | intros w; apply contained_ret].
Qed.

Lemma contained_check_dependencies_installed :
  contained st0 true true Runner.check_dependencies_installed.
Proof.
  intros st Hq. unfold Runner.check_dependencies_installed, Runner.bind at 1, Runner.ask.
  destruct (negb (Runner.venv_dir_exists (Runner.world st))); [simpl; auto|].
  destruct (negb (Runner.venv_python_exists (Runner.world st))); [simpl; auto|].
  apply contained_try; [| |discriminate|exact Hq].
  - apply contained_bind; [|intros rc; apply contained_ret].
    apply contained_run_command. right. destruct Hq as (-> & _). reflexivity.
  - intros e h He. inversion He; subst. apply contained_ret.
Qed.

Lemma sudo_harmless (w : Runner.World) (rest : list string) :
  harmless w ("sudo" :: rest).
Proof. left. reflexivity. Qed.

Lemma contained_update_system : contained st0 true true Runner.update_system.
Proof.
  apply contained_bind; [apply contained_ask | intros w].
  destruct (Runner.not_linux w); [apply contained_print|].
  apply contained_bind; [apply contained_print | intros _].
  apply contained_try; [| |discriminate].
  - apply contained_bind; [apply contained_run_command, sudo_harmless | intros _].
    apply contained_bind; [apply contained_run_command, sudo_harmless | intros _].
    apply contained_print.
  - apply contained_on_called_process_error, contained_print.
Qed.

Lemma contained_install_system_dependencies :
  contained st0 true true Runner.install_system_dependencies.
Proof.
  apply contained_bind; [apply contained_ask | intros w].
  destruct (Runner.not_linux w); [apply contained_print|].
  apply contained_bind; [apply contained_print | intros _].
  apply contained_try; [| |discriminate].
  - apply contained_bind; [apply contained_run_command, sudo_harmless | intros _].
    apply contained_bind; [apply contained_run_command, sudo_harmless | intros _].
    apply contained_print.
  - apply contained_on_called_process_error, contained_print.
Qed.

(** Without [venv_pip], [install_python_dependencies] raises before it
    runs anything. *)
Lemma contained_install_python_dependencies (force : bool) :
  Runner.venv_pip st0 = None ->
  contained st0 false true (Runner.install_python_dependencies force).
Proof.
  intros Hpip.
  apply contained_bind; [apply contained_print | intros _].
  apply contained_bind; [apply contained_ask | intros w].
  destruct (negb (Runner.requirements_exists w)).
  - apply contained_bind; [apply contained_print | intros _; apply contained_raise].
  - intros st Hq. unfold Runner.try_except, Runner.bind at 1, Runner.attribute.
    destruct Hq as (A1 & A2 & A3 & A4). rewrite A3, Hpip. simpl.
    split; [reflexivity|]. repeat split; auto.
Qed.

End Contained.

(** With [setup] on, [run] is contained and ends in an exit. *)
Lemma run_setup_contained (update force : bool) (w : Runner.World) :
  contained (Runner.init w) false false (Runner.run true update force).
Proof.
  unfold Runner.run.
  apply contained_bind; [apply contained_print | intros _].
  apply contained_bind; [apply contained_print | intros _].
  apply contained_try.
  - apply contained_bind; [apply contained_is_first_run | intros first_run].
    apply contained_bind; [apply contained_check_dependencies_installed | intros deps].
    rewrite !andb_false_r.
    apply contained_bind; [apply contained_ret | intros _].
    apply contained_bind; [apply contained_ret | intros _].
    apply contained_stop.
    apply contained_bind; [apply contained_print | intros _].
    apply contained_bind;
      [destruct update; [apply contained_update_system | apply contained_ret]
      | intros _].
    apply contained_bind; [apply contained_install_system_dependencies | intros _].
    apply contained_install_python_dependencies. reflexivity.
  - intros e h He.
    destruct e; inversion He; subst;
      (apply contained_bind; [apply contained_print | intros _; apply contained_exit]).
  - intros _ e. destruct e; discriminate.
Qed.

(** What a contained run from a fresh runner amounts to. *)
Lemma contained_from_init {A} (w : Runner.World) (m : Runner.M A) :
  contained (Runner.init w) false false m ->
  exists st',
    m (Runner.init w) = Runner.Exit 1 st' /\
    Runner.world st' = w /\
    Runner.venv_python st' = None /\ Runner.venv_pip st' = None /\
    Forall (harmless w) (Runner.commands st').
Proof.
  intros H. specialize (H (Runner.init w) (quiet_refl _)).
  destruct (m (Runner.init w)) as [a st'|e st'|c st'];
    destruct H as [H1 (A1 & A2 & A3 & extra & A4 & A5)]; try discriminate.
  subst c. exists st'. repeat split; auto.
  rewrite A4. exact A5.
Qed.

(** X23. [run(setup=True, ...)] never gets past
    [install_python_dependencies]: [venv_pip] is assigned only by
    [setup_virtual_environment], which [run] calls afterwards. Whatever
    the machine and the other flags, the call ends in [sys.exit(1)];
    the virtual environment is not created, and the only commands
    launched are [apt] calls and the import check: neither [pip] nor
    either script is ever started. *)
Theorem setup_always_exits_1 (update force : bool) (w : Runner.World) :
  exists st',
    Runner.run true update force (Runner.init w) = Runner.Exit 1 st' /\
    Runner.world st' = w /\
    Runner.venv_python st' = None /\ Runner.venv_pip st' = None /\
    Forall (harmless w) (Runner.commands st').
Proof. apply contained_from_init, run_setup_contained. Qed.

(** Without [setup] and without an environment, [run] stops at the
    first-run test. *)
Lemma run_first_run_contained (update force : bool) (w : Runner.World) :
  Runner.venv_dir_exists w = false ->
  contained (Runner.init w) false false (Runner.run false update force).
Proof.
  intros Hv. unfold Runner.run.
  apply contained_bind; [apply contained_print | intros _].
  apply contained_bind; [apply contained_print | intros _].
  apply contained_try.
  - intros st Hq.
    assert (Hw : Runner.venv_dir_exists (Runner.world st) = false)
      by (destruct Hq as (-> & _); exact Hv).
    unfold Runner.bind at 1, Runner.is_first_run, Runner.bind at 1, Runner.ask, Runner.ret.
    rewrite Hw.
    unfold Runner.bind at 1, Runner.check_dependencies_installed, Runner.bind at 1,
      Runner.ask.
    rewrite Hw. cbn [negb andb Runner.ret].
    apply contained_stop; [|exact Hq].
    apply contained_bind; [apply contained_print | intros _].
    apply contained_bind; [apply contained_print | intros _].
    apply contained_exit.
  - intros e h He.
    destruct e; inversion He; subst;
      (apply contained_bind; [apply contained_print | intros _; apply contained_exit]).
  - intros _ e. destruct e; discriminate.
Qed.

(** X24. From a checkout without a virtual environment no command line
    starts the board: whatever [parse_args] makes of the command line and
    whatever the Python version, [main] ends in [sys.exit], with status 1
    once the arguments are parsed (and with [argparse]'s own status when
    it exits there), having launched at most [apt] calls and the import
    check, and without creating the environment. *)
Theorem fresh_checkout_never_starts (parsed : Runner.Parsed) (version : nat * nat)
    (w : Runner.World) :
  Runner.venv_dir_exists w = false ->
  exists st',
    Runner.main parsed version (Runner.init w) = Runner.Exit (refusal parsed) st' /\
    Runner.world st' = w /\
    Runner.venv_python st' = None /\ Runner.venv_pip st' = None /\
    Forall (harmless w) (Runner.commands st').
Proof.
  intros Hv. destruct parsed as [args|text| |]; cbn [refusal].
  - apply contained_from_init. unfold Runner.main.
    destruct (_ && negb (Runner.setup args)).
    + apply contained_bind; [apply contained_print | intros _; apply contained_exit].
    + destruct ((_ <? _)%nat || _).
      * apply contained_bind; [apply contained_print | intros _; apply contained_exit].
      * destruct (Runner.setup args).
        -- apply run_setup_contained.
        -- now apply run_first_run_contained.
  - eexists. split; [reflexivity|]. cbn. auto.
  - eexists. split; [reflexivity|]. cbn. auto.
  - eexists. split; [reflexivity|]. cbn. auto.
Qed.

Lemma fresh_checkout_never_starts_witness :
  exists st',
    Runner.main (Runner.Namespace {| Runner.setup := true;
                                     Runner.update_system_flag := true;
                                     Runner.force_deps := false |})
      (3, 11)%nat (Runner.init fresh_world)
    = Runner.Exit 1 st' /\
    Runner.world st' = fresh_world /\
    Runner.venv_python st' = None /\ Runner.venv_pip st' = None /\
    Forall (harmless fresh_world) (Runner.commands st').
Proof.
  apply (fresh_checkout_never_starts
           (Runner.Namespace {| Runner.setup := true; Runner.update_system_flag := true;
                                Runner.force_deps := false |})
           (3, 11)%nat fresh_world).
  reflexivity.
Defined.

(** ** The fetch step and the board *)

Lemma print_run (p : Runner.Print) (st : Runner.State) :
  Runner.print p st
  = Runner.Val tt {| Runner.world := Runner.world st;
                     Runner.venv_python := Runner.venv_python st;
                     Runner.venv_pip := Runner.venv_pip st;
                     Runner.commands := Runner.commands st;
                     Runner.output := (Runner.output st ++ [p])%list |}.
Proof. reflexivity. Qed.

Lemma bind_val {A B} (m : Runner.M A) (k : A -> Runner.M B) st a st1 :
  m st = Runner.Val a st1 -> Runner.bind m k st = k a st1.
Proof. intros H. unfold Runner.bind. now rewrite H. Qed.

Lemma bind_raised {A B} (m : Runner.M A) (k : A -> Runner.M B) st e st1 :
  m st = Runner.Raised e st1 -> Runner.bind m k st = Runner.Raised e st1.
Proof. intros H. unfold Runner.bind. now rewrite H. Qed.

Lemma bind_exit {A B} (m : Runner.M A) (k : A -> Runner.M B) st c st1 :
  m st = Runner.Exit c st1 -> Runner.bind m k st = Runner.Exit c st1.
Proof. intros H. unfold Runner.bind. now rewrite H. Qed.

Lemma read_config_run (st : Runner.State) :
  Runner.read_config st
  = match Runner.config_json (Runner.world st) with
    | Absent => Runner.Raised Runner.FileNotFoundError st
    | Invalid => Runner.Raised Runner.JSONDecodeError st
    | Content v => Runner.Val v st
    end.
Proof.
  unfold Runner.read_config, Runner.bind, Runner.ask.
  destruct (Runner.config_json (Runner.world st)); reflexivity.
Qed.

Lemma drive_enabled_run (config : Json.value) (st : Runner.State) :
  (exists v, Runner.drive_enabled config st = Runner.Val v st) \/
  Runner.drive_enabled config st = Runner.Raised Runner.AttributeError st.
Proof.
  unfold Runner.drive_enabled. destruct config; try (right; reflexivity).
  destruct (Json.get "google_drive" o) as [[]|]; try (right; reflexivity);
    left; eauto.
Qed.

Lemma grows_refl (st : Runner.State) : grows st st [].
Proof. repeat split. now rewrite app_nil_r. Qed.

Lemma fetch_body_cases (st : Runner.State) :
  let w := Runner.world st in
  let body :=
    Runner.bind Runner.read_config (fun config =>
    Runner.bind (Runner.drive_enabled config) (fun enabled =>
      if Json.truthy enabled
      then Runner.bind (Runner.attribute Runner.venv_python) (fun python =>
           Runner.bind (Runner.run_command [python; Runner.fetcher_script w] false) (fun rc =>
             if rc =? 0
             then Runner.print_success "Image sync completed successfully"
             else Runner.print_warning
                    "Image sync failed, but continuing with existing images"))
      else Runner.print_status "Google Drive sync not configured, skipping image fetch")) in
  (exists st', body st = Runner.Val tt st' /\
               (grows st st' [] \/
                exists py, Runner.venv_python st = Some py /\
                           grows st st' [[py; Runner.fetcher_script w]])) \/
  (exists e st', body st = Runner.Raised e st' /\
                 (grows st st' [] /\ Runner.is_Exception e = true \/
                  exists py, Runner.venv_python st = Some py /\
                             grows st st' [[py; Runner.fetcher_script w]] /\
                             Runner.subprocess_run w (length (Runner.commands st))
                               [py; Runner.fetcher_script w] = Runner.Broke e)).
Proof.
  intros w body. subst body.
  pose proof (grows_refl st) as G0.
  pose proof (read_config_run st) as Hread.
  destruct (Runner.config_json (Runner.world st)) as [| |config];
    [right; rewrite (bind_raised _ _ _ _ _ Hread); eexists _, _; (split; [reflexivity|]); left; (split; [exact G0 | reflexivity])
    |right; rewrite (bind_raised _ _ _ _ _ Hread); eexists _, _; (split; [reflexivity|]); left; (split; [exact G0 | reflexivity])|].
  rewrite (bind_val _ _ _ _ _ Hread).
  destruct (drive_enabled_run config st) as [[v Hen] | Hen];
    [|right; rewrite (bind_raised _ _ _ _ _ Hen); eexists _, _; (split; [reflexivity|]); left; (split; [exact G0 | reflexivity])].
  rewrite (bind_val _ _ _ _ _ Hen).
  destruct (Json.truthy v).
  - destruct (Runner.venv_python st) as [py|] eqn:Hpy.
    + assert (Hattr : Runner.attribute Runner.venv_python st = Runner.Val py st)
        by (unfold Runner.attribute; now rewrite Hpy).
      rewrite (bind_val _ _ _ _ _ Hattr).
      unfold Runner.bind, Runner.run_command. fold w.
      destruct (Runner.subprocess_run w (length (Runner.commands st))
                  [py; Runner.fetcher_script w]) as [rc err|e] eqn:Hrun.
      * cbn [andb]. left.
        destruct (rc =? 0); eexists; (split; [reflexivity|]);
          right; exists py; repeat split; reflexivity.
      * right. eexists e, _. split; [reflexivity|]. right. exists py.
        repeat split; try reflexivity. exact Hrun.
    + assert (Hattr : Runner.attribute Runner.venv_python st
                      = Runner.Raised Runner.AttributeError st)
        by (unfold Runner.attribute; now rewrite Hpy).
      right. rewrite (bind_raised _ _ _ _ _ Hattr). eexists _, _; (split; [reflexivity|]); left; (split; [exact G0 | reflexivity]).
  - left. eexists. split; [reflexivity|]. left.
    repeat split. simpl. now rewrite app_nil_r.
Qed.

(** X25. A failing image sync never keeps the board from starting: when
    [image_fetcher.py] is there and the child process is not interrupted
    from the keyboard, [run_image_fetcher] returns normally whatever the
    configuration file holds and however the fetcher ends, and the only
    command it can have launched is the fetcher. *)
Theorem image_fetch_is_not_fatal (st : Runner.State) :
  Runner.fetcher_script_exists (Runner.world st) = true ->
  (forall c, Runner.subprocess_run (Runner.world st) (length (Runner.commands st)) c
             <> Runner.Broke Runner.KeyboardInterrupt) ->
  exists st',
    Runner.run_image_fetcher st = Runner.Val tt st' /\
    (grows st st' [] \/
     exists py, Runner.venv_python st = Some py /\
                grows st st' [[py; Runner.fetcher_script (Runner.world st)]]).
Proof.
  intros Hscript Hki.
  set (st1 := {| Runner.world := Runner.world st;
                 Runner.venv_python := Runner.venv_python st;
                 Runner.venv_pip := Runner.venv_pip st;
                 Runner.commands := Runner.commands st;
                 Runner.output := (Runner.output st
                                   ++ [Runner.Status "Running image fetcher to sync images..."])%list |}).
  unfold Runner.run_image_fetcher.
  rewrite (bind_val (Runner.print_status "Running image fetcher to sync images...")
             _ st tt st1 eq_refl).
  rewrite (bind_val Runner.ask _ st1 (Runner.world st) st1 eq_refl).
  rewrite Hscript. cbn [negb]. unfold Runner.try_except.
  pose proof (fetch_body_cases st1) as Hbody. cbv zeta in Hbody.
  change (Runner.world st1) with (Runner.world st) in Hbody.
  change (Runner.venv_python st1) with (Runner.venv_python st) in Hbody.
  destruct Hbody as [(st' & -> & Hg) | (e & st' & -> & Hg)].
  - exists st'. split; [reflexivity|].
    destruct Hg as [Hg | (py & Hpy & Hg)]; [left | right; exists py; split; [exact Hpy|]];
      destruct Hg as (A1 & A2 & A3 & A4); repeat split; assumption.
  - assert (He : Runner.is_Exception e = true).
    { destruct Hg as [[_ He] | (py & _ & _ & Hrun)]; [exact He|].
      destruct e; try reflexivity. now destruct (Hki _ Hrun). }
    rewrite He. eexists. split; [reflexivity|].
    destruct Hg as [[Hg _] | (py & Hpy & Hg & _)]; [left | right; exists py; split; [exact Hpy|]];
      destruct Hg as (A1 & A2 & A3 & A4); repeat split; assumption.
Qed.

Lemma image_fetch_is_not_fatal_witness :
  let st := Runner.init (ready_world sync_enabled_config 0) in
  exists st',
    Runner.run_image_fetcher st = Runner.Val tt st' /\
    (grows st st' [] \/
     exists py, Runner.venv_python st = Some py /\
                grows st st' [[py; Runner.fetcher_script (Runner.world st)]]).
Proof.
  intros st. apply (image_fetch_is_not_fatal st).
  - reflexivity.
  - intros c. simpl. discriminate.
Defined.

(** Evaluation of a run of the runner on a state given by equations. *)
Ltac runner_unfold :=
  unfold Runner.check_configuration, Runner.run_image_fetcher, Runner.run_bulletin_board,
    Runner.setup_virtual_environment, Runner.is_first_run,
    Runner.check_dependencies_installed, Runner.read_config, Runner.attribute,
    Runner.assign_venv_paths, Runner.run_command,
    Runner.print_status, Runner.print_success, Runner.print_warning, Runner.print_error,
    Runner.try_except, Runner.bind, Runner.ask, Runner.print, Runner.ret, Runner.raise,
    Runner.sys_exit.

Ltac runner_simpl :=
  cbn [Runner.world Runner.venv_python Runner.venv_pip Runner.commands Runner.output
       Runner.drive_enabled Runner.service_account_file Runner.is_Exception
       Runner.ret Runner.raise Runner.sys_exit Json.truthy
       negb andb orb app length final_state].

(** X26. When the configuration enables the sync but the credentials
    file it names does not exist, [check_configuration] warns that the
    sync will be disabled and returns normally, yet nothing is disabled:
    [run_image_fetcher] then launches the fetcher all the same. *)
Theorem credentials_warning_is_idle (st : Runner.State) (d g : Json.dict)
    (en : Json.value) (file py : string) :
  Runner.config_json (Runner.world st) = Content (Json.Object d) ->
  Json.get "google_drive" d = Some (Json.Object g) ->
  Json.get "enabled" g = Some en ->
  Json.truthy en = true ->
  Json.get "service_account_file" g = Some (Json.Str file) ->
  Runner.path_exists (Runner.world st) file = false ->
  Runner.fetcher_script_exists (Runner.world st) = true ->
  Runner.venv_python st = Some py ->
  exists st1,
    Runner.check_configuration st = Runner.Val tt st1 /\
    grows st st1 [] /\
    In (Runner.Warning "Google Drive sync will be disabled") (Runner.output st1) /\
    Runner.commands (final_state (Runner.run_image_fetcher st1))
    = (Runner.commands st ++ [[py; Runner.fetcher_script (Runner.world st)]])%list.
Proof.
  intros Hc Hgd Hen Ht Hf Hp Hs Hpy.
  eexists. split.
  - runner_unfold.
    repeat (progress (runner_simpl; rewrite ?Hc, ?Hgd, ?Hen, ?Ht, ?Hf, ?Hp)).
    reflexivity.
  - split; [repeat split; simpl; now rewrite app_nil_r|].
    split.
    + simpl. rewrite !in_app_iff. simpl. tauto.
    + runner_unfold.
      repeat (progress (runner_simpl; rewrite ?Hc, ?Hgd, ?Hen, ?Ht, ?Hs, ?Hpy)).
      destruct (Runner.subprocess_run _ _ _) as [rc err|e].
      * destruct (rc =? 0); reflexivity.
      * destruct e; reflexivity.
Qed.

Lemma credentials_warning_is_idle_witness :
  let st := final_state (Runner.setup_virtual_environment
                           (Runner.init (ready_world sync_enabled_config 0))) in
  exists st1,
    Runner.check_configuration st = Runner.Val tt st1 /\
    grows st st1 [] /\
    In (Runner.Warning "Google Drive sync will be disabled") (Runner.output st1) /\
    Runner.commands (final_state (Runner.run_image_fetcher st1))
    = [["/home/pi/digi_bulletin/.venv/bin/python";
        "/home/pi/digi_bulletin/image_fetcher.py"]].
Proof.
  intros st.
  apply (credentials_warning_is_idle st
           [("google_drive",
             Json.Object [("enabled", Json.Bool true);
                          ("service_account_file", Json.Str "key.json")])]
           [("enabled", Json.Bool true); ("service_account_file", Json.Str "key.json")]
           (Json.Bool true) "key.json" "/home/pi/digi_bulletin/.venv/bin/python");
    reflexivity.
Defined.

(** X27. With the environment and the packages in place, no flags, a
    configuration that does not mention the sync, and both scripts
    present, [run] launches the import check and then the board, and its
    own end follows the board's exit status: it returns normally when
    the board exits with 0 and ends in [sys.exit(1)] otherwise. *)
Theorem board_status_is_reported (w : Runner.World) (d : Json.dict) (rc : Z)
    (err0 err : string) :
  let python := Runner.venv_executable w "python" "python.exe" in
  Runner.venv_dir_exists w = true ->
  Runner.venv_python_exists w = true ->
  Runner.subprocess_run w 0 (Runner.import_check w) = Runner.Finished 0 err0 ->
  Runner.config_json w = Content (Json.Object d) ->
  Json.get "google_drive" d = None ->
  Runner.fetcher_script_exists w = true ->
  Runner.bulletin_script_exists w = true ->
  Runner.subprocess_run w 1 [python; Runner.bulletin_script w] = Runner.Finished rc err ->
  exists st',
    Runner.run false false false (Runner.init w)
    = (if rc =? 0 then Runner.Val tt st' else Runner.Exit 1 st') /\
    Runner.commands st' = [Runner.import_check w; [python; Runner.bulletin_script w]] /\
    Runner.world st' = w.
Proof.
  intros python Hv Hvp Himp Hc Hgd Hf Hb Hrun. subst python.
  unfold Runner.run. runner_unfold. unfold Runner.init.
  destruct (rc =? 0) eqn:Hrc;
    repeat (progress (runner_simpl; change (0 =? 0) with true;
                      rewrite ?Hv, ?Hvp, ?Himp, ?Hc, ?Hgd, ?Hf, ?Hb, ?Hrun, ?Hrc));
    eexists; (split; [reflexivity|]); split; reflexivity.
Qed.

Lemma board_status_is_reported_witness :
  let w := ready_world (Json.Object [("display_duration", Json.Int 5)]) 3 in
  exists st',
    Runner.run false false false (Runner.init w) = Runner.Exit 1 st' /\
    Runner.commands st'
    = [Runner.import_check w;
       ["/home/pi/digi_bulletin/.venv/bin/python"; "/home/pi/digi_bulletin/bulletin.py"]] /\
    Runner.world st' = w.
Proof.
  intros w.
  apply (board_status_is_reported w [("display_duration", Json.Int 5)] 3 "" "");
    reflexivity.
Defined.

(** X28. Once [parse_args] has returned a namespace in which one of the
    three flags is set, [main] ends in [sys.exit(1)]: [--update-system]
    and [--force-deps] are refused without [--setup], and with [--setup]
    the run stops in [install_python_dependencies] at the latest. Of the
    namespaces only the one without flags can start the board. *)
Theorem flags_always_exit_1 (args : Runner.Args) (version : nat * nat)
    (w : Runner.World) :
  Runner.setup args || Runner.update_system_flag args || Runner.force_deps args = true ->
  exists st',
    Runner.main (Runner.Namespace args) version (Runner.init w) = Runner.Exit 1 st' /\
    Runner.world st' = w /\
    Runner.venv_python st' = None /\ Runner.venv_pip st' = None /\
    Forall (harmless w) (Runner.commands st').
Proof.
  intros Hflag. apply contained_from_init. unfold Runner.main.
  destruct (Runner.setup args) eqn:Hs.
  - rewrite andb_false_r.
    destruct ((_ <? _)%nat || _).
    + apply contained_bind; [apply contained_print | intros _; apply contained_exit].
    + apply run_setup_contained.
  - simpl in Hflag. rewrite Hflag. simpl.
    apply contained_bind; [apply contained_print | intros _; apply contained_exit].
Qed.

Lemma flags_always_exit_1_witness :
  exists st',
    Runner.main (Runner.Namespace {| Runner.setup := true;
                                     Runner.update_system_flag := false;
                                     Runner.force_deps := true |}) (3, 11)%nat
      (Runner.init (ready_world sync_enabled_config 0))
    = Runner.Exit 1 st' /\
    Runner.world st' = ready_world sync_enabled_config 0 /\
    Runner.venv_python st' = None /\ Runner.venv_pip st' = None /\
    Forall (harmless (ready_world sync_enabled_config 0)) (Runner.commands st').
Proof.
  apply (flags_always_exit_1 _ (3, 11)%nat (ready_world sync_enabled_config 0)).
  reflexivity.
Defined.

(** * File names the scan accepts *)

Lemma rfind_absent (c : ascii) (s : string) :
  has_char (PyTime.eq_char c) s = false -> PyStr.rfind c s = None.
Proof.
  induction s as [|a r IH]; simpl; [reflexivity|].
  intros H. apply orb_false_iff in H as [Ha Hr]. rewrite (IH Hr).
  unfold PyTime.eq_char in Ha. now rewrite Ha.
Qed.

(** The last occurrence of [c] in [a ++ c :: b] when [b] has none. *)
Lemma rfind_last (c : ascii) (a b : string) :
  has_char (PyTime.eq_char c) b = false ->
  PyStr.rfind c (a ++ String c b) = Some (String.length a).
Proof.
  intros Hb. induction a as [|x a IH]; simpl.
  - rewrite (rfind_absent c b Hb). now rewrite Ascii.eqb_refl.
  - now rewrite IH.
Qed.

Lemma drop_app (a b : string) : PyStr.drop (String.length a) (a ++ b) = b.
Proof. induction a as [|x a IH]; simpl; [now destruct b | exact IH]. Qed.

Lemma length_append (a b : string) :
  String.length (a ++ b) = (String.length a + String.length b)%nat.
Proof. induction a as [|x a IH]; simpl; [reflexivity | now rewrite IH]. Qed.

(** X29. A regular file named [stem.ext], with a non-empty stem and a
    non-empty extension free of dots, is kept by the scan exactly when
    ['.' + ext], lowercased, is one of the lowercased configured
    formats: only the last extension counts, and case does not. *)
Theorem scan_goes_by_last_extension (formats : list string) (f : File)
    (stem ext : string) :
  fname f = stem ++ String "." ext ->
  stem <> "" -> ext <> "" ->
  has_char (PyTime.eq_char ".") ext = false ->
  is_file f = true ->
  PyPath.suffix (fname f) = String "." ext /\
  (Bulletin.is_supported (List.map PyStr.lower formats) f = true
   <-> In (PyStr.lower (String "." ext)) (List.map PyStr.lower formats)).
Proof.
  intros Hn Hs He Hd Hf.
  assert (Hsuf : PyPath.suffix (fname f) = String "." ext).
  { unfold PyPath.suffix. rewrite Hn, (rfind_last "." stem ext Hd).
    rewrite drop_app, length_append.
    assert (H1 : (0 <? Z.of_nat (String.length stem)) = true).
    { apply Z.ltb_lt. destruct stem; [contradiction | simpl; lia]. }
    assert (H2 : (Z.of_nat (String.length stem)
                  <? Z.of_nat (String.length stem + String.length (String "." ext)) - 1)
                 = true).
    { apply Z.ltb_lt. destruct ext; [contradiction | simpl; lia]. }
    now rewrite H1, H2. }
  split; [exact Hsuf|].
  unfold Bulletin.is_supported. rewrite Hf, Hsuf. simpl. apply mem_In.
Qed.

Lemma scan_goes_by_last_extension_witness :
  PyPath.suffix "holiday.tar.PNG" = ".PNG" /\
  (Bulletin.is_supported (List.map PyStr.lower default_formats)
     (regular "holiday.tar.PNG" 0 "") = true
   <-> In (PyStr.lower ".PNG") (List.map PyStr.lower default_formats)).
Proof.
  apply (scan_goes_by_last_extension default_formats (regular "holiday.tar.PNG" 0 "")
           "holiday.tar" "PNG"); (reflexivity || discriminate).
Defined.

(** * Binary64 arithmetic

    What the operations of [SpecFloat] compute, in the range the image
    sizes live in: each is the exact result rounded once, with a relative
    error of at most [2 ^ -53]. *)

(** ** Digits, shifts and rounding *)

Lemma pow2_step (k : Z) : 0 < k -> 2 ^ k = 2 * 2 ^ (k - 1).
Proof.
  intros H. replace k with (Z.succ (k - 1)) at 1 by lia. apply Z.pow_succ_r. lia.
Qed.

Lemma digits2_pos_bounds (p : positive) :
  2 ^ (Zpos (digits2_pos p) - 1) <= Zpos p < 2 ^ Zpos (digits2_pos p).
Proof.
  induction p as [p IH|p IH|]; simpl digits2_pos.
  - rewrite Pos2Z.inj_succ. change (Zpos p~1) with (2 * Zpos p + 1).
    set (k := Zpos (digits2_pos p)) in *. assert (0 < k) by (subst k; lia). clearbody k.
    replace (Z.succ k - 1) with k by lia.
    rewrite (pow2_step (Z.succ k)) by lia.
    replace (Z.succ k - 1) with k by lia.
    rewrite (pow2_step k) in * by lia. lia.
  - rewrite Pos2Z.inj_succ. change (Zpos p~0) with (2 * Zpos p).
    set (k := Zpos (digits2_pos p)) in *. assert (0 < k) by (subst k; lia). clearbody k.
    replace (Z.succ k - 1) with k by lia.
    rewrite (pow2_step (Z.succ k)) by lia.
    replace (Z.succ k - 1) with k by lia.
    rewrite (pow2_step k) in * by lia. lia.
  - simpl. lia.
Qed.

Lemma digits_unique (m d : Z) (p : positive) :
  m = Zpos p -> 2 ^ (d - 1) <= m < 2 ^ d -> 0 < d -> Zpos (digits2_pos p) = d.
Proof.
  intros -> [Hl Hu] Hd. pose proof (digits2_pos_bounds p) as [Bl Bu].
  set (k := Zpos (digits2_pos p)) in *.
  assert (0 < k) by (subst k; lia).
  destruct (Z.lt_trichotomy k d) as [H1|[H1|H1]]; [|exact H1|].
  - assert (2 ^ k <= 2 ^ (d - 1)) by (apply Z.pow_le_mono_r; lia). lia.
  - assert (2 ^ d <= 2 ^ (k - 1)) by (apply Z.pow_le_mono_r; lia). lia.
Qed.

Lemma iter_pos_invariant {A} (f : A -> A) (P : Z -> A -> Prop) :
  (forall k a, 0 <= k -> P k a -> P (k + 1) (f a)) ->
  forall p k a, 0 <= k -> P k a -> P (k + Zpos p) (SpecFloat.iter_pos f p a).
Proof.
  intros step. induction p as [p IH|p IH|]; intros k a Hk Ha; simpl.
  - replace (k + Zpos p~1) with (k + 1 + Zpos p + Zpos p) by lia.
    apply IH; [lia|]. apply IH; [lia|]. now apply step.
  - replace (k + Zpos p~0) with (k + Zpos p + Zpos p) by lia.
    apply IH; [lia|]. now apply IH.
  - now apply step.
Qed.

Lemma shr_1_inbetween (mrs : shr_record) (N D : Z) :
  0 <= shr_m mrs -> 0 < D ->
  inbetween (shr_m mrs) (loc_of_shr_record mrs) N D ->
  0 <= shr_m (shr_1 mrs) /\
  shr_m (shr_1 mrs) = shr_m mrs / 2 /\
  inbetween (shr_m (shr_1 mrs)) (loc_of_shr_record (shr_1 mrs)) N (D * 2).
Proof.
  destruct mrs as [m r s]. cbn [shr_m]. intros Hm HD H.
  destruct m as [|p|p]; [| |lia].
  - destruct r, s; cbn [shr_1 shr_m loc_of_shr_record inbetween orb] in *;
      (split; [lia | split; [reflexivity | lia]]).
  - destruct p as [p|p|].
    + assert (E : Zpos p~1 / 2 = Zpos p).
      { change (Zpos p~1) with (2 * Zpos p + 1). symmetry.
        apply (Z.div_unique _ _ _ 1); lia. }
      rewrite E. change (Zpos p~1) with (2 * Zpos p + 1) in H.
      destruct r, s; cbn [shr_1 shr_m loc_of_shr_record inbetween orb] in *;
        (split; [lia | split; [reflexivity | lia]]).
    + assert (E : Zpos p~0 / 2 = Zpos p).
      { change (Zpos p~0) with (2 * Zpos p). symmetry.
        apply (Z.div_unique _ _ _ 0); lia. }
      rewrite E. change (Zpos p~0) with (2 * Zpos p) in H.
      destruct r, s; cbn [shr_1 shr_m loc_of_shr_record inbetween orb] in *;
        (split; [lia | split; [reflexivity | lia]]).
    + destruct r, s; cbn [shr_1 shr_m loc_of_shr_record inbetween orb] in *;
        (split; [lia | split; [reflexivity | lia]]).
Qed.

Lemma loc_of_shr_record_of_loc (m : Z) (l : location) :
  loc_of_shr_record (shr_record_of_loc m l) = l /\
  shr_m (shr_record_of_loc m l) = m.
Proof. destruct l as [|[| |]]; split; reflexivity. Qed.

(** [shr] by [n] places divides the mantissa by [2 ^ n] and keeps track
    of where the exact value lies. *)
Lemma shr_inbetween (m e n : Z) (l : location) (N D : Z) :
  0 <= m -> 0 < D -> 0 <= n ->
  inbetween m l N D ->
  let r := shr (shr_record_of_loc m l) e n in
  r.2 = e + n /\
  shr_m r.1 = m / 2 ^ n /\
  inbetween (shr_m r.1) (loc_of_shr_record r.1) N (D * 2 ^ n).
Proof.
  intros Hm HD Hn H.
  destruct (loc_of_shr_record_of_loc m l) as [El Em].
  destruct n as [|p|p]; [| |lia]; cbn [shr fst snd].
  - rewrite El, Em, Z.pow_0_r, Z.div_1_r, Z.mul_1_r. repeat split; [lia | exact H].
  - split; [reflexivity|].
    pose (P := fun (k : Z) (a : shr_record) =>
                 0 <= shr_m a /\ shr_m a = m / 2 ^ k /\
                 inbetween (shr_m a) (loc_of_shr_record a) N (D * 2 ^ k)).
    assert (Hp : P (0 + Zpos p) (SpecFloat.iter_pos shr_1 p (shr_record_of_loc m l))).
    { apply (iter_pos_invariant shr_1 P); [|lia|].
      - intros k a Hk (A1 & A2 & A3).
        assert (0 < D * 2 ^ k) by (apply Z.mul_pos_pos; [lia | apply Z.pow_pos_nonneg; lia]).
        destruct (shr_1_inbetween a N (D * 2 ^ k) A1 H0 A3) as (B1 & B2 & B3).
        unfold P. split; [exact B1|]. split.
        + rewrite B2, A2, Z.div_div by (try apply Z.pow_pos_nonneg; lia).
          now rewrite Z.pow_add_r, Z.pow_1_r by lia.
        + rewrite Z.pow_add_r, Z.pow_1_r by lia. now rewrite Z.mul_assoc.
      - unfold P. rewrite El, Em, Z.pow_0_r, Z.div_1_r, Z.mul_1_r. repeat split; [lia | exact H]. }
    destruct Hp as (_ & A2 & A3). simpl in A2, A3. split; assumption.
Qed.

Lemma round_nearest_even_spec (m : Z) (l : location) (N D : Z) :
  0 < D -> inbetween m l N D ->
  let r := round_nearest_even m l in
  m <= r <= m + 1 /\ - D <= 2 * (r * D - N) <= D.
Proof.
  intros HD H. destruct l as [|[| |]]; cbn [round_nearest_even inbetween] in *.
  - split; lia.
  - destruct (Z.even m); split; lia.
  - split; lia.
  - split; lia.
Qed.

Lemma Zdigits2_bounds (m : Z) :
  0 < m -> 0 < Zdigits2 m /\ 2 ^ (Zdigits2 m - 1) <= m < 2 ^ Zdigits2 m.
Proof.
  destruct m as [|p|p]; try lia. intros _. cbn [Zdigits2].
  split; [lia | apply digits2_pos_bounds].
Qed.

Lemma Zdigits2_unique (m d : Z) :
  0 < d -> 2 ^ (d - 1) <= m < 2 ^ d -> Zdigits2 m = d.
Proof.
  intros Hd H. assert (0 < m).
  { assert (0 < 2 ^ (d - 1)) by (apply Z.pow_pos_nonneg; lia). lia. }
  destruct m as [|p|p]; try lia. cbn [Zdigits2].
  now apply (digits_unique (Zpos p)).
Qed.

(** Rounding to binary64 in the normal range: a mantissa of at least 53
    digits is cut to 53 digits, and the result is within half a unit in
    the last place of the exact value [N / D * 2 ^ e]. *)
Lemma binary_round_aux_normal (m e : Z) (l : location) (N D : Z) :
  0 < D -> 0 < m ->
  53 <= Zdigits2 m ->
  -1074 <= Zdigits2 m + e - 53 -> Zdigits2 m + e <= 1023 ->
  inbetween m l N D ->
  exists (mz : positive) (k : Z),
    binary_round_aux 53 1024 false m e l = S754_finite false mz (e + k) /\
    0 <= k <= Zdigits2 m - 52 /\
    2 ^ 52 <= Zpos mz < 2 ^ 53 /\
    - N <= 2 ^ 53 * (Zpos mz * 2 ^ k * D - N) <= N.
Proof.
  intros HD Hm Hd Hlo Hhi Hin.
  destruct (Zdigits2_bounds m Hm) as [_ Hb].
  remember (Zdigits2 m) as d eqn:Ed.
  set (n := d - 53).
  assert (Hn : 0 <= n) by (subst n; lia).
  assert (P2n : 0 < 2 ^ n) by (apply Z.pow_pos_nonneg; lia).
  assert (Hpow : 2 ^ (d - 1) = 2 ^ 52 * 2 ^ n /\ 2 ^ d = 2 ^ 53 * 2 ^ n).
  { split; rewrite <- Z.pow_add_r by lia; f_equal; subst n; lia. }
  destruct Hpow as [Hp1 Hp2].
  unfold binary_round_aux, shr_fexp. rewrite <- Ed.
  replace (fexp 53 1024 (d + e) - e) with n by (unfold fexp, emin; subst n; lia).
  destruct (shr_inbetween m e n l N D) as (S1 & S2 & S3); try lia; [exact Hin|].
  destruct (shr (shr_record_of_loc m l) e n) as [mrs1 e1]. cbn [fst snd] in S1, S2, S3.
  subst e1.
  set (m1 := shr_m mrs1) in *.
  assert (Hm1 : 2 ^ 52 <= m1 < 2 ^ 53).
  { rewrite S2. split.
    - apply Z.div_le_lower_bound; lia.
    - apply Z.div_lt_upper_bound; lia. }
  assert (HD1 : 0 < D * 2 ^ n) by (apply Z.mul_pos_pos; lia).
  destruct (round_nearest_even_spec m1 (loc_of_shr_record mrs1) N (D * 2 ^ n) HD1 S3)
    as [R1 R2].
  set (m2 := round_nearest_even m1 (loc_of_shr_record mrs1)) in *.
  assert (HN : 2 ^ 52 * (D * 2 ^ n) <= N).
  { assert (m1 * (D * 2 ^ n) <= N).
    { destruct (loc_of_shr_record mrs1) as [|[| |]]; cbn [inbetween] in S3; lia. }
    nia. }
  destruct (Z.eq_dec m2 (2 ^ 53)) as [E2|E2].
  - (* the rounding carried into a 54th digit *)
    rewrite E2.
    exists (2 ^ 52)%positive, (n + 1).
    split; [|split; [subst n; lia|split; [vm_compute; split; [discriminate | reflexivity]|]]].
    + replace (Zdigits2 (2 ^ 53)) with 54 by (vm_compute; reflexivity).
      replace (fexp 53 1024 (54 + (e + n)) - (e + n)) with 1
        by (unfold fexp, emin; subst n; lia).
      change (shr (shr_record_of_loc (2 ^ 53) loc_Exact) (e + n) 1)
        with ({| shr_m := Zpos (2 ^ 52); shr_r := false; shr_s := false |}, e + n + 1).
      cbn [shr_m].
      assert (Hle : (e + n + 1 <=? 1024 - 53) = true) by (apply Z.leb_le; subst n; lia).
      rewrite Hle. f_equal. lia.
    + rewrite Z.pow_add_r, Z.pow_1_r by lia.
      replace (Zpos (2 ^ 52) * (2 ^ n * 2) * D) with (m2 * (D * 2 ^ n))
        by (rewrite E2; change (Zpos (2 ^ 52)) with (2 ^ 52);
            change (2 ^ 53) with (2 ^ 52 * 2); ring).
      lia.
  - assert (Hm2 : 2 ^ 52 <= m2 < 2 ^ 53) by lia.
    assert (Ed2 : Zdigits2 m2 = 53) by (apply Zdigits2_unique; [lia | exact Hm2]).
    rewrite Ed2.
    replace (fexp 53 1024 (53 + (e + n)) - (e + n)) with 0
      by (unfold fexp, emin; subst n; lia).
    cbn [shr shr_record_of_loc shr_m].
    destruct m2 as [|mz|mz] eqn:Em2; try lia.
    exists mz, n.
    assert (Hle : (e + n <=? 1024 - 53) = true) by (apply Z.leb_le; subst n; lia).
    rewrite Hle.
    split; [reflexivity|]. split; [subst n; lia|]. split; [exact Hm2|].
    replace (Zpos mz * 2 ^ n * D) with (Zpos mz * (D * 2 ^ n)) by ring.
    lia.
Qed.

(** ** Division, conversion and multiplication *)

Lemma new_location_inbetween (q r N D : Z) :
  0 < D -> 0 <= r < D -> N = q * D + r ->
  inbetween q (new_location D r) N D.
Proof.
  intros HD Hr ->. unfold new_location.
  destruct (Z.even D) eqn:Ev.
  - unfold new_location_even. destruct (r =? 0) eqn:E0.
    + apply Z.eqb_eq in E0. cbn [inbetween]. lia.
    + apply Z.eqb_neq in E0.
      destruct (Z.compare_spec (2 * r) D) as [H|H|H]; cbn [inbetween]; lia.
  - unfold new_location_odd. destruct (r =? 0) eqn:E0.
    + apply Z.eqb_eq in E0. cbn [inbetween]. lia.
    + apply Z.eqb_neq in E0.
      assert (Hodd : D <> 2 * r).
      { intros ->. rewrite Z.even_mul in Ev. discriminate. }
      destruct (Z.compare_spec (2 * r + 1) D) as [H|H|H]; cbn [inbetween]; lia.
Qed.

(** The quotient of two positive ints below [2 ^ 53]. *)
Lemma truediv_normal (a b : Z) :
  0 < a < 2 ^ 53 -> 0 < b < 2 ^ 53 ->
  exists (mz : positive) (ez s V : Z),
    PyFloat.truediv a b = Some (S754_finite false mz ez) /\
    2 ^ 52 <= Zpos mz < 2 ^ 53 /\
    -105 <= ez <= 1 /\
    0 < s /\ 0 <= ez + s /\ V = Zpos mz * 2 ^ (ez + s) /\
    - (a * 2 ^ s) <= 2 ^ 53 * (V * b - a * 2 ^ s) <= a * 2 ^ s.
Proof.
  intros Ha Hb. unfold PyFloat.truediv.
  assert (Eb : (b =? 0) = false) by (apply Z.eqb_neq; lia). rewrite Eb.
  destruct a as [|pa|pa]; try lia. destruct b as [|pb|pb]; try lia.
  cbn [PyFloat.exact SFdiv xorb]. unfold SFdiv_core_binary.
  destruct (Zdigits2_bounds (Zpos pa)) as [Da1 Da2]; [lia|].
  destruct (Zdigits2_bounds (Zpos pb)) as [Db1 Db2]; [lia|].
  set (d1 := Zdigits2 (Zpos pa)) in *. set (d2 := Zdigits2 (Zpos pb)) in *.
  assert (Hd1 : d1 <= 53).
  { destruct (Z_le_gt_dec d1 53) as [H|H]; [exact H|].
    assert (2 ^ 53 <= 2 ^ (d1 - 1)) by (apply Z.pow_le_mono_r; lia). lia. }
  assert (Hd2 : d2 <= 53).
  { destruct (Z_le_gt_dec d2 53) as [H|H]; [exact H|].
    assert (2 ^ 53 <= 2 ^ (d2 - 1)) by (apply Z.pow_le_mono_r; lia). lia. }
  remember (53 + d2 - d1) as s eqn:Es.
  assert (Hs : 0 < s) by lia.
  replace (Z.min (fexp PyFloat.prec PyFloat.emax (d1 + 0 - (d2 + 0))) (0 - 0)) with (- s)
    by (unfold fexp, emin, PyFloat.prec, PyFloat.emax; lia).
  replace (0 - 0 - - s) with s by lia.
  assert (Esh : match s with
                | 0 => Zpos pa
                | Zpos _ => Z.shiftl (Zpos pa) s
                | Zneg _ => 0
                end = Zpos pa * 2 ^ s).
  { destruct s; try lia. apply Z.shiftl_mul_pow2. lia. }
  rewrite Esh. clear Esh.
  destruct (Z.div_eucl (Zpos pa * 2 ^ s) (Zpos pb)) as [q r] eqn:Edm.
  assert (Hdm : Zpos pa * 2 ^ s = Zpos pb * q + r /\ 0 <= r < Zpos pb).
  { pose proof (Z_div_mod (Zpos pa * 2 ^ s) (Zpos pb)) as H. rewrite Edm in H.
    apply H. lia. }
  destruct Hdm as [Hq Hr].
  assert (P1 : 2 ^ (d1 - 1) * 2 ^ s = 2 ^ 52 * 2 ^ d2).
  { rewrite <- !Z.pow_add_r by lia. f_equal. lia. }
  assert (P2 : 2 ^ d1 * 2 ^ s = 2 ^ 54 * 2 ^ (d2 - 1)).
  { rewrite <- !Z.pow_add_r by lia. f_equal. lia. }
  assert (P2s : 0 < 2 ^ s) by (apply Z.pow_pos_nonneg; lia).
  assert (P2d : 0 < 2 ^ (d2 - 1)) by (apply Z.pow_pos_nonneg; lia).
  assert (L1 : 2 ^ 52 * 2 ^ d2 <= Zpos pa * 2 ^ s).
  { rewrite <- P1. apply Z.mul_le_mono_nonneg_r; lia. }
  assert (L2 : Zpos pa * 2 ^ s < 2 ^ 54 * 2 ^ (d2 - 1)).
  { rewrite <- P2. apply Z.mul_lt_mono_pos_r; lia. }
  assert (Hq1 : 2 ^ 52 <= q < 2 ^ 54).
  { split.
    - assert (H : Zpos pb * 2 ^ 52 < Zpos pb * (q + 1)).
      { assert (2 ^ 52 * Zpos pb < 2 ^ 52 * 2 ^ d2)
          by (apply Z.mul_lt_mono_pos_l; lia). lia. }
      apply Z.mul_lt_mono_pos_l in H; lia.
    - assert (H : Zpos pb * q < Zpos pb * 2 ^ 54).
      { assert (2 ^ 54 * 2 ^ (d2 - 1) <= 2 ^ 54 * Zpos pb)
          by (apply Z.mul_le_mono_nonneg_l; lia). lia. }
      apply Z.mul_lt_mono_pos_l in H; lia. }
  assert (Hdq : 53 <= Zdigits2 q <= 54).
  { destruct (Z_lt_ge_dec q (2 ^ 53)) as [H|H].
    - rewrite (Zdigits2_unique q 53); lia.
    - rewrite (Zdigits2_unique q 54); lia. }
  destruct (binary_round_aux_normal q (- s) (new_location (Zpos pb) r)
              (Zpos pa * 2 ^ s) (Zpos pb))
    as (mz & k & Hres & Hk & Hmz & Herr); try lia.
  { apply new_location_inbetween; lia. }
  unfold PyFloat.prec, PyFloat.emax. rewrite Hres.
  exists mz, (- s + k), s, (Zpos mz * 2 ^ k).
  split; [reflexivity|]. split; [exact Hmz|].
  split; [lia|]. split; [lia|]. split; [lia|].
  split; [f_equal; f_equal; lia | exact Herr].
Qed.

Lemma iter_xO (p : positive) (n : positive) :
  Zpos (Pos.iter xO p n) = Zpos p * 2 ^ Zpos n.
Proof.
  induction n as [|n IH] using Pos.peano_ind.
  - cbn [Pos.iter]. change (Zpos p~0) with (2 * Zpos p). rewrite Z.pow_1_r. ring.
  - rewrite Pos.iter_succ, Pos2Z.inj_succ, Z.pow_succ_r by lia.
    change (Zpos (Pos.iter xO p n)~0) with (2 * Zpos (Pos.iter xO p n)).
    rewrite IH. ring.
Qed.

(** An int below [2 ^ 53] converts without rounding. *)
Lemma of_int_exact (n : Z) :
  0 < n < 2 ^ 53 ->
  exists (m : positive) (e : Z),
    PyFloat.of_int n = S754_finite false m e /\
    2 ^ 52 <= Zpos m < 2 ^ 53 /\
    -52 <= e <= 0 /\
    Zpos m = n * 2 ^ (- e).
Proof.
  intros Hn. destruct n as [|p|p]; try lia.
  destruct (Zdigits2_bounds (Zpos p)) as [D1 D2]; [lia|].
  unfold PyFloat.of_int, binary_normalize, binary_round.
  change (Zpos (digits2_pos p)) with (Zdigits2 (Zpos p)).
  remember (Zdigits2 (Zpos p)) as d eqn:Ed.
  assert (Hd : d <= 53).
  { destruct (Z_le_gt_dec d 53) as [H|H]; [exact H|].
    assert (2 ^ 53 <= 2 ^ (d - 1)) by (apply Z.pow_le_mono_r; lia). lia. }
  replace (fexp PyFloat.prec PyFloat.emax (d + 0)) with (d - 53)
    by (unfold fexp, emin, PyFloat.prec, PyFloat.emax; lia).
  assert (Hal : exists mz, shl_align p 0 (d - 53) = (mz, d - 53) /\
                           Zpos mz = Zpos p * 2 ^ (53 - d)).
  { unfold shl_align. destruct (d - 53 - 0) as [|q|q] eqn:Eq; try lia.
    - exists p. replace (d - 53) with 0 by lia. replace (53 - d) with 0 by lia.
      split; [reflexivity | rewrite Z.pow_0_r; lia].
    - exists (Pos.iter xO p q). split; [reflexivity|].
      rewrite iter_xO. f_equal. f_equal. lia. }
  destruct Hal as (mz & -> & Hmz).
  assert (Pw : 2 ^ (d - 1) * 2 ^ (53 - d) = 2 ^ 52 /\ 2 ^ d * 2 ^ (53 - d) = 2 ^ 53).
  { split; rewrite <- Z.pow_add_r by lia; f_equal; lia. }
  destruct Pw as [Pw1 Pw2].
  assert (P0 : 0 < 2 ^ (53 - d)) by (apply Z.pow_pos_nonneg; lia).
  assert (Hb : 2 ^ 52 <= Zpos mz < 2 ^ 53).
  { rewrite Hmz, <- Pw1, <- Pw2. split.
    - apply Z.mul_le_mono_nonneg_r; lia.
    - apply Z.mul_lt_mono_pos_r; lia. }
  assert (Edz : Zdigits2 (Zpos mz) = 53) by (apply Zdigits2_unique; lia).
  destruct (binary_round_aux_normal (Zpos mz) (d - 53) loc_Exact (Zpos mz) 1)
    as (m' & k & Hres & Hk & Hm' & Herr); try lia.
  { cbn [inbetween]. lia. }
  rewrite Edz in Hk.
  assert (Ek : k = 0).
  { destruct (Z.eq_dec k 0) as [E|E]; [exact E|].
    assert (k = 1) by lia. subst k. rewrite Z.pow_1_r in Herr. lia. }
  subst k. rewrite Z.pow_0_r in Herr.
  assert (Zpos m' = Zpos mz) by lia.
  unfold PyFloat.prec, PyFloat.emax. rewrite Hres.
  exists m', (d - 53). replace (d - 53 + 0) with (d - 53) by lia.
  split; [reflexivity|]. split; [lia|]. split; [lia|].
  replace (- (d - 53)) with (53 - d) by lia. lia.
Qed.

(** The product of two positive floats with 53-digit mantissas. *)
Lemma mul_normal (m1 m2 : positive) (e1 e2 : Z) :
  2 ^ 52 <= Zpos m1 < 2 ^ 53 -> 2 ^ 52 <= Zpos m2 < 2 ^ 53 ->
  -1000 <= e1 + e2 <= 900 ->
  exists (mz : positive) (k : Z),
    PyFloat.mul (S754_finite false m1 e1) (S754_finite false m2 e2)
    = S754_finite false mz (e1 + e2 + k) /\
    0 <= k /\
    - (Zpos m1 * Zpos m2) <= 2 ^ 53 * (Zpos mz * 2 ^ k - Zpos m1 * Zpos m2)
    <= Zpos m1 * Zpos m2.
Proof.
  intros H1 H2 He. unfold PyFloat.mul. cbn [SFmul xorb].
  rewrite Pos2Z.inj_mul.
  assert (Hp : 2 ^ 104 <= Zpos m1 * Zpos m2 < 2 ^ 106).
  { change (2 ^ 104) with (2 ^ 52 * 2 ^ 52). change (2 ^ 106) with (2 ^ 53 * 2 ^ 53).
    split; nia. }
  assert (Hd : 105 <= Zdigits2 (Zpos m1 * Zpos m2) <= 106).
  { destruct (Z_lt_ge_dec (Zpos m1 * Zpos m2) (2 ^ 105)) as [H|H].
    - rewrite (Zdigits2_unique _ 105); lia.
    - rewrite (Zdigits2_unique _ 106); lia. }
  destruct (binary_round_aux_normal (Zpos m1 * Zpos m2) (e1 + e2) loc_Exact
              (Zpos m1 * Zpos m2) 1)
    as (mz & k & Hres & Hk & Hmz & Herr); try lia.
  { cbn [inbetween]. lia. }
  unfold PyFloat.prec, PyFloat.emax. rewrite Hres.
  exists mz, k. split; [reflexivity|]. split; [lia|].
  rewrite Z.mul_1_r in Herr. exact Herr.
Qed.

(** ** The operations on numbers *)

Lemma Qpow2_pos (e : Z) : (0 < 2 ^ e)%Q.
Proof. apply Qpower_0_lt. reflexivity. Qed.

Lemma Qpow2_inject (k : Z) : 0 <= k -> (2 ^ k == inject_Z (2 ^ k))%Q.
Proof. intros H. symmetry. apply (Zpower_Qpower 2 k H). Qed.

Lemma Qpow2_add (a b : Z) : (2 ^ (a + b) == 2 ^ a * 2 ^ b)%Q.
Proof. apply Qpower_plus. discriminate. Qed.

Lemma Qpow2_opp (s : Z) : 0 <= s -> (2 ^ (- s) == / inject_Z (2 ^ s))%Q.
Proof. intros H. rewrite Qpower_opp, (Qpow2_inject s H). reflexivity. Qed.

Lemma inject_Z_pow2_pos (s : Z) : 0 <= s -> (0 < inject_Z (2 ^ s))%Q.
Proof.
  intros H. rewrite <- (Qpow2_inject s H). apply Qpow2_pos.
Qed.

Lemma rounded_scaled (V N T : Q) :
  (0 < T)%Q ->
  (- N <= inject_Z (2 ^ 53) * (V - N) <= N)%Q ->
  rounded (V * T) (N * T).
Proof.
  intros HT [H1 H2]. unfold rounded, roundoff.
  assert (E : (inject_Z (2 ^ 53) == 9007199254740992)%Q) by reflexivity.
  rewrite E in H1, H2.
  assert (L1 : (- N * T <= 9007199254740992 * (V - N) * T)%Q)
    by (apply Qmult_le_compat_r; [exact H1 | now apply Qlt_le_weak]).
  assert (L2 : (9007199254740992 * (V - N) * T <= N * T)%Q)
    by (apply Qmult_le_compat_r; [exact H2 | now apply Qlt_le_weak]).
  change (1 # 2 ^ 53)%Q with (1 # 9007199254740992)%Q.
  split; lra.
Qed.

Lemma rounded_compat (v v' x x' : Q) :
  (v == v')%Q -> (x == x')%Q -> rounded v' x' -> rounded v x.
Proof. unfold rounded. intros -> ->. auto. Qed.

Lemma Z_to_Q_le (a b : Z) : a <= b -> (inject_Z a <= inject_Z b)%Q.
Proof. intros H. now rewrite <- Zle_Qle. Qed.

Lemma cross_to_Q (V N : Z) :
  - N <= 2 ^ 53 * (V - N) <= N ->
  (- inject_Z N <= inject_Z (2 ^ 53) * (inject_Z V - inject_Z N) <= inject_Z N)%Q.
Proof.
  intros H. unfold Qminus.
  rewrite <- !inject_Z_opp, <- inject_Z_plus, <- inject_Z_mult.
  split; apply Z_to_Q_le; lia.
Qed.

(** [a / b] is the quotient rounded once. *)
Lemma truediv_rounded (a b : Z) :
  0 < a < 2 ^ 53 -> 0 < b < 2 ^ 53 ->
  exists q,
    PyFloat.truediv a b = Some q /\
    normal q (-105) 1 /\
    rounded (PyFloat.value q) (inject_Z a / inject_Z b).
Proof.
  intros Ha Hb.
  destruct (truediv_normal a b Ha Hb) as (mz & ez & s & V & Hq & Hmz & Hez & Hs & Hes & HV & Herr).
  exists (S754_finite false mz ez). split; [exact Hq|]. split.
  { exists mz, ez. auto. }
  cbn [PyFloat.value cond_Zopp].
  set (T := (/ (inject_Z b * inject_Z (2 ^ s)))%Q).
  assert (HS : (0 < inject_Z (2 ^ s))%Q) by (apply inject_Z_pow2_pos; lia).
  assert (HB : (0 < inject_Z b)%Q) by (change 0%Q with (inject_Z 0); rewrite <- Zlt_Qlt; lia).
  assert (HT : (0 < T)%Q).
  { apply Qinv_lt_0_compat. apply Qmult_lt_0_compat; assumption. }
  assert (E1 : (inject_Z (Zpos mz) * 2 ^ ez
                == inject_Z (V * b) * T)%Q).
  { replace ez with ((ez + s) + - s) by lia.
    rewrite Qpow2_add, (Qpow2_inject (ez + s)), (Qpow2_opp s) by lia.
    subst V T. rewrite !inject_Z_mult. field. split; lra. }
  assert (E2 : (inject_Z a / inject_Z b == inject_Z (a * 2 ^ s) * T)%Q).
  { subst T. rewrite inject_Z_mult. field. split; lra. }
  apply (rounded_compat _ _ _ _ E1 E2). apply rounded_scaled; [exact HT|].
  apply cross_to_Q. lia.
Qed.

Lemma of_int_value (n : Z) :
  0 < n < 2 ^ 53 ->
  normal (PyFloat.of_int n) (-52) 0 /\
  (PyFloat.value (PyFloat.of_int n) == inject_Z n)%Q.
Proof.
  intros Hn. destruct (of_int_exact n Hn) as (m & e & -> & Hm & He & Hme).
  split; [exists m, e; auto|].
  cbn [PyFloat.value cond_Zopp]. rewrite Hme, inject_Z_mult.
  replace e with (- (- e)) at 2 by lia.
  rewrite (Qpow2_opp (- e)) by lia.
  assert (0 < inject_Z (2 ^ (- e)))%Q by (apply inject_Z_pow2_pos; lia).
  field. lra.
Qed.

(** [x * y] is the product rounded once. *)
Lemma mul_rounded (x y : spec_float) (lx hx ly hy : Z) :
  normal x lx hx -> normal y ly hy ->
  -1000 <= lx + ly -> hx + hy <= 900 ->
  exists (m : positive) (e : Z),
    PyFloat.mul x y = S754_finite false m e /\
    rounded (PyFloat.value (PyFloat.mul x y)) (PyFloat.value x * PyFloat.value y).
Proof.
  intros (m1 & e1 & -> & H1 & E1) (m2 & e2 & -> & H2 & E2) Hlo Hhi.
  destruct (mul_normal m1 m2 e1 e2 H1 H2) as (mz & k & Hres & Hk & Herr); [lia|].
  exists mz, (e1 + e2 + k). split; [exact Hres|]. rewrite Hres.
  cbn [PyFloat.value cond_Zopp].
  assert (Ev : (inject_Z (Zpos mz) * 2 ^ (e1 + e2 + k)
                == inject_Z (Zpos mz * 2 ^ k) * 2 ^ (e1 + e2))%Q).
  { rewrite Qpow2_add, (Qpow2_inject k Hk), inject_Z_mult. ring. }
  assert (Ex : (inject_Z (Zpos m1) * 2 ^ e1 * (inject_Z (Zpos m2) * 2 ^ e2)
                == inject_Z (Zpos m1 * Zpos m2) * 2 ^ (e1 + e2))%Q).
  { rewrite Qpow2_add, inject_Z_mult. ring. }
  apply (rounded_compat _ _ _ _ Ev Ex). apply rounded_scaled; [apply Qpow2_pos|].
  apply cross_to_Q. lia.
Qed.

(** [int(x)] is the integer part. *)
Lemma to_int_floor (m : positive) (e : Z) :
  exists t,
    PyFloat.to_int (S754_finite false m e) = Some t /\
    (inject_Z t <= PyFloat.value (S754_finite false m e) < inject_Z t + 1)%Q.
Proof.
  cbn [PyFloat.to_int PyFloat.value cond_Zopp].
  destruct (0 <=? e) eqn:He.
  - apply Z.leb_le in He. exists (Zpos m * 2 ^ e). split; [reflexivity|].
    rewrite inject_Z_mult, (Qpow2_inject e He). split; lra.
  - apply Z.leb_gt in He. exists (Zpos m / 2 ^ (- e)). split; [reflexivity|].
    assert (P : 0 < 2 ^ (- e)) by (apply Z.pow_pos_nonneg; lia).
    pose proof (Z_div_mod_eq_full (Zpos m) (2 ^ (- e))) as Hd.
    pose proof (Z.mod_pos_bound (Zpos m) (2 ^ (- e)) P) as Hr.
    set (t := Zpos m / 2 ^ (- e)) in *.
    assert (HP : (0 < inject_Z (2 ^ (- e)))%Q) by (apply inject_Z_pow2_pos; lia).
    assert (E : (2 ^ e == / inject_Z (2 ^ (- e)))%Q).
    { rewrite <- (Qpow2_opp (- e)) by lia. now rewrite Z.opp_involutive. }
    rewrite E. split.
    + apply Qle_shift_div_l; [exact HP|].
      rewrite <- inject_Z_mult. apply Z_to_Q_le. lia.
    + apply Qlt_shift_div_r; [exact HP|].
      change 1%Q with (inject_Z 1). rewrite <- inject_Z_plus, <- inject_Z_mult.
      rewrite <- Zlt_Qlt. lia.
Qed.

Lemma value_exponent_lt (m1 m2 : positive) (e1 e2 : Z) :
  2 ^ 52 <= Zpos m1 < 2 ^ 53 -> 2 ^ 52 <= Zpos m2 < 2 ^ 53 ->
  e1 < e2 ->
  (inject_Z (Zpos m1) * 2 ^ e1 < inject_Z (Zpos m2) * 2 ^ e2)%Q.
Proof.
  intros H1 H2 He.
  assert (E : (2 ^ e2 == inject_Z (2 ^ (e2 - e1)) * 2 ^ e1)%Q).
  { replace e2 with ((e2 - e1) + e1) at 1 by lia.
    rewrite Qpow2_add, (Qpow2_inject (e2 - e1)) by lia. reflexivity. }
  rewrite E, Qmult_assoc. apply Qmult_lt_compat_r; [apply Qpow2_pos|].
  rewrite <- inject_Z_mult, <- Zlt_Qlt.
  assert (2 <= 2 ^ (e2 - e1)).
  { change 2 with (2 ^ 1) at 1. apply Z.pow_le_mono_r; lia. }
  change (2 ^ 53) with (2 * 2 ^ 52) in H1. nia.
Qed.

(** [x < y] on floats is the order of the numbers. *)
Lemma lt_value (x y : spec_float) (lx hx ly hy : Z) :
  normal x lx hx -> normal y ly hy ->
  PyFloat.lt x y = true <-> (PyFloat.value x < PyFloat.value y)%Q.
Proof.
  intros (m1 & e1 & -> & H1 & _) (m2 & e2 & -> & H2 & _).
  unfold PyFloat.lt, SFltb. cbn [SFcompare PyFloat.value cond_Zopp].
  destruct (Z.compare_spec e1 e2) as [E|E|E].
  - subst e2. rewrite Pos.compare_cont_spec. cbn [Pos.switch_Eq].
    destruct (Pos.compare_spec m1 m2) as [Em|Em|Em].
    + subst. split; [discriminate | intros H; now apply Qlt_irrefl in H].
    + split; [intros _ | reflexivity].
      apply Qmult_lt_compat_r; [apply Qpow2_pos|]. rewrite <- Zlt_Qlt. lia.
    + split; [discriminate|]. intros H. exfalso.
      apply (Qlt_irrefl (inject_Z (Zpos m1) * 2 ^ e1)).
      eapply Qlt_trans; [exact H|].
      apply Qmult_lt_compat_r; [apply Qpow2_pos|]. rewrite <- Zlt_Qlt. lia.
  - split; [intros _ | reflexivity]. now apply value_exponent_lt.
  - split; [discriminate|]. intros H. exfalso.
    apply (Qlt_irrefl (inject_Z (Zpos m1) * 2 ^ e1)).
    eapply Qlt_trans; [exact H|]. now apply value_exponent_lt.
Qed.

(** ** The size of the scaled image *)

Lemma inject_Z_pos (n : Z) : 0 < n -> (0 < inject_Z n)%Q.
Proof. intros H. change 0%Q with (inject_Z 0). now rewrite <- Zlt_Qlt. Qed.

(** One side of the new size: with [n * s = X / den] in exact
    arithmetic, the computed side is [X / den] rounded down, or one
    less. *)
Lemma scaled_side (n den X : Z) (scale : spec_float) (s : Q) :
  0 < n < 2 ^ 53 -> 0 < den -> 0 <= X < 2 ^ 51 ->
  normal scale (-105) 1 ->
  rounded (PyFloat.value scale) s ->
  (inject_Z n * s == inject_Z X / inject_Z den)%Q ->
  exists w,
    PyFloat.to_int (PyFloat.mul (PyFloat.of_int n) scale) = Some w /\
    X - den <= w * den <= X.
Proof.
  intros Hn Hden HX Hsc [Hs1 Hs2] Hns.
  destruct (of_int_value n Hn) as [Hnn Hnv].
  destruct (mul_rounded _ _ _ _ _ _ Hnn Hsc) as (m & e & Hmul & [Hp1 Hp2]); try lia.
  rewrite Hmul in *. destruct (to_int_floor m e) as (w & Hw & Hw1 & Hw2).
  exists w. split; [exact Hw|].
  set (P := PyFloat.value (S754_finite false m e)) in *.
  set (S := PyFloat.value scale) in *.
  rewrite Hnv in Hp1, Hp2.
  pose proof (inject_Z_pos n (proj1 Hn)) as Hn0.
  pose proof (inject_Z_pos den Hden) as Hd0.
  set (nQ := inject_Z n) in *. set (dQ := inject_Z den) in *.
  set (XQ := inject_Z X) in *.
  assert (HXQ : (0 <= XQ < 2251799813685248)%Q).
  { subst XQ. split.
    - change 0%Q with (inject_Z 0). rewrite <- Zle_Qle. lia.
    - change 2251799813685248%Q with (inject_Z (2 ^ 51)). rewrite <- Zlt_Qlt. lia. }
  assert (HE : (nQ * s * dQ == XQ)%Q) by (rewrite Hns; field; lra).
  unfold roundoff in *. change (1 # 2 ^ 53)%Q with (1 # 9007199254740992)%Q in *.
  (* bounds on the product before and after rounding *)
  assert (Y1 : (nQ * s * (1 - (1 # 9007199254740992)) <= nQ * S)%Q).
  { rewrite <- Qmult_assoc. apply Qmult_le_l; [exact Hn0 | exact Hs1]. }
  assert (Y2 : (nQ * S <= nQ * s * (1 + (1 # 9007199254740992)))%Q).
  { rewrite <- (Qmult_assoc nQ). apply Qmult_le_l; [exact Hn0 | exact Hs2]. }
  set (E := (nQ * s)%Q) in *. set (Y := (nQ * S)%Q) in *.
  assert (U : (inject_Z w <= E * (1 + (1 # 9007199254740992)) * (1 + (1 # 9007199254740992)))%Q)
    by lra.
  assert (L : (E * (1 - (1 # 9007199254740992)) * (1 - (1 # 9007199254740992)) - 1
               < inject_Z w)%Q) by lra.
  apply (Qmult_le_compat_r _ _ dQ) in U; [|lra].
  apply (Qmult_lt_compat_r _ _ dQ) in L; [|lra].
  assert (Eu : (E * (1 + (1 # 9007199254740992)) * (1 + (1 # 9007199254740992)) * dQ
                == XQ * (1 + (1 # 9007199254740992)) * (1 + (1 # 9007199254740992)))%Q)
    by (rewrite <- HE; ring).
  assert (El : ((E * (1 - (1 # 9007199254740992)) * (1 - (1 # 9007199254740992)) - 1) * dQ
                == XQ * (1 - (1 # 9007199254740992)) * (1 - (1 # 9007199254740992)) - dQ)%Q)
    by (rewrite <- HE; ring).
  rewrite Eu in U. rewrite El in L.
  assert (U' : (inject_Z w * dQ < XQ + 1)%Q) by lra.
  assert (L' : (XQ - dQ - 1 < inject_Z w * dQ)%Q) by lra.
  subst XQ dQ.
  assert (U2 : (inject_Z (w * den) < inject_Z (X + 1))%Q)
    by (rewrite inject_Z_mult, inject_Z_plus; exact U').
  assert (L2 : (inject_Z (X + - den + - (1)) < inject_Z (w * den))%Q)
    by (rewrite inject_Z_mult, !inject_Z_plus, !inject_Z_opp; exact L').
  rewrite <- Zlt_Qlt in U2, L2. lia.
Qed.

Lemma min_rounded (fx fy : spec_float) (x y : Q) :
  normal fx (-105) 1 -> normal fy (-105) 1 ->
  (0 < x)%Q -> (0 < y)%Q ->
  rounded (PyFloat.value fx) x -> rounded (PyFloat.value fy) y ->
  normal (PyFloat.min fx fy) (-105) 1 /\
  rounded (PyFloat.value (PyFloat.min fx fy)) (Qmin x y).
Proof.
  intros Nx Ny Hx Hy [X1 X2] [Y1 Y2]. unfold PyFloat.min.
  pose proof (lt_value fy fx _ _ _ _ Ny Nx) as Hlt.
  unfold rounded, roundoff in *. change (1 # 2 ^ 53)%Q with (1 # 9007199254740992)%Q in *.
  destruct (PyFloat.lt fy fx) eqn:E.
  - split; [exact Ny|]. assert (H : (PyFloat.value fy < PyFloat.value fx)%Q) by now apply Hlt.
    destruct (Q.min_spec x y) as [[Hc ->]|[Hc ->]]; split; lra.
  - split; [exact Nx|].
    assert (H : (PyFloat.value fx <= PyFloat.value fy)%Q).
    { apply Qnot_lt_le. intros C. apply Hlt in C. discriminate. }
    destruct (Q.min_spec x y) as [[Hc ->]|[Hc ->]]; split; lra.
Qed.

Lemma Qdiv_le_cross (a b c d : Q) :
  (0 < b)%Q -> (0 < d)%Q -> (a * d <= c * b)%Q -> (a / b <= c / d)%Q.
Proof.
  intros Hb Hd H. apply Qle_shift_div_r; [exact Hb|].
  assert (E : (c / d * b == c * b / d)%Q) by (field; lra).
  rewrite E. apply Qle_shift_div_l; assumption.
Qed.

Lemma exact_scale_side (sw sh iw ih : Z) :
  0 < sw -> 0 < sh -> 0 < iw -> 0 < ih ->
  let scale := Qmin (inject_Z sw / inject_Z iw) (inject_Z sh / inject_Z ih) in
  (inject_Z iw * scale == inject_Z (Z.min (sw * ih) (sh * iw)) / inject_Z ih)%Q /\
  (inject_Z ih * scale == inject_Z (Z.min (sw * ih) (sh * iw)) / inject_Z iw)%Q.
Proof.
  intros Hsw Hsh Hiw Hih scale. subst scale.
  pose proof (inject_Z_pos _ Hsw). pose proof (inject_Z_pos _ Hsh).
  pose proof (inject_Z_pos _ Hiw). pose proof (inject_Z_pos _ Hih).
  destruct (Z.min_spec (sw * ih) (sh * iw)) as [[Hz ->]|[Hz ->]].
  - rewrite Q.min_l.
    + rewrite inject_Z_mult. split; field; lra.
    + apply Qdiv_le_cross; try assumption.
      rewrite <- !inject_Z_mult, <- Zle_Qle. lia.
  - rewrite Q.min_r.
    + rewrite inject_Z_mult. split; field; lra.
    + apply Qdiv_le_cross; try assumption.
      rewrite <- !inject_Z_mult, <- Zle_Qle. lia.
Qed.

(** The sizes an 11 by 3 and a 4000 by 3000 image get on a 1920 by 1080
    screen. In exact arithmetic the first width is 1920: the product
    [11 * (1920 / 11)] falls just below it in binary64. *)
Lemma scaled_size_examples :
  Bulletin.scaled_size hd_board 11 3 = Some (1919, 523) /\
  Bulletin.scaled_size hd_board 4000 3000 = Some (1440, 1080) /\
  Bulletin.scaled_size hd_board 1920 1080 = Some (1920, 1080) /\
  Bulletin.scaled_size hd_board 0 3 = None.
Proof. evaluate. Qed.


